(** * QtKittiVisualizer: navigation state machine and scene synchronisation

    A shallow embedding of [QtKittiVisualizer.cpp]: the three navigation
    indices, the four layer flags, the derived tracklet sequences and the
    named objects held by the PCL visualizer, together with the request and
    toggle slots that update them.

    Conventions.
    - A C++ [int] is a [Z]; conversions between [int] and [size_t] are written
      out with [to_int] and [to_size_t].
    - [std::vector] is a [list]; [v.at(i)] is [vector_at], which fails with
      [OutOfRange] exactly when [std::vector::at] throws.
    - [float] and [double] values are carried as real numbers, so that an
      object of the scene records the pose, the tracklet and the cloud it is
      built from.  Rounding is left out: the properties below compare such
      values as wholes and rest on no identity of their arithmetic.
    - A member function [void f()] is a function [State -> result State],
      or [State -> State] when nothing in it can throw or be undefined.
    - The camera presets and the exit action are left out: they touch none
      of the data modelled here. *)

From Stdlib Require Import ZArith Lia ZifyBool Reals.
From stdpp Require Import base option list strings gmap pretty.

Local Open Scope Z_scope.

(** ** Machine integers *)

Definition INT_MAX : Z := 2147483647.
Definition INT_MIN : Z := -2147483648.

Definition is_int (z : Z) : Prop := INT_MIN <= z <= INT_MAX.

(** Conversion of an integer value to [int] (two's complement, 32 bits). *)
Definition to_int (z : Z) : Z := (z + 2 ^ 31) mod 2 ^ 32 - 2 ^ 31.

(** Conversion of an integer value to [size_t] (64 bits). *)
Definition to_size_t (z : Z) : Z := z mod 2 ^ 64.

(** [v.size()], a [size_t]. *)
Definition vector_size {A} (v : list A) : Z := Z.of_nat (length v).

(** ** Results of member functions *)

(** The containers on which the file calls [at]. *)
Inductive Container :=
  | in_availableDatasets
  | in_availableTracklets
  | in_poses
  | in_croppedTrackletPointClouds.

(** [Ok]: the call returned.  [OutOfRange c]: [at] threw [std::out_of_range]
    on container [c].  [Undefined]: the call has no defined behaviour.
    [Exit n]: the process called [exit(n)]. *)
Inductive result (A : Type) :=
  | Ok (a : A)
  | OutOfRange (c : Container)
  | Undefined
  | Exit (status : Z).
Arguments Ok {A} a.
Arguments OutOfRange {A} c.
Arguments Undefined {A}.
Arguments Exit {A} status.

Definition bind {A B} (m : result A) (f : A -> result B) : result B :=
  match m with
  | Ok a => f a
  | OutOfRange c => OutOfRange c
  | Undefined => Undefined
  | Exit n => Exit n
  end.

#[global] Instance result_ret : MRet result := fun _ a => Ok a.
#[global] Instance result_bind : MBind result := fun _ _ f m => bind m f.

Definition of_option {A} (o : option A) : result A :=
  match o with Some a => Ok a | None => Undefined end.

(** The value of an [int] expression: overflow of signed arithmetic is not
    defined. *)
Definition int_value (z : Z) : result Z :=
  if (INT_MIN <=? z) && (z <=? INT_MAX) then Ok z else Undefined.

(** [v.at(i)] with an [int] argument: the argument is converted to [size_t]
    and checked against [v.size()]. *)
Definition vector_at {A} (c : Container) (v : list A) (i : Z) : result A :=
  let n := to_size_t i in
  if n <? vector_size v then
    match v !! Z.to_nat n with
    | Some a => Ok a
    | None => OutOfRange c
    end
  else OutOfRange c.

(** [for (int i = 0; i < n; ++i) body], for a bound [n] that no body changes;
    [i] is the current value of the counter and [n] the number of rounds
    left. *)
Fixpoint for_loop {S} (n : nat) (i : Z) (body : Z -> S -> result S) (s : S)
  : result S :=
  match n with
  | O => Ok s
  | Datatypes.S k => s' ← body i s; for_loop k (i + 1) body s'
  end.

(** The pattern
<<
    if (x >= v.size()) x = v.size() - 1;
    if (x < 0) x = 0;
>>
    for an [int x]: the comparison and the subtraction are done in [size_t],
    the assignment converts back to [int]. *)
Definition clamp_index (x : Z) (n : Z) : Z :=
  let x1 := if to_size_t x >=? n then to_int (to_size_t (n - 1)) else x in
  if x1 <? 0 then 0 else x1.

(** The same pattern against an [int] bound (the number of frames). *)
Definition clamp_upper (x : Z) (n : Z) : Z :=
  if x >=? n then n - 1 else x.

Definition clamp_lower (x : Z) : Z :=
  if x <? 0 then 0 else x.

(** ** String literals and pointer arithmetic *)

Fixpoint string_drop (n : nat) (s : string) : string :=
  match n, s with
  | O, _ => s
  | Datatypes.S k, String _ s' => string_drop k s'
  | Datatypes.S _, EmptyString => EmptyString
  end.

(** [std::string id = lit + i;] for a string literal [lit] and an [int i].
    The literal decays to [const char*], so the sum is the pointer [i]
    characters into the literal and the string is what starts there.  The
    pointer is inside the literal (terminator included) for
    [0 <= i <= strlen(lit)]; any other [i] reads outside the array. *)
Definition literal_plus (lit : string) (i : Z) : option string :=
  if (0 <=? i) && (i <=? Z.of_nat (String.length lit))
  then Some (string_drop (Z.to_nat i) lit)
  else None.

(** ** Geometry *)

Record Vector3f := { vx : R; vy : R; vz : R }.

(** [Eigen::Quaternionf], by the rotation matrix it stands for, with exact
    entries where Eigen holds four rounded [float] coefficients. *)
Record Quaternionf := {
  r11 : R; r12 : R; r13 : R;
  r21 : R; r22 : R; r23 : R;
  r31 : R; r32 : R; r33 : R }.

Definition Quaternionf_Identity : Quaternionf :=
  {| r11 := 1; r12 := 0; r13 := 0;
     r21 := 0; r22 := 1; r23 := 0;
     r31 := 0; r32 := 0; r33 := 1 |}%R.

(** [Eigen::Quaternionf(Eigen::AngleAxisf(a, Eigen::Vector3f::UnitZ()))]:
    the rotation by [a] about the vertical axis, with the exact cosine and
    sine where Eigen calls the [float] ones. *)
Definition AngleAxisZ (a : R) : Quaternionf :=
  {| r11 := cos a; r12 := - sin a; r13 := 0;
     r21 := sin a; r22 := cos a;   r23 := 0;
     r31 := 0;     r32 := 0;       r33 := 1 |}%R.

Definition Vector3f_Zero : Vector3f := {| vx := 0; vy := 0; vz := 0 |}%R.

Record KittiPoint := { px : R; py : R; pz : R; intensity : R }.

Definition PointCloud := list KittiPoint.

(** One point under [Eigen::Translation3f(offset) * rotation]: rotated, then
    shifted.  PCL does this in [float]; the sums and products here are the
    exact ones. *)
Definition transformPoint (offset : Vector3f) (rotation : Quaternionf)
    (p : KittiPoint) : KittiPoint :=
  {| px := r11 rotation * px p + r12 rotation * py p + r13 rotation * pz p + vx offset;
     py := r21 rotation * px p + r22 rotation * py p + r23 rotation * pz p + vy offset;
     pz := r31 rotation * px p + r32 rotation * py p + r33 rotation * pz p + vz offset;
     intensity := intensity p |}%R.

(** [pcl::transformPointCloud(in, out, offset, rotation)]. *)
Definition transformPointCloud (cloud_in : PointCloud) (offset : Vector3f)
    (rotation : Quaternionf) : PointCloud :=
  map (transformPoint offset rotation) cloud_in.

(** ** Tracklets (kitti-devkit-raw/tracklets.h) *)

(** [Tracklets::tPose]: the translation and the yaw of one frame. *)
Record tPose := { tx : R; ty : R; tz : R; rz : R }.

(** [KittiTracklet]: the fields this file reads. *)
Record KittiTracklet := {
  objectType : string;
  h : R;
  w : R;
  l : R;
  first_frame : Z;
  poses : list tPose }.

(** Modelled from the spec: [lastFrame()] is declared in tracklets.h, outside
    this repository's sources; a tracklet's
    [lastFrame = first_frame + poses.size() - 1]. *)
Definition lastFrame (t : KittiTracklet) : Z :=
  first_frame t + vector_size (poses t) - 1.

(** Modelled from the spec: the [Tracklets] collection of a data set is an
    ordered sequence of tracklets; [numberOfTracklets] is its length and
    [getTracklet(id)] its element at position [id]. *)
Definition Tracklets := list KittiTracklet.

Definition numberOfTracklets (ts : Tracklets) : Z := vector_size ts.

Definition getTracklet (ts : Tracklets) (id : Z) : option KittiTracklet :=
  if 0 <=? id then ts !! Z.to_nat id else None.

(** ** The data set (KittiDataset.h) *)

(** What this file asks of a [KittiDataset] object; the reader itself is
    outside the sources. *)
Record KittiDataset := {
  getNumberOfFrames : Z;
  getPointCloud : Z -> PointCloud;
  getImageFileName : Z -> string;
  getTracklets : Tracklets;
  getTrackletPointCloud : PointCloud -> KittiTracklet -> Z -> PointCloud }.

(** ** The scene held by the PCL visualizer *)

Inductive SceneObject :=
  | Cube (translation : Vector3f) (rotation : Quaternionf)
         (width height depth : R)
  | Cloud (cloud : PointCloud) (r g b : Z).

(** Modelled from the spec: the scene renderer keeps one object per
    identifier; [addCube] and [addPointCloud] add or replace the object of
    that identifier, [removeShape] and [removePointCloud] remove it and do
    nothing when it is absent. *)
Definition addCube (translation : Vector3f) (rotation : Quaternionf)
    (width height depth : R) (id : string)
    (scene : gmap string SceneObject) : gmap string SceneObject :=
  <[id := Cube translation rotation width height depth]> scene.

Definition addPointCloud (cloud : PointCloud) (r g b : Z) (id : string)
    (scene : gmap string SceneObject) : gmap string SceneObject :=
  <[id := Cloud cloud r g b]> scene.

Definition removeShape (id : string) (scene : gmap string SceneObject)
  : gmap string SceneObject := delete id scene.

Definition removePointCloud (id : string) (scene : gmap string SceneObject)
  : gmap string SceneObject := delete id scene.

(** ** The widgets *)

(** A [QSlider], as far as this file drives it: the arguments of the last
    [setRange] and of the last [setValue] call.  What the widget does with
    them is Qt's and not part of the record: it keeps its value inside the
    range, and when its value changes, also inside [setRange] or
    [setValue], it emits [valueChanged], which the constructor connects to
    the request slots.  The slots below are their own statements only: a
    request that a widget starts from inside a [setRange] or [setValue]
    call is a separate [Event]. *)
Record Slider := { minimum : Z; maximum : Z; value : Z }.

Definition setRange (lo hi : Z) (sl : Slider) : Slider :=
  {| minimum := lo; maximum := hi; value := value sl |}.

Definition setValue (v : Z) (sl : Slider) : Slider :=
  {| minimum := minimum sl; maximum := maximum sl; value := v |}.

Record Ui := {
  label_dataSet : string;
  label_frame : string;
  label_tracklet : string;
  imageWidget : string;
  slider_dataSet : Slider;
  slider_frame : Slider;
  slider_tracklet : Slider }.

(** The static parts of KittiConfig.h and KittiDataset.h that this file
    calls: the list of available data sets, the two maps between a data set
    number and its index, the constructor [KittiDataset(number)] and
    [KittiDataset::getColor]; and the widgets as [setupUi] leaves them
    (ui_QtKittiVisualizer.h). *)
Record Environment := {
  availableDatasets : list Z;
  getDatasetNumber : Z -> Z;
  getDatasetIndex : Z -> Z;
  new_KittiDataset : Z -> KittiDataset;
  getColor : string -> Z * Z * Z;
  setupUi : Ui }.

(** ** The window object *)

Record State := {
  dataset_index : Z;
  frame_index : Z;
  tracklet_index : Z;
  pclVisualizer : gmap string SceneObject;
  pointCloudVisible : bool;
  trackletBoundingBoxesVisible : bool;
  trackletPointsVisible : bool;
  trackletInCenterVisible : bool;
  dataset : KittiDataset;
  pointCloud : PointCloud;
  availableTracklets : list KittiTracklet;
  croppedTrackletPointClouds : list PointCloud;
  ui : Ui }.

Definition set_dataset_index (v : Z) (s : State) : State :=
  Build_State v (frame_index s) (tracklet_index s) (pclVisualizer s)
    (pointCloudVisible s) (trackletBoundingBoxesVisible s)
    (trackletPointsVisible s) (trackletInCenterVisible s) (dataset s)
    (pointCloud s) (availableTracklets s) (croppedTrackletPointClouds s) (ui s).

Definition set_frame_index (v : Z) (s : State) : State :=
  Build_State (dataset_index s) v (tracklet_index s) (pclVisualizer s)
    (pointCloudVisible s) (trackletBoundingBoxesVisible s)
    (trackletPointsVisible s) (trackletInCenterVisible s) (dataset s)
    (pointCloud s) (availableTracklets s) (croppedTrackletPointClouds s) (ui s).

Definition set_tracklet_index (v : Z) (s : State) : State :=
  Build_State (dataset_index s) (frame_index s) v (pclVisualizer s)
    (pointCloudVisible s) (trackletBoundingBoxesVisible s)
    (trackletPointsVisible s) (trackletInCenterVisible s) (dataset s)
    (pointCloud s) (availableTracklets s) (croppedTrackletPointClouds s) (ui s).

Definition set_pclVisualizer (v : gmap string SceneObject) (s : State) : State :=
  Build_State (dataset_index s) (frame_index s) (tracklet_index s) v
    (pointCloudVisible s) (trackletBoundingBoxesVisible s)
    (trackletPointsVisible s) (trackletInCenterVisible s) (dataset s)
    (pointCloud s) (availableTracklets s) (croppedTrackletPointClouds s) (ui s).

Definition set_pointCloudVisible (v : bool) (s : State) : State :=
  Build_State (dataset_index s) (frame_index s) (tracklet_index s)
    (pclVisualizer s) v (trackletBoundingBoxesVisible s)
    (trackletPointsVisible s) (trackletInCenterVisible s) (dataset s)
    (pointCloud s) (availableTracklets s) (croppedTrackletPointClouds s) (ui s).

Definition set_trackletBoundingBoxesVisible (v : bool) (s : State) : State :=
  Build_State (dataset_index s) (frame_index s) (tracklet_index s)
    (pclVisualizer s) (pointCloudVisible s) v
    (trackletPointsVisible s) (trackletInCenterVisible s) (dataset s)
    (pointCloud s) (availableTracklets s) (croppedTrackletPointClouds s) (ui s).

Definition set_trackletPointsVisible (v : bool) (s : State) : State :=
  Build_State (dataset_index s) (frame_index s) (tracklet_index s)
    (pclVisualizer s) (pointCloudVisible s) (trackletBoundingBoxesVisible s)
    v (trackletInCenterVisible s) (dataset s)
    (pointCloud s) (availableTracklets s) (croppedTrackletPointClouds s) (ui s).

Definition set_trackletInCenterVisible (v : bool) (s : State) : State :=
  Build_State (dataset_index s) (frame_index s) (tracklet_index s)
    (pclVisualizer s) (pointCloudVisible s) (trackletBoundingBoxesVisible s)
    (trackletPointsVisible s) v (dataset s)
    (pointCloud s) (availableTracklets s) (croppedTrackletPointClouds s) (ui s).

Definition set_dataset (v : KittiDataset) (s : State) : State :=
  Build_State (dataset_index s) (frame_index s) (tracklet_index s)
    (pclVisualizer s) (pointCloudVisible s) (trackletBoundingBoxesVisible s)
    (trackletPointsVisible s) (trackletInCenterVisible s) v
    (pointCloud s) (availableTracklets s) (croppedTrackletPointClouds s) (ui s).

Definition set_pointCloud (v : PointCloud) (s : State) : State :=
  Build_State (dataset_index s) (frame_index s) (tracklet_index s)
    (pclVisualizer s) (pointCloudVisible s) (trackletBoundingBoxesVisible s)
    (trackletPointsVisible s) (trackletInCenterVisible s) (dataset s)
    v (availableTracklets s) (croppedTrackletPointClouds s) (ui s).

Definition set_availableTracklets (v : list KittiTracklet) (s : State) : State :=
  Build_State (dataset_index s) (frame_index s) (tracklet_index s)
    (pclVisualizer s) (pointCloudVisible s) (trackletBoundingBoxesVisible s)
    (trackletPointsVisible s) (trackletInCenterVisible s) (dataset s)
    (pointCloud s) v (croppedTrackletPointClouds s) (ui s).

Definition set_croppedTrackletPointClouds (v : list PointCloud) (s : State) : State :=
  Build_State (dataset_index s) (frame_index s) (tracklet_index s)
    (pclVisualizer s) (pointCloudVisible s) (trackletBoundingBoxesVisible s)
    (trackletPointsVisible s) (trackletInCenterVisible s) (dataset s)
    (pointCloud s) (availableTracklets s) v (ui s).

Definition set_ui (v : Ui) (s : State) : State :=
  Build_State (dataset_index s) (frame_index s) (tracklet_index s)
    (pclVisualizer s) (pointCloudVisible s) (trackletBoundingBoxesVisible s)
    (trackletPointsVisible s) (trackletInCenterVisible s) (dataset s)
    (pointCloud s) (availableTracklets s) (croppedTrackletPointClouds s) v.

Definition set_label_dataSet (v : string) (u : Ui) : Ui :=
  Build_Ui v (label_frame u) (label_tracklet u) (imageWidget u)
    (slider_dataSet u) (slider_frame u) (slider_tracklet u).

Definition set_label_frame (v : string) (u : Ui) : Ui :=
  Build_Ui (label_dataSet u) v (label_tracklet u) (imageWidget u)
    (slider_dataSet u) (slider_frame u) (slider_tracklet u).

Definition set_label_tracklet (v : string) (u : Ui) : Ui :=
  Build_Ui (label_dataSet u) (label_frame u) v (imageWidget u)
    (slider_dataSet u) (slider_frame u) (slider_tracklet u).

Definition set_imageWidget (v : string) (u : Ui) : Ui :=
  Build_Ui (label_dataSet u) (label_frame u) (label_tracklet u) v
    (slider_dataSet u) (slider_frame u) (slider_tracklet u).

Definition set_slider_dataSet (v : Slider) (u : Ui) : Ui :=
  Build_Ui (label_dataSet u) (label_frame u) (label_tracklet u) (imageWidget u)
    v (slider_frame u) (slider_tracklet u).

Definition set_slider_frame (v : Slider) (u : Ui) : Ui :=
  Build_Ui (label_dataSet u) (label_frame u) (label_tracklet u) (imageWidget u)
    (slider_dataSet u) v (slider_tracklet u).

Definition set_slider_tracklet (v : Slider) (u : Ui) : Ui :=
  Build_Ui (label_dataSet u) (label_frame u) (label_tracklet u) (imageWidget u)
    (slider_dataSet u) (slider_frame u) v.

(** [std::endl] and the double quote character. *)
Definition endl : string := String (Ascii.ascii_of_nat 10) EmptyString.
Definition dquote : string := String (Ascii.ascii_of_nat 34) EmptyString.

(** ** Poses of a tracklet in the scene *)

(** The centre and the orientation of the box, as [showTrackletBoxes]
    computes them: the height of the centre is
    [(float) tpose.tz + (float) boxHeight / 2.0f], a [float] sum of values
    rounded one by one, written here without the rounding. *)
Definition boxTranslation (tracklet : KittiTracklet) (tpose : tPose) : Vector3f :=
  {| vx := tx tpose; vy := ty tpose; vz := tz tpose + h tracklet / 2 |}%R.

Definition boxRotation (tpose : tPose) : Quaternionf := AngleAxisZ (rz tpose).

(** The offset and the rotation of [showTrackletInCenter]: the height of the
    offset is [(float) -(tpose.tz + tracklet.h / 2.0)], a [double] sum
    rounded once, written here without the rounding.  In the program it
    need not be the opposite of the height of [boxTranslation]. *)
Definition transformOffset (tracklet : KittiTracklet) (tpose : tPose) : Vector3f :=
  {| vx := - tx tpose; vy := - ty tpose;
     vz := - (tz tpose + h tracklet / 2) |}%R.

Definition transformRotation (tpose : tPose) : Quaternionf :=
  AngleAxisZ (- rz tpose).

(** The two [pcl::transformPointCloud] calls of [showTrackletInCenter], in
    the order of the source. *)
Definition centeredCloud (tracklet : KittiTracklet) (tpose : tPose)
    (cloudOut : PointCloud) : PointCloud :=
  let cloudOutTransformed :=
    transformPointCloud cloudOut (transformOffset tracklet tpose)
      Quaternionf_Identity in
  transformPointCloud cloudOutTransformed Vector3f_Zero
    (transformRotation tpose).

(** ** Member functions of [KittiVisualizerQt] *)

Section KittiVisualizerQt.

Context (env : Environment).

Definition getTrackletColor (tracklet : KittiTracklet) : Z * Z * Z :=
  getColor env (objectType tracklet).

Definition loadPointCloud (s : State) : State :=
  set_pointCloud (getPointCloud (dataset s) (frame_index s)) s.

Definition loadImageFile (s : State) : State :=
  set_ui (set_imageWidget (getImageFileName (dataset s) (frame_index s)) (ui s)) s.

Definition showPointCloud (s : State) : State :=
  set_pclVisualizer
    (addPointCloud (pointCloud s) 255 255 255 "point_cloud" (pclVisualizer s)) s.

Definition hidePointCloud (s : State) : State :=
  set_pclVisualizer (removePointCloud "point_cloud" (pclVisualizer s)) s.

(** The test of [loadAvailableTracklets]. *)
Definition activeAt (frame : Z) (tracklet : KittiTracklet) : bool :=
  (first_frame tracklet <=? frame) && (lastFrame tracklet >=? frame).

Definition loadAvailableTracklets (s : State) : result State :=
  let tracklets := getTracklets (dataset s) in
  let number_of_tracklets := to_int (numberOfTracklets tracklets) in
  available ← for_loop (Z.to_nat number_of_tracklets) 0
    (fun tracklet_id available =>
       tracklet ← of_option (getTracklet tracklets tracklet_id);
       if activeAt (frame_index s) tracklet
       then Ok (available ++ [tracklet])
       else Ok available)
    (availableTracklets s);
  Ok (set_availableTracklets available s).

Definition clearAvailableTracklets (s : State) : State :=
  set_availableTracklets [] s.

Definition updateDatasetLabel (s : State) : result State :=
  n ← int_value (dataset_index s + 1);
  let text := "Data set: " +:+ pretty n +:+ " of "
              +:+ pretty (vector_size (availableDatasets env))
              +:+ " [" +:+ pretty (getDatasetNumber env (dataset_index s))
              +:+ "]" +:+ endl in
  Ok (set_ui (set_label_dataSet text (ui s)) s).

Definition updateFrameLabel (s : State) : result State :=
  n ← int_value (frame_index s + 1);
  let text := "Frame: " +:+ pretty n +:+ " of "
              +:+ pretty (getNumberOfFrames (dataset s)) +:+ endl in
  Ok (set_ui (set_label_frame text (ui s)) s).

Definition updateTrackletLabel (s : State) : result State :=
  if vector_size (availableTracklets s) =? 0 then
    let text := "Tracklet: " +:+ "0 of 0" +:+ endl in
    Ok (set_ui (set_label_tracklet text (ui s)) s)
  else
    tracklet ← vector_at in_availableTracklets (availableTracklets s)
                 (tracklet_index s);
    n ← int_value (tracklet_index s + 1);
    cloud ← vector_at in_croppedTrackletPointClouds
              (croppedTrackletPointClouds s) (tracklet_index s);
    let text := "Tracklet: " +:+ pretty n +:+ " of "
                +:+ pretty (vector_size (availableTracklets s))
                +:+ " (" +:+ dquote +:+ objectType tracklet +:+ dquote
                +:+ ", " +:+ pretty (vector_size cloud) +:+ " points)"
                +:+ endl in
    Ok (set_ui (set_label_tracklet text (ui s)) s).

Definition showTrackletBoxes (s : State) : result State :=
  scene ← for_loop (length (availableTracklets s)) 0
    (fun i scene =>
       tracklet ← vector_at in_availableTracklets (availableTracklets s) i;
       let boxHeight := h tracklet in
       let boxWidth := w tracklet in
       let boxLength := l tracklet in
       pose_number ← int_value (frame_index s - first_frame tracklet);
       tpose ← vector_at in_poses (poses tracklet) pose_number;
       viewer_id ← of_option (literal_plus "tracklet_box_" i);
       Ok (addCube (boxTranslation tracklet tpose) (boxRotation tpose)
             boxLength boxWidth boxHeight viewer_id scene))
    (pclVisualizer s);
  Ok (set_pclVisualizer scene s).

Definition hideTrackletBoxes (s : State) : result State :=
  scene ← for_loop (length (availableTracklets s)) 0
    (fun i scene =>
       viewer_id ← of_option (literal_plus "tracklet_box_" i);
       Ok (removeShape viewer_id scene))
    (pclVisualizer s);
  Ok (set_pclVisualizer scene s).

Definition loadTrackletPoints (s : State) : result State :=
  clouds ← for_loop (length (availableTracklets s)) 0
    (fun i clouds =>
       tracklet ← vector_at in_availableTracklets (availableTracklets s) i;
       let trackletPointCloud :=
         getTrackletPointCloud (dataset s) (pointCloud s) tracklet
           (frame_index s) in
       let transformOffset := {| vx := 0; vy := 0; vz := 6 |}%R in
       let trackletPointCloudTransformed :=
         transformPointCloud trackletPointCloud transformOffset
           Quaternionf_Identity in
       Ok (clouds ++ [trackletPointCloudTransformed]))
    (croppedTrackletPointClouds s);
  Ok (set_croppedTrackletPointClouds clouds s).

Definition showTrackletPoints (s : State) : result State :=
  scene ← for_loop (length (availableTracklets s)) 0
    (fun i scene =>
       tracklet ← vector_at in_availableTracklets (availableTracklets s) i;
       let '(r, g, b) := getTrackletColor tracklet in
       handled ← vector_at in_croppedTrackletPointClouds
                   (croppedTrackletPointClouds s) i;
       viewer_id ← of_option (literal_plus "cropped_tracklet_" i);
       cloud ← vector_at in_croppedTrackletPointClouds
                 (croppedTrackletPointClouds s) i;
       Ok (addPointCloud cloud r g b viewer_id scene))
    (pclVisualizer s);
  Ok (set_pclVisualizer scene s).

Definition hideTrackletPoints (s : State) : result State :=
  scene ← for_loop (length (availableTracklets s)) 0
    (fun i scene =>
       viewer_id ← of_option (literal_plus "cropped_tracklet_" i);
       Ok (removeShape viewer_id scene))
    (pclVisualizer s);
  Ok (set_pclVisualizer scene s).

Definition clearTrackletPoints (s : State) : State :=
  set_croppedTrackletPointClouds [] s.

Definition showTrackletInCenter (s : State) : result State :=
  if vector_size (availableTracklets s) =? 0 then Ok s
  else
    tracklet ← vector_at in_availableTracklets (availableTracklets s)
                 (tracklet_index s);
    let cloudOut :=
      getTrackletPointCloud (dataset s) (pointCloud s) tracklet
        (frame_index s) in
    pose_number ← int_value (frame_index s - first_frame tracklet);
    tpose ← vector_at in_poses (poses tracklet) pose_number;
    let cloudOut := centeredCloud tracklet tpose cloudOut in
    Ok (set_pclVisualizer
          (addPointCloud cloudOut 0 255 0 "centered_tracklet"
             (pclVisualizer s)) s).

Definition hideTrackletInCenter (s : State) : State :=
  if vector_size (availableTracklets s) =? 0 then s
  else set_pclVisualizer (removeShape "centered_tracklet" (pclVisualizer s)) s.

(** The tracklet slider after a rebuild:
<<
    if (availableTracklets.size() != 0)
        ui->slider_tracklet->setRange(0, availableTracklets.size() - 1);
    else
        ui->slider_tracklet->setRange(0, 0);
    ui->slider_tracklet->setValue(tracklet_index);
>> *)
Definition resetTrackletSlider (s : State) : State :=
  let n := vector_size (availableTracklets s) in
  let sl := slider_tracklet (ui s) in
  let sl := if negb (n =? 0) then setRange 0 (to_int (to_size_t (n - 1))) sl
            else setRange 0 0 sl in
  let sl := setValue (tracklet_index s) sl in
  set_ui (set_slider_tracklet sl (ui s)) s.

(** *** Slots *)

Definition showFramePointCloudToggled (value : bool) (s : State) : State :=
  let s := set_pointCloudVisible value s in
  if pointCloudVisible s then showPointCloud s else hidePointCloud s.

Definition newDatasetRequested (value : Z) (s : State) : result State :=
  if dataset_index s =? value then Ok s
  else
    let s := if trackletInCenterVisible s then hideTrackletInCenter s else s in
    s ← (if trackletPointsVisible s then hideTrackletPoints s else Ok s);
    let s := clearTrackletPoints s in
    s ← (if trackletBoundingBoxesVisible s then hideTrackletBoxes s else Ok s);
    let s := clearAvailableTracklets s in
    let s := if pointCloudVisible s then hidePointCloud s else s in
    let s := set_dataset_index
               (clamp_index value (vector_size (availableDatasets env))) s in
    number ← vector_at in_availableDatasets (availableDatasets env)
               (dataset_index s);
    let s := set_dataset (new_KittiDataset env number) s in
    let s := set_frame_index
               (clamp_upper (frame_index s) (getNumberOfFrames (dataset s))) s in
    let s := loadPointCloud s in
    let s := if pointCloudVisible s then showPointCloud s else s in
    let s := loadImageFile s in
    s ← loadAvailableTracklets s;
    s ← (if trackletBoundingBoxesVisible s then showTrackletBoxes s else Ok s);
    s ← loadTrackletPoints s;
    s ← (if trackletPointsVisible s then showTrackletPoints s else Ok s);
    let s := set_tracklet_index
               (clamp_index (tracklet_index s)
                  (vector_size (availableTracklets s))) s in
    s ← (if trackletInCenterVisible s then showTrackletInCenter s else Ok s);
    let sl := setRange 0 (getNumberOfFrames (dataset s) - 1)
                (slider_frame (ui s)) in
    let sl := setValue (frame_index s) sl in
    let s := set_ui (set_slider_frame sl (ui s)) s in
    let s := resetTrackletSlider s in
    s ← updateDatasetLabel s;
    s ← updateFrameLabel s;
    updateTrackletLabel s.

Definition newFrameRequested (value : Z) (s : State) : result State :=
  if frame_index s =? value then Ok s
  else
    let s := if trackletInCenterVisible s then hideTrackletInCenter s else s in
    s ← (if trackletPointsVisible s then hideTrackletPoints s else Ok s);
    let s := clearTrackletPoints s in
    s ← (if trackletBoundingBoxesVisible s then hideTrackletBoxes s else Ok s);
    let s := clearAvailableTracklets s in
    let s := if pointCloudVisible s then hidePointCloud s else s in
    let s := set_frame_index
               (clamp_lower
                  (clamp_upper value (getNumberOfFrames (dataset s)))) s in
    let s := loadPointCloud s in
    let s := if pointCloudVisible s then showPointCloud s else s in
    let s := loadImageFile s in
    s ← loadAvailableTracklets s;
    s ← (if trackletBoundingBoxesVisible s then showTrackletBoxes s else Ok s);
    s ← loadTrackletPoints s;
    s ← (if trackletPointsVisible s then showTrackletPoints s else Ok s);
    let s := set_tracklet_index
               (clamp_index (tracklet_index s)
                  (vector_size (availableTracklets s))) s in
    s ← (if trackletInCenterVisible s then showTrackletInCenter s else Ok s);
    let s := resetTrackletSlider s in
    s ← updateFrameLabel s;
    updateTrackletLabel s.

Definition newTrackletRequested (value : Z) (s : State) : result State :=
  if tracklet_index s =? value then Ok s
  else
    let s := if trackletInCenterVisible s then hideTrackletInCenter s else s in
    let s := set_tracklet_index
               (clamp_index value (vector_size (availableTracklets s))) s in
    s ← (if trackletInCenterVisible s then showTrackletInCenter s else Ok s);
    updateTrackletLabel s.

Definition showTrackletBoundingBoxesToggled (value : bool) (s : State)
  : result State :=
  let s := set_trackletBoundingBoxesVisible value s in
  if trackletBoundingBoxesVisible s then showTrackletBoxes s
  else hideTrackletBoxes s.

Definition showTrackletPointCloudsToggled (value : bool) (s : State)
  : result State :=
  let s := set_trackletPointsVisible value s in
  if trackletPointsVisible s then showTrackletPoints s
  else hideTrackletPoints s.

Definition showTrackletInCenterToggled (value : bool) (s : State)
  : result State :=
  let s := set_trackletInCenterVisible value s in
  if trackletInCenterVisible s then showTrackletInCenter s
  else Ok (hideTrackletInCenter s).

Definition loadNextFrame (s : State) : result State :=
  value ← int_value (frame_index s + 1);
  newFrameRequested value s.

Definition loadPreviousFrame (s : State) : result State :=
  value ← int_value (frame_index s - 1);
  newFrameRequested value s.

(** *** Start-up *)

(** The command line after parsing: whether [--help] was given and the
    value of [--dataset], if any. *)
Record CommandLine := { help : bool; dataset_option : option Z }.

(** Returns the exit status ([0]: go on) and the initial [dataset_index]. *)
Definition parseCommandLineOptions (cl : CommandLine) : Z * Z :=
  if help cl then (1, 0)
  else
    match dataset_option cl with
    | Some number => (0, getDatasetIndex env number)
    | None => (0, 0)
    end.

(** The constructor, up to the [connect] calls. *)
Definition KittiVisualizerQt (cl : CommandLine) : result State :=
  let '(invalidOptions, index) := parseCommandLineOptions cl in
  if negb (invalidOptions =? 0) then Exit invalidOptions
  else
    number ← vector_at in_availableDatasets (availableDatasets env) index;
    let s := {| dataset_index := index;
                frame_index := 0;
                tracklet_index := 0;
                pclVisualizer := ∅;
                pointCloudVisible := true;
                trackletBoundingBoxesVisible := true;
                trackletPointsVisible := true;
                trackletInCenterVisible := true;
                dataset := new_KittiDataset env number;
                pointCloud := [];
                availableTracklets := [];
                croppedTrackletPointClouds := [];
                ui := setupUi env |} in
    let s := loadPointCloud s in
    let s := if pointCloudVisible s then showPointCloud s else s in
    let s := loadImageFile s in
    s ← loadAvailableTracklets s;
    s ← (if trackletBoundingBoxesVisible s then showTrackletBoxes s else Ok s);
    s ← loadTrackletPoints s;
    s ← (if trackletPointsVisible s then showTrackletPoints s else Ok s);
    s ← (if trackletInCenterVisible s then showTrackletInCenter s else Ok s);
    let sl := setRange 0
                (to_int (to_size_t (vector_size (availableDatasets env) - 1)))
                (slider_dataSet (ui s)) in
    let sl := setValue (dataset_index s) sl in
    let s := set_ui (set_slider_dataSet sl (ui s)) s in
    let sl := setRange 0 (getNumberOfFrames (dataset s) - 1)
                (slider_frame (ui s)) in
    let sl := setValue (frame_index s) sl in
    let s := set_ui (set_slider_frame sl (ui s)) s in
    let s := resetTrackletSlider s in
    s ← updateDatasetLabel s;
    s ← updateFrameLabel s;
    updateTrackletLabel s.

(** *** Input events *)

(** The signals connected in the constructor and the two keys of
    [keyboardEventOccurred].  The camera presets and the exit action do not
    touch the state modelled here. *)
Inductive Event :=
  | slider_dataSet_valueChanged (value : Z)
  | slider_frame_valueChanged (value : Z)
  | slider_tracklet_valueChanged (value : Z)
  | checkBox_showFramePointCloud_toggled (value : bool)
  | checkBox_showTrackletBoundingBoxes_toggled (value : bool)
  | checkBox_showTrackletPointClouds_toggled (value : bool)
  | checkBox_showTrackletInCenter_toggled (value : bool)
  | key_Left
  | key_Right.

Definition dispatch (ev : Event) (s : State) : result State :=
  match ev with
  | slider_dataSet_valueChanged value => newDatasetRequested value s
  | slider_frame_valueChanged value => newFrameRequested value s
  | slider_tracklet_valueChanged value => newTrackletRequested value s
  | checkBox_showFramePointCloud_toggled value =>
      Ok (showFramePointCloudToggled value s)
  | checkBox_showTrackletBoundingBoxes_toggled value =>
      showTrackletBoundingBoxesToggled value s
  | checkBox_showTrackletPointClouds_toggled value =>
      showTrackletPointCloudsToggled value s
  | checkBox_showTrackletInCenter_toggled value =>
      showTrackletInCenterToggled value s
  | key_Left => loadPreviousFrame s
  | key_Right => loadNextFrame s
  end.

(** The values an event carries are C++ [int]s. *)
Definition event_ok (ev : Event) : Prop :=
  match ev with
  | slider_dataSet_valueChanged value
  | slider_frame_valueChanged value
  | slider_tracklet_valueChanged value => is_int value
  | _ => True
  end.

(** The states of the window: the one the constructor leaves, and those
    reached from it by events whose slot returns. *)
Inductive reachable : State -> Prop :=
  | reachable_start cl s :
      KittiVisualizerQt cl = Ok s -> reachable s
  | reachable_event s ev s' :
      reachable s -> event_ok ev -> dispatch ev s = Ok s' -> reachable s'.

End KittiVisualizerQt.

(** ** Further member functions *)

(** [setFrameNumber]: the assignment and nothing else. *)
Definition setFrameNumber (frameNumber : Z) (s : State) : State :=
  set_frame_index frameNumber s.

(** What [keyboardEventOccurred] reads of a
    [pcl::visualization::KeyboardEvent]. *)
Record KeyboardEvent := {
  getKeyCode : Z;
  keyDown : bool;
  getKeySym : string }.

Definition keyboardEventOccurred (env : Environment) (event : KeyboardEvent)
    (s : State) : result State :=
  if (getKeyCode event =? 0) && keyDown event then
    if String.eqb (getKeySym event) "Left" then loadPreviousFrame env s
    else if String.eqb (getKeySym event) "Right" then loadNextFrame env s
    else Ok s
  else Ok s.

(** ** A small recording, for running the model *)

Module Demo.

Definition pose0 : tPose := {| tx := 1; ty := 2; tz := 0; rz := 0 |}%R.

(** A car seen in frames 5 to 9 and a cyclist seen in frames 0 to 2. *)
Definition car : KittiTracklet :=
  {| objectType := "Car"; h := 2; w := 2; l := 4; first_frame := 5;
     poses := [pose0; pose0; pose0; pose0; pose0] |}%R.

Definition cyclist : KittiTracklet :=
  {| objectType := "Cyclist"; h := 2; w := 1; l := 2; first_frame := 0;
     poses := [pose0; pose0; pose0] |}%R.

Definition recording (frames : Z) (ts : Tracklets) : KittiDataset :=
  {| getNumberOfFrames := frames;
     getPointCloud := fun _ => [];
     getImageFileName := fun _ => "image.png";
     getTracklets := ts;
     getTrackletPointCloud := fun cloud _ _ => cloud |}.

Definition slider0 : Slider := {| minimum := 0; maximum := 99; value := 0 |}.

Definition env : Environment :=
  {| availableDatasets := [1; 2; 9];
     getDatasetNumber := fun index => nth (Z.to_nat index) [1; 2; 9] 0;
     getDatasetIndex := fun number =>
       if number =? 2 then 1 else if number =? 9 then 2 else 0;
     new_KittiDataset := fun number =>
       if number =? 1 then recording 12 [cyclist; car]
       else if number =? 2 then recording 4 [cyclist]
       else recording 20 [];
     getColor := fun _ => (255, 0, 0);
     setupUi := {| label_dataSet := ""; label_frame := ""; label_tracklet := "";
                   imageWidget := ""; slider_dataSet := slider0;
                   slider_frame := slider0; slider_tracklet := slider0 |} |}.

Definition cl : CommandLine := {| help := false; dataset_option := None |}.

(** A window on frame 5 of the first recording, nothing shown yet. *)
Definition window : State :=
  {| dataset_index := 0;
     frame_index := 5;
     tracklet_index := 0;
     pclVisualizer := ∅;
     pointCloudVisible := true;
     trackletBoundingBoxesVisible := true;
     trackletPointsVisible := false;
     trackletInCenterVisible := true;
     dataset := recording 12 [cyclist; car];
     pointCloud := [];
     availableTracklets := [car];
     croppedTrackletPointClouds := [[]];
     ui := setupUi env |}.

End Demo.

(** ** Notions used in the statements *)

(** The number of tracklets the scan visits. *)
Definition scanned (ts : Tracklets) : nat :=
  Z.to_nat (to_int (numberOfTracklets ts)).

(** A function that returns touches the scene only. *)
Definition scene_only (f : State -> result State) : Prop :=
  forall s s', f s = Ok s' -> exists scene, s' = set_pclVisualizer scene s.

(** A function that returns touches the widgets only. *)
Definition ui_only (f : State -> result State) : Prop :=
  forall s s', f s = Ok s' -> exists u, s' = set_ui u s.

(** The four layer flags agree. *)
Definition same_flags (s s' : State) : Prop :=
  pointCloudVisible s' = pointCloudVisible s /\
  trackletBoundingBoxesVisible s' = trackletBoundingBoxesVisible s /\
  trackletPointsVisible s' = trackletPointsVisible s /\
  trackletInCenterVisible s' = trackletInCenterVisible s.

(** The point cloud and the two tracklet sequences are those of the current
    data set and frame. *)
Definition rebuilt (s : State) : Prop :=
  pointCloud s = getPointCloud (dataset s) (frame_index s) /\
  availableTracklets s =
    List.filter (activeAt (frame_index s))
      (take (scanned (getTracklets (dataset s))) (getTracklets (dataset s))) /\
  length (croppedTrackletPointClouds s) = length (availableTracklets s).

(** Every tracklet of [ts] has a pose for [frame]. *)
Definition covers (frame : Z) (ts : list KittiTracklet) : Prop :=
  Forall (fun t => 0 <= frame - first_frame t < vector_size (poses t)) ts.

(** The selection [index] over the active tracklets [ts]: a position of
    [ts], or [0] when there is none. *)
Definition selected (index : Z) (ts : list KittiTracklet) : Prop :=
  match ts with
  | [] => index = 0
  | _ :: _ => 0 <= index < vector_size ts
  end.

(** The invariant of the window: the active tracklets are active at the
    current frame and fit in an [int] count, there is one cropped cloud per
    active tracklet, the selection is in range, and there is a data set. *)
Record consistent (env : Environment) (s : State) : Prop := {
  consistent_active :
    Forall (fun t => first_frame t <= frame_index s <= lastFrame t)
      (availableTracklets s);
  consistent_aligned :
    length (croppedTrackletPointClouds s) = length (availableTracklets s);
  consistent_selected :
    selected (tracklet_index s) (availableTracklets s);
  consistent_bounded : vector_size (availableTracklets s) <= INT_MAX;
  consistent_datasets : 0 < vector_size (availableDatasets env) }.

(** The events of [evs], dispatched in order from state [s]. *)
Fixpoint run (env : Environment) (evs : list Event) (s : State)
  : result State :=
  match evs with
  | [] => Ok s
  | ev :: evs => s' ← dispatch env ev s; run env evs s'
  end.

(** A session: the window is constructed, then the events arrive. *)
Definition session (env : Environment) (cl : CommandLine) (evs : list Event)
  : result State :=
  s ← KittiVisualizerQt env cl; run env evs s.

(** A session on the small recording: frame 5, then a tracklet beyond the
    active ones, then the boxes off. *)
Definition demo_events : list Event :=
  [slider_frame_valueChanged 5; slider_tracklet_valueChanged 2;
   checkBox_showTrackletBoundingBoxes_toggled false].

(** The state in which that session ends. *)
Definition demo_end : State :=
  match session Demo.env Demo.cl demo_events with
  | Ok s => s
  | _ => Demo.window
  end.

(** The window of the small recording as the constructor leaves it. *)
Definition demo_start : State :=
  match KittiVisualizerQt Demo.env Demo.cl with
  | Ok s => s
  | _ => Demo.window
  end.

(** The four layers, one per check box. *)
Inductive Layer := RawCloud | BoundingBoxes | CroppedTracklets | CenteredSelection.

(** The flag of a layer. *)
Definition visible (ly : Layer) (s : State) : bool :=
  match ly with
  | RawCloud => pointCloudVisible s
  | BoundingBoxes => trackletBoundingBoxesVisible s
  | CroppedTracklets => trackletPointsVisible s
  | CenteredSelection => trackletInCenterVisible s
  end.

(** The check box of a layer. *)
Definition checkBox (ly : Layer) (value : bool) : Event :=
  match ly with
  | RawCloud => checkBox_showFramePointCloud_toggled value
  | BoundingBoxes => checkBox_showTrackletBoundingBoxes_toggled value
  | CroppedTracklets => checkBox_showTrackletPointClouds_toggled value
  | CenteredSelection => checkBox_showTrackletInCenter_toggled value
  end.

(** The identifiers under which a layer puts its objects in the scene. *)
Definition layer_id (ly : Layer) (s : State) (id : string) : Prop :=
  match ly with
  | RawCloud => id = "point_cloud"
  | BoundingBoxes =>
      exists i, 0 <= i < vector_size (availableTracklets s) /\
                literal_plus "tracklet_box_" i = Some id
  | CroppedTracklets =>
      exists i, 0 <= i < vector_size (availableTracklets s) /\
                literal_plus "cropped_tracklet_" i = Some id
  | CenteredSelection => id = "centered_tracklet"
  end.

(** The navigation data: the indices, the data set, the point cloud, the
    two tracklet sequences and the widgets. *)
Definition same_navigation (s s' : State) : Prop :=
  dataset_index s' = dataset_index s /\
  frame_index s' = frame_index s /\
  tracklet_index s' = tracklet_index s /\
  dataset s' = dataset s /\
  pointCloud s' = pointCloud s /\
  availableTracklets s' = availableTracklets s /\
  croppedTrackletPointClouds s' = croppedTrackletPointClouds s /\
  ui s' = ui s.

(** The cropped clouds switched off after start-up, then three frame
    requests. *)
Definition demo_toggled : State :=
  match dispatch Demo.env (checkBox CroppedTracklets false) demo_start with
  | Ok s => s
  | _ => Demo.window
  end.

Definition demo_scrubbed : State :=
  match run Demo.env (map slider_frame_valueChanged [5; 6; 10]) demo_toggled
  with
  | Ok s => s
  | _ => Demo.window
  end.

(** The index with which the constructor starts, [--help] not given. *)
Definition start_index (env : Environment) (cl : CommandLine) : Z :=
  snd (parseCommandLineOptions env cl).

(** The cloud that [loadTrackletPoints] stores for one tracklet: its crop of
    the frame, lifted by 6 along z. *)
Definition displayCloud (s : State) (tracklet : KittiTracklet) : PointCloud :=
  transformPointCloud
    (getTrackletPointCloud (dataset s) (pointCloud s) tracklet (frame_index s))
    {| vx := 0; vy := 0; vz := 6 |}%R Quaternionf_Identity.

(** The loaded data are those of the current data set and frame. *)
Definition synchronised (s : State) : Prop :=
  pointCloud s = getPointCloud (dataset s) (frame_index s) /\
  availableTracklets s =
    List.filter (activeAt (frame_index s))
      (take (scanned (getTracklets (dataset s))) (getTracklets (dataset s))) /\
  croppedTrackletPointClouds s = map (displayCloud s) (availableTracklets s).

(** The data set held is the one opened for
    [availableDatasets.at(dataset_index)]. *)
Definition dataset_current (env : Environment) (s : State) : Prop :=
  exists number,
    vector_at in_availableDatasets (availableDatasets env) (dataset_index s)
      = Ok number /\
    dataset s = new_KittiDataset env number.

(** The three labels show the current indices: updating them again changes
    nothing. *)
Definition labels_current (env : Environment) (s : State) : Prop :=
  updateDatasetLabel env s = Ok s /\
  updateFrameLabel s = Ok s /\
  updateTrackletLabel s = Ok s.

(** A further state of the small recording: a frame request far past the
    end. *)
Definition demo_far : State :=
  match newFrameRequested Demo.env 50 demo_start with
  | Ok s => s
  | _ => Demo.window
  end.





(** A window with two active tracklets, and the request for a third. *)
Definition demo_pair : State :=
  set_croppedTrackletPointClouds [[]; []]
    (set_availableTracklets [Demo.car; Demo.car] Demo.window).

Definition demo_picked : State :=
  match newTrackletRequested 2 demo_pair with
  | Ok s => s
  | _ => Demo.window
  end.

(** The right arrow key on the last frame of the small recording. *)
Definition demo_right : State :=
  match keyboardEventOccurred Demo.env
          {| getKeyCode := 0; keyDown := true; getKeySym := "Right" |}
          demo_far with
  | Ok s => s
  | _ => Demo.window
  end.

(** *** What the scene holds *)

(** The scene after the rounds [i], [i + 1], ... of a loop that puts the
    objects [objs], one per round, under the identifiers [lit + i],
    [lit + (i + 1)], ... *)
Fixpoint drawn (lit : string) (i : nat) (objs : list SceneObject)
    (scene : gmap string SceneObject) : gmap string SceneObject :=
  match objs with
  | [] => scene
  | o :: objs => drawn lit (S i) objs (<[string_drop i lit := o]> scene)
  end.

(** The scene after [n] rounds, from round [i] on, of a loop that removes
    the identifier [lit + i] in round [i]. *)
Fixpoint erased (lit : string) (i n : nat)
    (scene : gmap string SceneObject) : gmap string SceneObject :=
  match n with
  | O => scene
  | S n => erased lit (S i) n (delete (string_drop i lit) scene)
  end.

(** The objects of the three tracklet layers: the box of a tracklet at a
    pose, its cropped cloud in the colour of its type, and its cloud moved
    to the origin, in green. *)
Definition boxOf (t : KittiTracklet) (tpose : tPose) : SceneObject :=
  Cube (boxTranslation t tpose) (boxRotation tpose) (l t) (w t) (h t).

Definition cloudOf (env : Environment) (t : KittiTracklet)
    (cloud : PointCloud) : SceneObject :=
  let '(r, g, b) := getTrackletColor env t in Cloud cloud r g b.

Definition centerOf (s : State) (t : KittiTracklet) (tpose : tPose)
  : SceneObject :=
  Cloud
    (centeredCloud t tpose
       (getTrackletPointCloud (dataset s) (pointCloud s) t (frame_index s)))
    0 255 0.

(** Layer [ly] is in the scene, drawn from the data of [s]: the cloud of
    the frame in white; for every active tracklet its box at the pose of
    the current frame, and there are at most 14 of them; for every active
    tracklet its cropped cloud, at most 18 of them; the selected tracklet,
    if there is an active one, moved to the origin. *)
Definition layer_drawn (env : Environment) (ly : Layer) (s : State) : Prop :=
  match ly with
  | RawCloud =>
      pclVisualizer s !! "point_cloud"
        = Some (Cloud (pointCloud s) 255 255 255)
  | BoundingBoxes =>
      (length (availableTracklets s) <= 14)%nat /\
      forall (i : nat) (t : KittiTracklet),
        availableTracklets s !! i = Some t ->
        exists tpose,
          vector_at in_poses (poses t) (frame_index s - first_frame t)
            = Ok tpose /\
          pclVisualizer s !! string_drop i "tracklet_box_"
            = Some (boxOf t tpose)
  | CroppedTracklets =>
      (length (availableTracklets s) <= 18)%nat /\
      forall (i : nat) (t : KittiTracklet),
        availableTracklets s !! i = Some t ->
        exists cloud,
          croppedTrackletPointClouds s !! i = Some cloud /\
          pclVisualizer s !! string_drop i "cropped_tracklet_"
            = Some (cloudOf env t cloud)
  | CenteredSelection =>
      availableTracklets s <> [] ->
      exists t tpose,
        vector_at in_availableTracklets (availableTracklets s)
          (tracklet_index s) = Ok t /\
        vector_at in_poses (poses t) (frame_index s - first_frame t)
          = Ok tpose /\
        pclVisualizer s !! "centered_tracklet" = Some (centerOf s t tpose)
  end.

(** The scene shows the layers whose flag is set, drawn from the current
    data, and nothing else. *)
Record displayed (env : Environment) (s : State) : Prop := {
  displayed_layers :
    forall ly, visible ly s = true -> layer_drawn env ly s;
  displayed_only :
    forall id, is_Some (pclVisualizer s !! id) ->
      exists ly, visible ly s = true /\ layer_id ly s id /\
                 (ly = CenteredSelection -> availableTracklets s <> []) }.

(** What [showTrackletBoxes] has drawn: one box per active tracklet. *)
Definition boxes_of (s : State) (boxes : list SceneObject) : Prop :=
  (length (availableTracklets s) <= 14)%nat /\
  length boxes = length (availableTracklets s) /\
  forall (i : nat) (o : SceneObject),
    boxes !! i = Some o ->
    exists t tpose,
      availableTracklets s !! i = Some t /\
      vector_at in_poses (poses t) (frame_index s - first_frame t)
        = Ok tpose /\
      o = boxOf t tpose.

(** What [showTrackletPoints] needs to return. *)
Definition clouds_ok (s : State) : Prop :=
  (length (availableTracklets s) <= 18)%nat /\
  (length (availableTracklets s) <= length (croppedTrackletPointClouds s))%nat.

(** What [showTrackletInCenter] has drawn. *)
Definition center_of (s : State) (o : SceneObject) : Prop :=
  availableTracklets s <> [] ->
  exists t tpose,
    vector_at in_availableTracklets (availableTracklets s)
      (tracklet_index s) = Ok t /\
    vector_at in_poses (poses t) (frame_index s - first_frame t)
      = Ok tpose /\
    o = centerOf s t tpose.

(** The scene after the hiding half of a frame or data set request. *)
Definition hidden (s : State) : gmap string SceneObject :=
  let scene := pclVisualizer s in
  let scene :=
    if trackletInCenterVisible s
    then if vector_size (availableTracklets s) =? 0 then scene
         else removeShape "centered_tracklet" scene
    else scene in
  let scene :=
    if trackletPointsVisible s
    then erased "cropped_tracklet_" 0 (length (availableTracklets s)) scene
    else scene in
  let scene :=
    if trackletBoundingBoxesVisible s
    then erased "tracklet_box_" 0 (length (availableTracklets s)) scene
    else scene in
  if pointCloudVisible s then removePointCloud "point_cloud" scene
  else scene.

(** The scene after the showing half, begun on [scene]. *)
Definition shown (env : Environment) (s : State)
    (scene : gmap string SceneObject) (boxes : list SceneObject)
    (o : SceneObject) : gmap string SceneObject :=
  let scene :=
    if pointCloudVisible s
    then addPointCloud (pointCloud s) 255 255 255 "point_cloud" scene
    else scene in
  let scene :=
    if trackletBoundingBoxesVisible s
    then drawn "tracklet_box_" 0 boxes scene
    else scene in
  let scene :=
    if trackletPointsVisible s
    then drawn "cropped_tracklet_" 0
           (zip_with (cloudOf env) (availableTracklets s)
              (croppedTrackletPointClouds s)) scene
    else scene in
  if trackletInCenterVisible s
  then if vector_size (availableTracklets s) =? 0 then scene
       else <["centered_tracklet" := o]> scene
  else scene.

(** The widgets follow the data: the image is that of the current frame
    and the ranges of the three sliders are those of the data sets, of the
    frames of the data set and of the active tracklets. *)
Definition widgets_current (env : Environment) (s : State) : Prop :=
  imageWidget (ui s) = getImageFileName (dataset s) (frame_index s) /\
  minimum (slider_dataSet (ui s)) = 0 /\
  maximum (slider_dataSet (ui s))
    = to_int (to_size_t (vector_size (availableDatasets env) - 1)) /\
  minimum (slider_frame (ui s)) = 0 /\
  maximum (slider_frame (ui s)) = getNumberOfFrames (dataset s) - 1 /\
  minimum (slider_tracklet (ui s)) = 0 /\
  maximum (slider_tracklet (ui s))
    = (if vector_size (availableTracklets s) =? 0 then 0
       else to_int (to_size_t (vector_size (availableTracklets s) - 1))).

(** Further states of the small recording: the boxes switched on again at
    the end of the session above; frame 4 set from outside after start-up,
    then a request for frame 5; and two ways to frame 5, by the slider and
    by the slider and two key presses. *)
Definition demo_shown : State :=
  match dispatch Demo.env (checkBox BoundingBoxes true) demo_end with
  | Ok s => s
  | _ => Demo.window
  end.

Definition demo_set : State :=
  match newFrameRequested Demo.env 5 (setFrameNumber 4 demo_start) with
  | Ok s => s
  | _ => Demo.window
  end.

Definition demo_there : State :=
  match session Demo.env Demo.cl [slider_frame_valueChanged 5] with
  | Ok s => s
  | _ => Demo.window
  end.

Definition demo_back : State :=
  match session Demo.env Demo.cl
          [slider_frame_valueChanged 7; key_Left; key_Left] with
  | Ok s => s
  | _ => Demo.window
  end.

(** The configuration of the small recording without any data set. *)
Definition demo_empty : Environment :=
  {| availableDatasets := [];
     getDatasetNumber := getDatasetNumber Demo.env;
     getDatasetIndex := getDatasetIndex Demo.env;
     new_KittiDataset := new_KittiDataset Demo.env;
     getColor := getColor Demo.env;
     setupUi := setupUi Demo.env |}.

(** *** Sessions that return *)

(** A call returns. *)
Definition returns {A} (r : result A) : Prop := exists a, r = Ok a.

(** A data set that the window can show: it has a frame, at most 14 of its
    tracklets are active at any one frame, and the number of poses of each
    tracklet fits an [int]. *)
Definition showable (d : KittiDataset) : Prop :=
  0 < getNumberOfFrames d <= INT_MAX /\
  (forall frame,
      (length (List.filter (activeAt frame) (getTracklets d)) <= 14)%nat) /\
  Forall (fun t => vector_size (poses t) <= INT_MAX) (getTracklets d).

(** A window from which every slot returns. *)
Record ready (env : Environment) (s : State) : Prop := {
  ready_consistent : consistent env s;
  ready_dataset : showable (dataset s);
  ready_index : 0 <= dataset_index s < vector_size (availableDatasets env);
  ready_frame : 0 <= frame_index s < getNumberOfFrames (dataset s);
  ready_few : (length (availableTracklets s) <= 14)%nat;
  ready_poses :
    Forall (fun t => vector_size (poses t) <= INT_MAX)
      (availableTracklets s) }.

(** * Properties *)

(** ** Integers and vectors *)

Lemma to_int_le (n : Z) : 0 <= n -> to_int n <= n.
Proof.
  intros Hn. unfold to_int.
  pose proof (Z.mod_le (n + 2 ^ 31) (2 ^ 32)). lia.
Qed.

Lemma to_int_small (n : Z) : is_int n -> to_int n = n.
Proof.
  unfold is_int, INT_MIN, INT_MAX, to_int. intros Hn.
  rewrite Z.mod_small; lia.
Qed.

Lemma to_int_is_int (n : Z) : is_int (to_int n).
Proof.
  unfold is_int, INT_MIN, INT_MAX, to_int.
  pose proof (Z.mod_pos_bound (n + 2 ^ 31) (2 ^ 32)). lia.
Qed.

Lemma to_size_t_small (n : Z) : 0 <= n < 2 ^ 64 -> to_size_t n = n.
Proof. intros Hn. unfold to_size_t. apply Z.mod_small. lia. Qed.

Lemma clamp_index_empty (i : Z) : clamp_index i 0 = 0.
Proof.
  unfold clamp_index.
  assert (Hc : (to_size_t i >=? 0) = true).
  { unfold to_size_t. pose proof (Z.mod_pos_bound i (2 ^ 64)). lia. }
  rewrite Hc. reflexivity.
Qed.

Lemma clamp_index_range (i n : Z) :
  is_int i -> 0 < n -> 0 <= clamp_index i n < n.
Proof.
  unfold is_int, INT_MIN, INT_MAX. intros Hi Hn. unfold clamp_index.
  destruct (to_size_t i >=? n) eqn:Hc.
  - set (m := to_size_t (n - 1)).
    assert (Hm : 0 <= m <= n - 1).
    { unfold m, to_size_t.
      pose proof (Z.mod_pos_bound (n - 1) (2 ^ 64)).
      pose proof (Z.mod_le (n - 1) (2 ^ 64)). lia. }
    pose proof (to_int_le m). destruct (to_int m <? 0) eqn:Hneg; lia.
  - destruct (i <? 0) eqn:Hneg; [lia |].
    rewrite to_size_t_small in Hc; lia.
Qed.

(** A negative request passes the first test of the clamp, because the
    comparison is done in [size_t]. *)
Lemma clamp_index_negative (i n : Z) :
  is_int i -> i < 0 -> 0 < n <= INT_MAX -> clamp_index i n = n - 1.
Proof.
  unfold is_int, INT_MIN, INT_MAX. intros Hi Hneg Hn. unfold clamp_index.
  assert (Hc : (to_size_t i >=? n) = true).
  { unfold to_size_t.
    replace i with (i + 2 ^ 64 + (-1) * 2 ^ 64) by lia.
    rewrite Z.mod_add by lia. rewrite Z.mod_small; lia. }
  rewrite Hc, to_size_t_small by lia.
  rewrite to_int_small by (unfold is_int, INT_MIN, INT_MAX; lia).
  destruct (n - 1 <? 0) eqn:E; lia.
Qed.

Lemma clamp_index_inside (i n : Z) : 0 <= i < n -> is_int i -> clamp_index i n = i.
Proof.
  unfold is_int, INT_MIN, INT_MAX. intros Hi Hint. unfold clamp_index.
  rewrite to_size_t_small by lia.
  destruct (i >=? n) eqn:Hc; [lia |]. destruct (i <? 0) eqn:E; lia.
Qed.

Lemma clamp_index_above (i n : Z) :
  is_int i -> n <= i -> 0 < n -> clamp_index i n = n - 1.
Proof.
  unfold is_int, INT_MIN, INT_MAX. intros Hint Hi Hn. unfold clamp_index.
  rewrite to_size_t_small by lia.
  destruct (i >=? n) eqn:Hc; [| lia].
  rewrite to_size_t_small by lia.
  rewrite to_int_small by (unfold is_int, INT_MIN, INT_MAX; lia).
  destruct (n - 1 <? 0) eqn:E; lia.
Qed.

Lemma vector_size_nonneg {A} (v : list A) : 0 <= vector_size v.
Proof. unfold vector_size. lia. Qed.

Lemma vector_size_app {A} (u v : list A) :
  vector_size (u ++ v) = vector_size u + vector_size v.
Proof. unfold vector_size. rewrite length_app. lia. Qed.

Lemma vector_at_inside {A} (c : Container) (v : list A) (i : Z) :
  0 <= i < vector_size v -> i < 2 ^ 64 ->
  exists a, v !! Z.to_nat i = Some a /\ vector_at c v i = Ok a.
Proof.
  intros Hi Hv. unfold vector_at. rewrite to_size_t_small by lia.
  destruct (i <? vector_size v) eqn:Hlt; [| lia].
  destruct (v !! Z.to_nat i) as [a |] eqn:Ha; [eauto |].
  apply lookup_ge_None in Ha. unfold vector_size in Hi. lia.
Qed.

Lemma vector_at_Ok {A} (c : Container) (v : list A) (i : Z) (a : A) :
  vector_at c v i = Ok a -> v !! Z.to_nat (to_size_t i) = Some a.
Proof.
  unfold vector_at. destruct (to_size_t i <? vector_size v); [| discriminate].
  destruct (v !! Z.to_nat (to_size_t i)); [| discriminate]. congruence.
Qed.

Lemma vector_at_container {A} (c c' : Container) (v : list A) (i : Z) :
  vector_at c v i = OutOfRange c' -> c' = c.
Proof.
  unfold vector_at. destruct (to_size_t i <? vector_size v).
  - destruct (v !! Z.to_nat (to_size_t i)); [discriminate | congruence].
  - congruence.
Qed.

(** ** Rebuilding the active tracklets *)

Lemma activeAt_spec (frame : Z) (t : KittiTracklet) :
  activeAt frame t = bool_decide (first_frame t <= frame <= lastFrame t).
Proof.
  unfold activeAt.
  destruct (bool_decide (first_frame t <= frame <= lastFrame t)) eqn:E.
  - apply bool_decide_eq_true in E. apply andb_true_iff. lia.
  - apply bool_decide_eq_false in E. apply andb_false_iff. lia.
Qed.

Lemma getTracklet_lookup (ts : Tracklets) (i : nat) :
  getTracklet ts (Z.of_nat i) = ts !! i.
Proof.
  unfold getTracklet. destruct (0 <=? Z.of_nat i) eqn:E; [| exfalso; lia].
  by rewrite Nat2Z.id.
Qed.

(** The scan of [loadAvailableTracklets], started at position [i] with [k]
    rounds to go, appends the active tracklets among the next [k]. *)
Lemma load_loop (ts : Tracklets) (frame : Z) (k : nat) :
  forall (i : nat) (acc : list KittiTracklet),
    (i + k <= length ts)%nat ->
    for_loop k (Z.of_nat i)
      (fun tracklet_id available =>
         tracklet ← of_option (getTracklet ts tracklet_id);
         if activeAt frame tracklet
         then Ok (available ++ [tracklet])
         else Ok available) acc
    = Ok (acc ++ List.filter (activeAt frame) (take k (drop i ts))).
Proof.
  induction k as [| k IH]; intros i acc Hik; simpl.
  - by rewrite app_nil_r.
  - rewrite getTracklet_lookup.
    destruct (ts !! i) as [t |] eqn:Ht.
    2: { apply lookup_ge_None in Ht. lia. }
    rewrite (drop_S _ _ _ Ht). simpl.
    replace (Z.of_nat i + 1) with (Z.of_nat (S i)) by lia.
    destruct (activeAt frame t); simpl.
    + rewrite IH by lia. by rewrite <- app_assoc.
    + rewrite IH by lia. done.
Qed.

Lemma scanned_le (ts : Tracklets) : (scanned ts <= length ts)%nat.
Proof.
  unfold scanned, numberOfTracklets.
  pose proof (to_int_le (vector_size ts) (vector_size_nonneg ts)).
  unfold vector_size in *. lia.
Qed.

Lemma scanned_all (ts : Tracklets) :
  vector_size ts <= INT_MAX -> scanned ts = length ts.
Proof.
  intros Hts. unfold scanned, numberOfTracklets.
  rewrite to_int_small.
  - unfold vector_size. lia.
  - pose proof (vector_size_nonneg ts). unfold is_int, INT_MIN, INT_MAX in *. lia.
Qed.

Lemma loadAvailableTracklets_eq (s : State) :
  loadAvailableTracklets s =
  Ok (set_availableTracklets
        (availableTracklets s ++
         List.filter (activeAt (frame_index s))
           (take (scanned (getTracklets (dataset s)))
              (getTracklets (dataset s)))) s).
Proof.
  unfold loadAvailableTracklets.
  pose proof (scanned_le (getTracklets (dataset s))) as Hle.
  fold (scanned (getTracklets (dataset s))).
  rewrite (load_loop _ _ _ 0%nat) by lia. reflexivity.
Qed.

(** C1.  After the clear, [loadAvailableTracklets] leaves in
    [availableTracklets] exactly the tracklets [t] of the data set with
    [first_frame t <= frame_index <= lastFrame t], in the order in which the
    data set enumerates them; nothing else of the window changes.  The
    number of tracklets of the data set is the [int] that
    [numberOfTracklets] returns. *)
Theorem loadAvailableTracklets_exact (s : State) :
  vector_size (getTracklets (dataset s)) <= INT_MAX ->
  loadAvailableTracklets (clearAvailableTracklets s) =
  Ok (set_availableTracklets
        (List.filter
           (fun t => bool_decide
                       (first_frame t <= frame_index s <= lastFrame t))
           (getTracklets (dataset s))) s).
Proof.
  intros Hts. rewrite loadAvailableTracklets_eq. simpl.
  rewrite (scanned_all _ Hts), firstn_all.
  f_equal. unfold set_availableTracklets. simpl. f_equal.
  apply List.filter_ext. intros t. apply activeAt_spec.
Qed.

Lemma loadAvailableTracklets_exact_witness :
  vector_size (getTracklets (dataset Demo.window)) <= INT_MAX /\
  loadAvailableTracklets (clearAvailableTracklets Demo.window) =
  Ok (set_availableTracklets [Demo.car] Demo.window).
Proof.
  assert (H : vector_size (getTracklets (dataset Demo.window)) <= INT_MAX)
    by (vm_compute; discriminate).
  split; [exact H |].
  exact (loadAvailableTracklets_exact Demo.window H).
Defined.

(** ** What each member function touches *)

Lemma bind_Ok {A B} (m : result A) (f : A -> result B) (b : B) :
  (a ← m; f a) = Ok b -> exists a, m = Ok a /\ f a = Ok b.
Proof. destruct m; simpl; try discriminate. eauto. Qed.

Lemma set_pclVisualizer_same (s : State) :
  s = set_pclVisualizer (pclVisualizer s) s.
Proof. by destruct s. Qed.

Ltac scene_loop :=
  let s := fresh "s" in let s' := fresh "s'" in let H := fresh "H" in
  let scene := fresh "scene" in
  intros s s' H;
  apply bind_Ok in H as (scene & _ & H);
  exists scene; congruence.

Lemma showTrackletBoxes_scene : scene_only showTrackletBoxes.
Proof. unfold showTrackletBoxes. scene_loop. Qed.

Lemma hideTrackletBoxes_scene : scene_only hideTrackletBoxes.
Proof. unfold hideTrackletBoxes. scene_loop. Qed.

Lemma showTrackletPoints_scene env : scene_only (showTrackletPoints env).
Proof. unfold showTrackletPoints. scene_loop. Qed.

Lemma hideTrackletPoints_scene : scene_only hideTrackletPoints.
Proof. unfold hideTrackletPoints. scene_loop. Qed.

Lemma showTrackletInCenter_scene : scene_only showTrackletInCenter.
Proof.
  intros s s' H. unfold showTrackletInCenter in H.
  destruct (vector_size (availableTracklets s) =? 0).
  - exists (pclVisualizer s). injection H as <-. apply set_pclVisualizer_same.
  - apply bind_Ok in H as (t & _ & H).
    apply bind_Ok in H as (n & _ & H).
    apply bind_Ok in H as (p & _ & H).
    eexists. symmetry. injection H as H. exact H.
Qed.

Lemma when_scene_only (b : bool) (f : State -> result State) (s s' : State) :
  scene_only f -> (if b then f s else Ok s) = Ok s' ->
  exists scene, s' = set_pclVisualizer scene s.
Proof.
  intros Hf H. destruct b; [by apply Hf |].
  exists (pclVisualizer s). injection H as <-. apply set_pclVisualizer_same.
Qed.

Lemma updateDatasetLabel_ui env : ui_only (updateDatasetLabel env).
Proof.
  intros s s' H. unfold updateDatasetLabel in H.
  apply bind_Ok in H as (n & _ & H). eexists. symmetry. injection H as H. exact H.
Qed.

Lemma updateFrameLabel_ui : ui_only updateFrameLabel.
Proof.
  intros s s' H. unfold updateFrameLabel in H.
  apply bind_Ok in H as (n & _ & H). eexists. symmetry. injection H as H. exact H.
Qed.

Lemma updateTrackletLabel_ui : ui_only updateTrackletLabel.
Proof.
  intros s s' H. unfold updateTrackletLabel in H.
  destruct (vector_size (availableTracklets s) =? 0).
  - eexists. symmetry. injection H as H. exact H.
  - apply bind_Ok in H as (t & _ & H).
    apply bind_Ok in H as (n & _ & H).
    apply bind_Ok in H as (c & _ & H).
    eexists. symmetry. injection H as H. exact H.
Qed.

(** The loop of [loadTrackletPoints] pushes one cloud per round. *)
Lemma loadTrackletPoints_loop (s : State) (n : nat) :
  forall (i : Z) (acc acc' : list PointCloud),
    for_loop n i
      (fun i clouds =>
         tracklet ← vector_at in_availableTracklets (availableTracklets s) i;
         Ok (clouds ++
             [transformPointCloud
                (getTrackletPointCloud (dataset s) (pointCloud s) tracklet
                   (frame_index s))
                {| vx := 0; vy := 0; vz := 6 |}%R Quaternionf_Identity]))
      acc = Ok acc' ->
    length acc' = (length acc + n)%nat.
Proof.
  induction n as [| n IH]; intros i acc acc' H; simpl in H.
  - injection H as <-. lia.
  - apply bind_Ok in H as (acc1 & H1 & H).
    apply bind_Ok in H1 as (t & _ & H1). injection H1 as <-.
    apply IH in H. rewrite H, length_app. simpl. lia.
Qed.

Lemma loadTrackletPoints_length (s s' : State) :
  loadTrackletPoints s = Ok s' ->
  exists clouds,
    s' = set_croppedTrackletPointClouds clouds s /\
    length clouds =
    (length (croppedTrackletPointClouds s) + length (availableTracklets s))%nat.
Proof.
  unfold loadTrackletPoints. intros H.
  apply bind_Ok in H as (clouds & Hloop & H).
  apply loadTrackletPoints_loop in Hloop.
  exists clouds. split; congruence.
Qed.

(** ** Running a slot symbolically *)

Declare Reduction state_norm :=
  cbv beta iota zeta delta
    [dataset_index frame_index tracklet_index pclVisualizer pointCloudVisible
     trackletBoundingBoxesVisible trackletPointsVisible
     trackletInCenterVisible dataset pointCloud availableTracklets
     croppedTrackletPointClouds ui
     set_dataset_index set_frame_index set_tracklet_index set_pclVisualizer
     set_pointCloudVisible set_trackletBoundingBoxesVisible
     set_trackletPointsVisible set_trackletInCenterVisible set_dataset
     set_pointCloud set_availableTracklets set_croppedTrackletPointClouds
     set_ui loadPointCloud loadImageFile showPointCloud hidePointCloud
     clearAvailableTracklets clearTrackletPoints resetTrackletSlider].

Ltac norm_in H :=
  match type of H with
  | ?T => let T' := eval state_norm in T in change T' in H
  end.

Ltac norm_goal :=
  match goal with
  | |- ?T => let T' := eval state_norm in T in change T'
  end.

Lemma hideTrackletInCenter_eq (s : State) :
  hideTrackletInCenter s =
  set_pclVisualizer
    (if vector_size (availableTracklets s) =? 0 then pclVisualizer s
     else removeShape "centered_tracklet" (pclVisualizer s)) s.
Proof.
  unfold hideTrackletInCenter.
  destruct (vector_size (availableTracklets s) =? 0); [| done].
  apply set_pclVisualizer_same.
Qed.

Ltac scene_step lem H1 :=
  first [ apply (when_scene_only _ _ _ _ lem) in H1 as [? ->]
        | apply lem in H1 as [? ->] ].

(** What is learnt from one call that returned. *)
Ltac action_step H1 :=
  lazymatch type of H1 with
  | context [hideTrackletPoints] => scene_step hideTrackletPoints_scene H1
  | context [hideTrackletBoxes] => scene_step hideTrackletBoxes_scene H1
  | context [showTrackletBoxes] => scene_step showTrackletBoxes_scene H1
  | context [showTrackletPoints ?env] =>
      scene_step (showTrackletPoints_scene env) H1
  | context [showTrackletInCenter] => scene_step showTrackletInCenter_scene H1
  | context [loadAvailableTracklets] =>
      rewrite loadAvailableTracklets_eq in H1; injection H1 as <-
  | context [loadTrackletPoints] =>
      let Hlen := fresh "Hlen" in
      apply loadTrackletPoints_length in H1 as (? & -> & Hlen);
      norm_in Hlen
  | context [updateDatasetLabel ?env] =>
      apply (updateDatasetLabel_ui env) in H1 as [? ->]
  | context [updateFrameLabel] => apply updateFrameLabel_ui in H1 as [? ->]
  | context [updateTrackletLabel] =>
      apply updateTrackletLabel_ui in H1 as [? ->]
  | Ok _ = Ok _ => injection H1 as <-
  | context [vector_at] => idtac
  | context [int_value] => idtac
  end.

(** One statement of a slot whose run is recorded in [H]: a [let] is
    evaluated, a call is replaced by what it is known to return. *)
Ltac run_step H :=
  lazymatch type of H with
  | (let s := ?X in @?body s) = ?r =>
      let X' := eval state_norm in X in
      lazymatch X' with
      | (if ?b then _ else _) => destruct b
      | _ => let T := eval cbv beta in (body X') in change (T = r) in H
      end
  | mbind ?f ?M = Ok ?r =>
      let s1 := fresh "s" in let H1 := fresh "H" in let H2 := fresh "H" in
      pose proof (bind_Ok M f r H) as (s1 & H1 & H2);
      clear H; rename H2 into H;
      norm_in H1; action_step H1; cbv beta in H
  | _ = Ok _ =>
      let H1 := fresh "H" in
      rename H into H1; norm_in H1; action_step H1
  end.

Ltac run_slot H :=
  repeat run_step H;
  repeat match goal with Hx : _ |- _ => progress norm_in Hx end;
  norm_goal.

(** ** What the three requests leave behind *)

Lemma newFrameRequested_changed env (value : Z) (s s' : State) :
  frame_index s <> value ->
  newFrameRequested env value s = Ok s' ->
  dataset_index s' = dataset_index s /\
  dataset s' = dataset s /\
  frame_index s' =
    clamp_lower (clamp_upper value (getNumberOfFrames (dataset s))) /\
  tracklet_index s' =
    clamp_index (tracklet_index s) (vector_size (availableTracklets s')) /\
  same_flags s s' /\ rebuilt s'.
Proof.
  intros Hne H. cbv beta delta [newFrameRequested] in H.
  destruct (frame_index s =? value) eqn:E; [lia | clear E Hne].
  rewrite hideTrackletInCenter_eq in H.
  destruct s as [di fi ti sc f1 f2 f3 f4 ds pc av cr u].
  run_slot H; unfold same_flags, rebuilt; norm_goal.
  all: repeat split; try reflexivity; simpl in *; lia.
Qed.

Lemma newDatasetRequested_changed env (value : Z) (s s' : State) :
  dataset_index s <> value ->
  newDatasetRequested env value s = Ok s' ->
  dataset_index s' = clamp_index value (vector_size (availableDatasets env)) /\
  (exists number,
      vector_at in_availableDatasets (availableDatasets env)
        (dataset_index s') = Ok number /\
      dataset s' = new_KittiDataset env number) /\
  frame_index s' =
    clamp_upper (frame_index s) (getNumberOfFrames (dataset s')) /\
  tracklet_index s' =
    clamp_index (tracklet_index s) (vector_size (availableTracklets s')) /\
  same_flags s s' /\ rebuilt s'.
Proof.
  intros Hne H. cbv beta delta [newDatasetRequested] in H.
  destruct (dataset_index s =? value) eqn:E; [lia | clear E Hne].
  rewrite hideTrackletInCenter_eq in H.
  destruct s as [di fi ti sc f1 f2 f3 f4 ds pc av cr u].
  run_slot H; unfold same_flags, rebuilt; norm_goal.
  all: repeat split; try reflexivity; eauto; simpl in *; lia.
Qed.

Lemma newTrackletRequested_changed (value : Z) (s s' : State) :
  tracklet_index s <> value ->
  newTrackletRequested value s = Ok s' ->
  exists scene u,
    s' = set_ui u
           (set_pclVisualizer scene
              (set_tracklet_index
                 (clamp_index value (vector_size (availableTracklets s))) s)).
Proof.
  intros Hne H. cbv beta delta [newTrackletRequested] in H.
  destruct (tracklet_index s =? value) eqn:E; [lia | clear E Hne].
  rewrite hideTrackletInCenter_eq in H.
  destruct s as [di fi ti sc f1 f2 f3 f4 ds pc av cr u].
  run_slot H; eexists _, _; reflexivity.
Qed.

Lemma KittiVisualizerQt_started env (cl : CommandLine) (s : State) :
  KittiVisualizerQt env cl = Ok s ->
  (exists number,
      vector_at in_availableDatasets (availableDatasets env)
        (dataset_index s) = Ok number /\
      dataset s = new_KittiDataset env number) /\
  frame_index s = 0 /\ tracklet_index s = 0 /\
  pointCloudVisible s = true /\ trackletBoundingBoxesVisible s = true /\
  trackletPointsVisible s = true /\ trackletInCenterVisible s = true /\
  rebuilt s.
Proof.
  intros H. cbv beta delta [KittiVisualizerQt] in H.
  destruct (parseCommandLineOptions env cl) as [invalidOptions index].
  destruct (negb (invalidOptions =? 0)); [discriminate |].
  run_slot H; unfold rebuilt; norm_goal.
  repeat split; try reflexivity; eauto; simpl in *; lia.
Qed.

(** ** Consistency of the window *)

Lemma active_covers (frame : Z) (ts : list KittiTracklet) :
  Forall (fun t => first_frame t <= frame <= lastFrame t) ts ->
  covers frame ts.
Proof.
  unfold covers. intros H. eapply Forall_impl; [exact H |].
  intros t. unfold lastFrame. simpl. lia.
Qed.

Lemma filter_active (frame : Z) (ts : list KittiTracklet) :
  Forall (fun t => first_frame t <= frame <= lastFrame t)
    (List.filter (activeAt frame) ts).
Proof.
  apply List.Forall_forall. intros t Ht.
  apply List.filter_In in Ht as [_ Ht].
  rewrite activeAt_spec in Ht. by apply bool_decide_eq_true in Ht.
Qed.

Lemma filter_bounded (frame : Z) (ts : Tracklets) :
  vector_size (List.filter (activeAt frame) (take (scanned ts) ts)) <= INT_MAX.
Proof.
  unfold vector_size.
  pose proof (List.filter_length_le (activeAt frame) (take (scanned ts) ts)).
  pose proof (length_take_le ts (scanned ts)) as Htake.
  pose proof (to_int_is_int (numberOfTracklets ts)) as [_ Hint].
  rewrite length_take in *. unfold scanned, INT_MAX in *. lia.
Qed.

Lemma selected_is_int (index : Z) (ts : list KittiTracklet) :
  selected index ts -> vector_size ts <= INT_MAX -> is_int index.
Proof.
  unfold selected, is_int, INT_MIN, INT_MAX.
  destruct ts; intros Hsel Hts; lia.
Qed.

Lemma clamp_selected (index : Z) (ts : list KittiTracklet) :
  is_int index -> selected (clamp_index index (vector_size ts)) ts.
Proof.
  intros Hint. destruct ts as [| t ts]; simpl.
  - apply clamp_index_empty.
  - apply clamp_index_range; [done |]. unfold vector_size. simpl. lia.
Qed.

Lemma clamp_index_is_int (i n : Z) : is_int i -> is_int (clamp_index i n).
Proof.
  intros Hi. unfold clamp_index.
  pose proof (to_int_is_int (to_size_t (n - 1))) as Hc.
  unfold is_int, INT_MIN, INT_MAX in *.
  destruct (to_size_t i >=? n);
    [destruct (to_int (to_size_t (n - 1)) <? 0) | destruct (i <? 0)]; lia.
Qed.

Lemma consistent_ext env (s s' : State) :
  frame_index s' = frame_index s ->
  availableTracklets s' = availableTracklets s ->
  croppedTrackletPointClouds s' = croppedTrackletPointClouds s ->
  tracklet_index s' = tracklet_index s ->
  consistent env s -> consistent env s'.
Proof.
  intros Hf Ha Hc Ht [H1 H2 H3 H4 H5].
  constructor; rewrite ?Hf, ?Ha, ?Hc, ?Ht; assumption.
Qed.

Lemma consistent_rebuilt env (s : State) (index : Z) :
  rebuilt s ->
  tracklet_index s = clamp_index index (vector_size (availableTracklets s)) ->
  is_int index ->
  0 < vector_size (availableDatasets env) ->
  consistent env s.
Proof.
  intros (_ & Ha & Hc) Ht Hint Hd. constructor; [| done | | | done].
  - rewrite Ha. apply filter_active.
  - rewrite Ht. by apply clamp_selected.
  - rewrite Ha. apply filter_bounded.
Qed.

Lemma consistent_is_int env (s : State) :
  consistent env s -> is_int (tracklet_index s).
Proof. intros [_ _ Hs Hb _]. eapply selected_is_int; eauto. Qed.

(** *** The toggles *)

Lemma showFramePointCloudToggled_scene (value : bool) (s : State) :
  exists scene,
    showFramePointCloudToggled value s =
    set_pclVisualizer scene (set_pointCloudVisible value s).
Proof.
  unfold showFramePointCloudToggled. destruct s, value; eexists; reflexivity.
Qed.

Lemma showTrackletBoundingBoxesToggled_scene (value : bool) (s s' : State) :
  showTrackletBoundingBoxesToggled value s = Ok s' ->
  exists scene,
    s' = set_pclVisualizer scene (set_trackletBoundingBoxesVisible value s).
Proof.
  unfold showTrackletBoundingBoxesToggled. intros H.
  destruct value; simpl in H;
    [apply showTrackletBoxes_scene in H | apply hideTrackletBoxes_scene in H];
    exact H.
Qed.

Lemma showTrackletPointCloudsToggled_scene env (value : bool) (s s' : State) :
  showTrackletPointCloudsToggled env value s = Ok s' ->
  exists scene,
    s' = set_pclVisualizer scene (set_trackletPointsVisible value s).
Proof.
  unfold showTrackletPointCloudsToggled. intros H.
  destruct value; simpl in H;
    [apply showTrackletPoints_scene in H | apply hideTrackletPoints_scene in H];
    exact H.
Qed.

Lemma showTrackletInCenterToggled_scene (value : bool) (s s' : State) :
  showTrackletInCenterToggled value s = Ok s' ->
  exists scene,
    s' = set_pclVisualizer scene (set_trackletInCenterVisible value s).
Proof.
  unfold showTrackletInCenterToggled. intros H.
  destruct value; simpl in H.
  - by apply showTrackletInCenter_scene in H.
  - injection H as <-. rewrite hideTrackletInCenter_eq. eexists. reflexivity.
Qed.

(** *** Every event keeps the window consistent *)

Lemma newFrameRequested_consistent env (value : Z) (s s' : State) :
  consistent env s -> newFrameRequested env value s = Ok s' ->
  consistent env s'.
Proof.
  intros Hs H. destruct (decide (frame_index s = value)) as [<- | Hne].
  - unfold newFrameRequested in H. rewrite Z.eqb_refl in H. congruence.
  - apply newFrameRequested_changed in H as (_ & _ & _ & Ht & _ & Hr); [| done].
    eapply consistent_rebuilt; eauto using consistent_is_int.
    apply Hs.
Qed.

Lemma newDatasetRequested_consistent env (value : Z) (s s' : State) :
  consistent env s -> newDatasetRequested env value s = Ok s' ->
  consistent env s'.
Proof.
  intros Hs H. destruct (decide (dataset_index s = value)) as [<- | Hne].
  - unfold newDatasetRequested in H. rewrite Z.eqb_refl in H. congruence.
  - apply newDatasetRequested_changed in H as (_ & _ & _ & Ht & _ & Hr);
      [| done].
    eapply consistent_rebuilt; eauto using consistent_is_int.
    apply Hs.
Qed.

Lemma newTrackletRequested_consistent env (value : Z) (s s' : State) :
  consistent env s -> is_int value -> newTrackletRequested value s = Ok s' ->
  consistent env s'.
Proof.
  intros Hs Hint H. destruct (decide (tracklet_index s = value)) as [<- | Hne].
  - unfold newTrackletRequested in H. rewrite Z.eqb_refl in H. congruence.
  - apply newTrackletRequested_changed in H as (scene & u & ->); [| done].
    destruct Hs as [H1 H2 H3 H4 H5]. constructor; try assumption.
    simpl. by apply clamp_selected.
Qed.

Lemma dispatch_consistent env (ev : Event) (s s' : State) :
  consistent env s -> event_ok ev -> dispatch env ev s = Ok s' ->
  consistent env s'.
Proof.
  intros Hs Hev H. destruct ev as [v | v | v | b | b | b | b | |]; simpl in *.
  - eapply newDatasetRequested_consistent; eauto.
  - eapply newFrameRequested_consistent; eauto.
  - eapply newTrackletRequested_consistent; eauto.
  - injection H as <-.
    destruct (showFramePointCloudToggled_scene b s) as [scene ->].
    by apply (consistent_ext env s).
  - apply showTrackletBoundingBoxesToggled_scene in H as [scene ->].
    by apply (consistent_ext env s).
  - apply showTrackletPointCloudsToggled_scene in H as [scene ->].
    by apply (consistent_ext env s).
  - apply showTrackletInCenterToggled_scene in H as [scene ->].
    by apply (consistent_ext env s).
  - unfold loadPreviousFrame in H. apply bind_Ok in H as (v & _ & H).
    eapply newFrameRequested_consistent; eauto.
  - unfold loadNextFrame in H. apply bind_Ok in H as (v & _ & H).
    eapply newFrameRequested_consistent; eauto.
Qed.

Lemma vector_at_nonempty {A} (c : Container) (v : list A) (i : Z) (a : A) :
  vector_at c v i = Ok a -> 0 < vector_size v.
Proof.
  unfold vector_at. destruct (to_size_t i <? vector_size v) eqn:E;
    [| discriminate].
  intros _. unfold to_size_t in E.
  pose proof (Z.mod_pos_bound i (2 ^ 64)). lia.
Qed.

Lemma KittiVisualizerQt_consistent env (cl : CommandLine) (s : State) :
  KittiVisualizerQt env cl = Ok s -> consistent env s.
Proof.
  intros H.
  apply KittiVisualizerQt_started in H
    as ((number & Hat & _) & _ & Ht & _ & _ & _ & _ & Ha & Hb & Hc).
  apply vector_at_nonempty in Hat.
  constructor; [| done | | | done].
  - rewrite Hb. apply filter_active.
  - rewrite Ht. destruct (availableTracklets s); [done |].
    unfold selected, vector_size. simpl. lia.
  - rewrite Hb. apply filter_bounded.
Qed.

Lemma reachable_consistent env (s : State) :
  reachable env s -> consistent env s.
Proof.
  induction 1 as [cl s H | s ev s' _ IH Hev H].
  - by eapply KittiVisualizerQt_consistent.
  - by eapply dispatch_consistent.
Qed.

(** ** No [at] is out of range *)

Ltac bind_simpl H := cbv beta iota delta [mbind result_bind bind] in H.

Lemma bind_OutOfRange {A B} (m : result A) (f : A -> result B) (c : Container) :
  (a ← m; f a) = OutOfRange c ->
  m = OutOfRange c \/ exists a, m = Ok a /\ f a = OutOfRange c.
Proof.
  destruct m as [a | c' | |]; simpl; intros H; try discriminate.
  - right. exists a. split; [reflexivity | exact H].
  - left. by injection H as ->.
Qed.

Lemma int_value_safe (n : Z) (c : Container) : int_value n <> OutOfRange c.
Proof. unfold int_value. by destruct (_ && _). Qed.

Lemma int_value_Ok (n m : Z) : int_value n = Ok m -> m = n /\ is_int n.
Proof.
  unfold int_value, is_int.
  destruct ((INT_MIN <=? n) && (n <=? INT_MAX)) eqn:E; [| discriminate].
  intros [= <-]. lia.
Qed.

Lemma of_option_safe {A} (o : option A) (c : Container) :
  of_option o <> OutOfRange c.
Proof. by destruct o. Qed.

Lemma for_loop_safe {S} (body : Z -> S -> result S) (c : Container) (n : nat) :
  forall (i : Z) (s : S),
    (forall j s0, i <= j < i + Z.of_nat n -> body j s0 <> OutOfRange c) ->
    for_loop n i body s <> OutOfRange c.
Proof.
  induction n as [| n IH]; intros i s Hbody; simpl; [done |].
  intros H. apply bind_OutOfRange in H as [H | (s1 & _ & H)].
  - revert H. apply Hbody. lia.
  - revert H. apply IH. intros j s0 Hj. apply Hbody. lia.
Qed.

Lemma when_safe (b : bool) (f : State -> result State) (s : State)
    (c : Container) :
  f s <> OutOfRange c -> (if b then f s else Ok s) <> OutOfRange c.
Proof. by destruct b. Qed.

(** Inside the loops over [availableTracklets], position [j] is there. *)
Lemma available_at (ts : list KittiTracklet) (j : Z) :
  vector_size ts <= INT_MAX -> 0 <= j < 0 + Z.of_nat (length ts) ->
  exists t, ts !! Z.to_nat j = Some t /\
            vector_at in_availableTracklets ts j = Ok t.
Proof.
  intros Hb Hj. apply vector_at_inside.
  - unfold vector_size. lia.
  - unfold vector_size, INT_MAX in *. lia.
Qed.

Lemma pose_at (frame : Z) (ts : list KittiTracklet) (t : KittiTracklet)
    (i : nat) (n : Z) :
  covers frame ts -> ts !! i = Some t ->
  int_value (frame - first_frame t) = Ok n ->
  exists p, vector_at in_poses (poses t) n = Ok p.
Proof.
  intros Hc Ht Hn. apply int_value_Ok in Hn as [-> Hint].
  unfold covers in Hc. rewrite Forall_lookup in Hc. specialize (Hc _ _ Ht).
  destruct (vector_at_inside in_poses (poses t) (frame - first_frame t))
    as (p & _ & Hp); [done | | eauto].
  unfold is_int, INT_MAX in Hint. lia.
Qed.

Lemma showTrackletBoxes_safe (s : State) (c : Container) :
  covers (frame_index s) (availableTracklets s) ->
  vector_size (availableTracklets s) <= INT_MAX ->
  showTrackletBoxes s <> OutOfRange c.
Proof.
  intros Hc Hb H. unfold showTrackletBoxes in H.
  apply bind_OutOfRange in H as [H | (? & _ & [=])].
  revert H. apply for_loop_safe. intros j scene Hj H. cbv beta in H.
  destruct (available_at _ j Hb Hj) as (t & Ht & Hat).
  rewrite Hat in H. bind_simpl H.
  destruct (int_value (frame_index s - first_frame t)) as [n | | |] eqn:Hn;
    bind_simpl H; try discriminate.
  - destruct (pose_at _ _ _ _ _ Hc Ht Hn) as (p & Hp).
    rewrite Hp in H. bind_simpl H.
    by destruct (literal_plus "tracklet_box_" j).
  - by apply int_value_safe in Hn.
Qed.

Lemma hideTrackletBoxes_safe (s : State) (c : Container) :
  hideTrackletBoxes s <> OutOfRange c.
Proof.
  intros H. unfold hideTrackletBoxes in H.
  apply bind_OutOfRange in H as [H | (? & _ & [=])].
  revert H. apply for_loop_safe. intros j scene _ H. cbv beta in H.
  by destruct (literal_plus "tracklet_box_" j).
Qed.

Lemma hideTrackletPoints_safe (s : State) (c : Container) :
  hideTrackletPoints s <> OutOfRange c.
Proof.
  intros H. unfold hideTrackletPoints in H.
  apply bind_OutOfRange in H as [H | (? & _ & [=])].
  revert H. apply for_loop_safe. intros j scene _ H. cbv beta in H.
  by destruct (literal_plus "cropped_tracklet_" j).
Qed.

Lemma loadTrackletPoints_safe (s : State) (c : Container) :
  vector_size (availableTracklets s) <= INT_MAX ->
  loadTrackletPoints s <> OutOfRange c.
Proof.
  intros Hb H. unfold loadTrackletPoints in H.
  apply bind_OutOfRange in H as [H | (? & _ & [=])].
  revert H. apply for_loop_safe. intros j clouds Hj H. cbv beta in H.
  destruct (available_at _ j Hb Hj) as (t & Ht & Hat).
  rewrite Hat in H. discriminate.
Qed.

Lemma cloud_at (clouds : list PointCloud) (n : nat) (j : Z) :
  length clouds = n -> Z.of_nat n <= INT_MAX -> 0 <= j < 0 + Z.of_nat n ->
  exists cloud, vector_at in_croppedTrackletPointClouds clouds j = Ok cloud.
Proof.
  intros Hlen Hb Hj.
  destruct (vector_at_inside in_croppedTrackletPointClouds clouds j)
    as (cloud & _ & H); [| | eauto].
  - unfold vector_size. lia.
  - unfold INT_MAX in Hb. lia.
Qed.

Lemma showTrackletPoints_safe env (s : State) (c : Container) :
  length (croppedTrackletPointClouds s) = length (availableTracklets s) ->
  vector_size (availableTracklets s) <= INT_MAX ->
  showTrackletPoints env s <> OutOfRange c.
Proof.
  intros Hal Hb H. unfold showTrackletPoints in H.
  apply bind_OutOfRange in H as [H | (? & _ & [=])].
  revert H. apply for_loop_safe. intros j scene Hj H. cbv beta in H.
  destruct (available_at _ j Hb Hj) as (t & Ht & Hat).
  rewrite Hat in H. bind_simpl H.
  destruct (getTrackletColor env t) as [[r g] b].
  destruct (cloud_at _ _ j Hal Hb Hj) as (cloud & Hcloud).
  rewrite Hcloud in H. bind_simpl H.
  by destruct (literal_plus "cropped_tracklet_" j).
Qed.

Lemma selected_at (index : Z) (ts : list KittiTracklet) :
  selected index ts -> vector_size ts <= INT_MAX -> vector_size ts <> 0 ->
  0 <= index < 0 + Z.of_nat (length ts).
Proof.
  unfold selected, vector_size. destruct ts; simpl; intros; lia.
Qed.

Lemma showTrackletInCenter_safe (s : State) (c : Container) :
  covers (frame_index s) (availableTracklets s) ->
  selected (tracklet_index s) (availableTracklets s) ->
  vector_size (availableTracklets s) <= INT_MAX ->
  showTrackletInCenter s <> OutOfRange c.
Proof.
  intros Hc Hsel Hb H. unfold showTrackletInCenter in H.
  destruct (vector_size (availableTracklets s) =? 0) eqn:E; [discriminate |].
  assert (Hj := selected_at _ _ Hsel Hb ltac:(lia)).
  destruct (available_at _ _ Hb Hj) as (t & Ht & Hat).
  rewrite Hat in H. bind_simpl H.
  destruct (int_value (frame_index s - first_frame t)) as [n | | |] eqn:Hn;
    bind_simpl H; try discriminate.
  - destruct (pose_at _ _ _ _ _ Hc Ht Hn) as (p & Hp).
    rewrite Hp in H. discriminate.
  - by apply int_value_safe in Hn.
Qed.

Lemma updateDatasetLabel_safe env (s : State) (c : Container) :
  updateDatasetLabel env s <> OutOfRange c.
Proof.
  intros H. unfold updateDatasetLabel in H.
  apply bind_OutOfRange in H as [H | (? & _ & [=])].
  by apply int_value_safe in H.
Qed.

Lemma updateFrameLabel_safe (s : State) (c : Container) :
  updateFrameLabel s <> OutOfRange c.
Proof.
  intros H. unfold updateFrameLabel in H.
  apply bind_OutOfRange in H as [H | (? & _ & [=])].
  by apply int_value_safe in H.
Qed.

Lemma updateTrackletLabel_safe (s : State) (c : Container) :
  length (croppedTrackletPointClouds s) = length (availableTracklets s) ->
  selected (tracklet_index s) (availableTracklets s) ->
  vector_size (availableTracklets s) <= INT_MAX ->
  updateTrackletLabel s <> OutOfRange c.
Proof.
  intros Hal Hsel Hb H. unfold updateTrackletLabel in H.
  destruct (vector_size (availableTracklets s) =? 0) eqn:E; [discriminate |].
  assert (Hj := selected_at _ _ Hsel Hb ltac:(lia)).
  destruct (available_at _ _ Hb Hj) as (t & Ht & Hat).
  rewrite Hat in H. bind_simpl H.
  destruct (int_value (tracklet_index s + 1)) as [n | | |] eqn:Hn;
    bind_simpl H; try discriminate.
  - destruct (cloud_at _ _ _ Hal Hb Hj) as (cloud & Hcloud).
    rewrite Hcloud in H. discriminate.
  - by apply int_value_safe in Hn.
Qed.

Lemma dataset_at_safe (numbers : list Z) (index : Z) (c : Container) :
  0 < vector_size numbers -> is_int index ->
  vector_at in_availableDatasets numbers
    (clamp_index index (vector_size numbers)) <> OutOfRange c.
Proof.
  intros Hn Hint H.
  pose proof (clamp_index_range index _ Hint Hn) as Hr.
  pose proof (clamp_index_is_int index (vector_size numbers) Hint) as [_ Hi].
  destruct (vector_at_inside in_availableDatasets numbers
              (clamp_index index (vector_size numbers))) as (a & _ & Ha);
    [done | unfold INT_MAX in Hi; lia | congruence].
Qed.

(** *** The slots *)

Lemma selected_zero (ts : list KittiTracklet) : selected 0 ts.
Proof. destruct ts; [done |]. unfold selected, vector_size. simpl. lia. Qed.

(** Facts about the sequences of a state under construction. *)
Ltac facts :=
  norm_goal;
  solve
    [ assumption
    | apply filter_bounded
    | apply active_covers; first [apply filter_active | assumption]
    | apply clamp_selected; assumption
    | apply selected_zero
    | simpl in *; lia ].

(** The call recorded in [H1] cannot have thrown. *)
Ltac safe_step H1 :=
  lazymatch type of H1 with
  | vector_at in_availableDatasets _ (clamp_index _ _) = _ =>
      exfalso; revert H1; apply dataset_at_safe; assumption
  | vector_at _ _ _ = OutOfRange _ =>
      apply vector_at_container in H1; congruence
  | _ =>
      exfalso; revert H1; try apply when_safe;
      first
        [ apply int_value_safe
        | apply hideTrackletPoints_safe
        | apply hideTrackletBoxes_safe
        | apply updateDatasetLabel_safe
        | apply updateFrameLabel_safe
        | apply showTrackletBoxes_safe; facts
        | apply loadTrackletPoints_safe; facts
        | apply showTrackletPoints_safe; facts
        | apply showTrackletInCenter_safe; facts
        | apply updateTrackletLabel_safe; facts
        | rewrite loadAvailableTracklets_eq; discriminate
        | discriminate ]
  end.

(** As [run_step], for a run that ends in an exception. *)
Ltac run_fail_step H :=
  lazymatch type of H with
  | (let s := ?X in @?body s) = ?r =>
      let X' := eval state_norm in X in
      lazymatch X' with
      | (if ?b then _ else _) => destruct b
      | _ => let T := eval cbv beta in (body X') in change (T = r) in H
      end
  | mbind ?f ?M = OutOfRange ?c =>
      let s1 := fresh "s" in let H1 := fresh "H" in let H2 := fresh "H" in
      pose proof (bind_OutOfRange M f c H) as [H1 | (s1 & H1 & H2)];
      [ clear H; norm_in H1; safe_step H1
      | clear H; rename H2 into H;
        norm_in H1; action_step H1; cbv beta in H ]
  | _ = OutOfRange _ =>
      let H1 := fresh "H" in
      rename H into H1; norm_in H1; safe_step H1
  end.

Lemma newFrameRequested_safe env (value : Z) (s : State) (c : Container) :
  consistent env s -> newFrameRequested env value s <> OutOfRange c.
Proof.
  intros Hs H. pose proof (consistent_is_int _ _ Hs) as Hint.
  clear Hs. cbv beta delta [newFrameRequested] in H.
  destruct (frame_index s =? value); [discriminate |].
  rewrite hideTrackletInCenter_eq in H.
  destruct s as [di fi ti sc f1 f2 f3 f4 ds pc av cr u]. simpl in Hint.
  repeat run_fail_step H.
Qed.

Lemma newDatasetRequested_safe env (value : Z) (s : State) (c : Container) :
  consistent env s -> is_int value ->
  newDatasetRequested env value s <> OutOfRange c.
Proof.
  intros Hs Hv H. pose proof (consistent_is_int _ _ Hs) as Hint.
  pose proof (consistent_datasets _ _ Hs) as Hd.
  clear Hs. cbv beta delta [newDatasetRequested] in H.
  destruct (dataset_index s =? value); [discriminate |].
  rewrite hideTrackletInCenter_eq in H.
  destruct s as [di fi ti sc f1 f2 f3 f4 ds pc av cr u]. simpl in Hint.
  repeat run_fail_step H.
Qed.

Lemma newTrackletRequested_safe env (value : Z) (s : State) (c : Container) :
  consistent env s -> is_int value ->
  newTrackletRequested value s <> OutOfRange c.
Proof.
  intros [Hact Hal Hsel Hb _] Hv H. apply active_covers in Hact.
  cbv beta delta [newTrackletRequested] in H.
  destruct (tracklet_index s =? value); [discriminate |].
  rewrite hideTrackletInCenter_eq in H.
  destruct s as [di fi ti sc f1 f2 f3 f4 ds pc av cr u].
  simpl in Hact, Hal, Hsel, Hb.
  repeat run_fail_step H.
Qed.

Lemma dispatch_safe env (ev : Event) (s : State) (c : Container) :
  consistent env s -> event_ok ev -> dispatch env ev s <> OutOfRange c.
Proof.
  intros Hs Hev H. destruct ev as [v | v | v | b | b | b | b | |]; simpl in *.
  - by eapply newDatasetRequested_safe.
  - by eapply newFrameRequested_safe.
  - by eapply newTrackletRequested_safe.
  - discriminate.
  - destruct Hs as [Hact Hal Hsel Hb _]. apply active_covers in Hact.
    unfold showTrackletBoundingBoxesToggled in H.
    destruct b; simpl in H; revert H;
      [by apply showTrackletBoxes_safe | apply hideTrackletBoxes_safe].
  - destruct Hs as [Hact Hal Hsel Hb _].
    unfold showTrackletPointCloudsToggled in H.
    destruct b; simpl in H; revert H;
      [by apply showTrackletPoints_safe | apply hideTrackletPoints_safe].
  - destruct Hs as [Hact Hal Hsel Hb _]. apply active_covers in Hact.
    unfold showTrackletInCenterToggled in H.
    destruct b; simpl in H; revert H;
      [by apply showTrackletInCenter_safe | discriminate].
  - unfold loadPreviousFrame in H.
    apply bind_OutOfRange in H as [H | (v & _ & H)].
    + by apply int_value_safe in H.
    + by eapply newFrameRequested_safe.
  - unfold loadNextFrame in H.
    apply bind_OutOfRange in H as [H | (v & _ & H)].
    + by apply int_value_safe in H.
    + by eapply newFrameRequested_safe.
Qed.

(** At start-up only the look-up of the data set can throw. *)
Lemma KittiVisualizerQt_safe env (cl : CommandLine) (c : Container) :
  KittiVisualizerQt env cl = OutOfRange c -> c = in_availableDatasets.
Proof.
  intros H. cbv beta delta [KittiVisualizerQt] in H.
  destruct (parseCommandLineOptions env cl) as [invalidOptions index].
  destruct (negb (invalidOptions =? 0)); [discriminate |].
  repeat run_fail_step H.
Qed.

(** ** Sessions *)

Lemma run_reachable env (evs : list Event) :
  forall s s', reachable env s -> Forall event_ok evs ->
               run env evs s = Ok s' -> reachable env s'.
Proof.
  induction evs as [| ev evs IH]; intros s s' Hs Hevs H; simpl in H.
  - congruence.
  - apply Forall_cons in Hevs as [Hev Hevs].
    apply bind_Ok in H as (s1 & H1 & H).
    eapply IH; [| done | exact H]. by eapply reachable_event.
Qed.

Lemma session_reachable env (cl : CommandLine) (evs : list Event) (s : State) :
  Forall event_ok evs -> session env cl evs = Ok s -> reachable env s.
Proof.
  intros Hevs H. apply bind_Ok in H as (s0 & H0 & H).
  eapply run_reachable; [| done | exact H]. by eapply reachable_start.
Qed.

Lemma run_safe env (evs : list Event) (c : Container) :
  forall s, consistent env s -> Forall event_ok evs ->
            run env evs s <> OutOfRange c.
Proof.
  induction evs as [| ev evs IH]; intros s Hs Hevs H; simpl in H.
  - discriminate.
  - apply Forall_cons in Hevs as [Hev Hevs].
    apply bind_OutOfRange in H as [H | (s1 & H1 & H)].
    + by eapply dispatch_safe.
    + eapply IH; [| done | exact H]. by eapply dispatch_consistent.
Qed.

Lemma session_safe env (cl : CommandLine) (evs : list Event) (c : Container) :
  Forall event_ok evs -> session env cl evs = OutOfRange c ->
  c = in_availableDatasets.
Proof.
  intros Hevs H. apply bind_OutOfRange in H as [H | (s & Hs & H)].
  - by eapply KittiVisualizerQt_safe.
  - exfalso. eapply run_safe; [| done | exact H].
    by eapply KittiVisualizerQt_consistent.
Qed.

(** C3.  After every event of a session whose slot returns, and so after
    every dataset, frame and tracklet request, [tracklet_index] is a
    position of [availableTracklets]: [0 <= tracklet_index < size].  When
    [availableTracklets] is empty there is no such position; the window then
    holds [0], which is how it stores that nothing is selected. *)
Theorem tracklet_index_selected env (cl : CommandLine) (evs : list Event)
    (s : State) :
  Forall event_ok evs -> session env cl evs = Ok s ->
  match availableTracklets s with
  | [] => tracklet_index s = 0
  | _ :: _ => 0 <= tracklet_index s < vector_size (availableTracklets s)
  end.
Proof.
  intros Hevs H.
  apply (consistent_selected env s).
  apply reachable_consistent. by eapply session_reachable.
Qed.

Lemma tracklet_index_selected_witness :
  Forall event_ok demo_events /\
  session Demo.env Demo.cl demo_events = Ok demo_end /\
  0 <= tracklet_index demo_end < vector_size (availableTracklets demo_end).
Proof.
  assert (Hevs : Forall event_ok demo_events)
    by (repeat constructor; vm_compute; discriminate).
  assert (Hend : session Demo.env Demo.cl demo_events = Ok demo_end)
    by (vm_compute; reflexivity).
  split; [exact Hevs |]. split; [exact Hend |].
  exact (tracklet_index_selected Demo.env Demo.cl demo_events demo_end
           Hevs Hend).
Defined.

(** C4.  After every event of a session whose slot returns, and so after
    every dataset and frame transition, [croppedTrackletPointClouds] has the
    length of [availableTracklets]. *)
Theorem cropped_clouds_aligned env (cl : CommandLine) (evs : list Event)
    (s : State) :
  Forall event_ok evs -> session env cl evs = Ok s ->
  length (croppedTrackletPointClouds s) = length (availableTracklets s).
Proof.
  intros Hevs H.
  apply (consistent_aligned env s).
  apply reachable_consistent. by eapply session_reachable.
Qed.

Lemma cropped_clouds_aligned_witness :
  Forall event_ok demo_events /\
  session Demo.env Demo.cl demo_events = Ok demo_end /\
  length (croppedTrackletPointClouds demo_end) =
  length (availableTracklets demo_end).
Proof.
  assert (Hevs : Forall event_ok demo_events)
    by (repeat constructor; vm_compute; discriminate).
  assert (Hend : session Demo.env Demo.cl demo_events = Ok demo_end)
    by (vm_compute; reflexivity).
  split; [exact Hevs |]. split; [exact Hend |].
  exact (cropped_clouds_aligned Demo.env Demo.cl demo_events demo_end
           Hevs Hend).
Defined.

(** The two sequences are rebuilt together by a dataset or frame change
    from any state whatever, and no other slot resizes either. *)
Lemma transition_aligned env (value : Z) (s s' : State) :
  (dataset_index s <> value /\ newDatasetRequested env value s = Ok s') \/
  (frame_index s <> value /\ newFrameRequested env value s = Ok s') ->
  length (croppedTrackletPointClouds s') = length (availableTracklets s').
Proof.
  intros [[Hne H] | [Hne H]].
  - by apply newDatasetRequested_changed in H as (_ & _ & _ & _ & _ & _ & _ & ?).
  - by apply newFrameRequested_changed in H as (_ & _ & _ & _ & _ & _ & _ & ?).
Qed.

(** C9.  In no session does a look-up [poses.at(frame_index - first_frame)]
    throw: neither the constructor nor any slot ends in [std::out_of_range]
    on [poses].  Whenever the window is at rest, every tracklet [t] of
    [availableTracklets] is active at [frame_index], so that
    [0 <= frame_index - first_frame t < poses.size()]. *)
Theorem pose_lookup_in_range env (cl : CommandLine) (evs : list Event) :
  Forall event_ok evs ->
  session env cl evs <> OutOfRange in_poses /\
  forall s, session env cl evs = Ok s ->
            Forall (fun t => first_frame t <= frame_index s <= lastFrame t /\
                             0 <= frame_index s - first_frame t
                               < vector_size (poses t))
              (availableTracklets s).
Proof.
  intros Hevs. split.
  - intros H. by apply session_safe in H.
  - intros s H. apply session_reachable in H; [| done].
    apply reachable_consistent in H as [Hact _ _ _ _].
    eapply Forall_impl; [exact Hact |]. intros t Ht. simpl.
    unfold lastFrame in *. lia.
Qed.

Lemma pose_lookup_in_range_witness :
  Forall event_ok demo_events /\
  session Demo.env Demo.cl demo_events <> OutOfRange in_poses /\
  Forall (fun t => first_frame t <= frame_index demo_end <= lastFrame t /\
                   0 <= frame_index demo_end - first_frame t
                     < vector_size (poses t))
    (availableTracklets demo_end).
Proof.
  assert (Hevs : Forall event_ok demo_events)
    by (repeat constructor; vm_compute; discriminate).
  assert (Hend : session Demo.env Demo.cl demo_events = Ok demo_end)
    by (vm_compute; reflexivity).
  split; [exact Hevs |].
  destruct (pose_lookup_in_range Demo.env Demo.cl demo_events Hevs)
    as [Hsafe Hin].
  split; [exact Hsafe | exact (Hin demo_end Hend)].
Defined.

(** [updateTrackletLabel] without a tracklet writes the fixed text and looks
    nothing up. *)
Lemma updateTrackletLabel_empty (s : State) :
  availableTracklets s = [] ->
  updateTrackletLabel s =
  Ok (set_ui (set_label_tracklet ("Tracklet: 0 of 0" +:+ endl) (ui s)) s).
Proof. intros H. unfold updateTrackletLabel. by rewrite H. Qed.

(** [updateTrackletLabel] with a selected tracklet finds it and its cloud. *)
Lemma updateTrackletLabel_found env (s : State) :
  consistent env s -> availableTracklets s <> [] ->
  exists tracklet cloud s',
    vector_at in_availableTracklets (availableTracklets s)
      (tracklet_index s) = Ok tracklet /\
    vector_at in_croppedTrackletPointClouds (croppedTrackletPointClouds s)
      (tracklet_index s) = Ok cloud /\
    updateTrackletLabel s = Ok s'.
Proof.
  intros [_ Hal Hsel Hb _] Hne.
  assert (Hsize : vector_size (availableTracklets s) <> 0).
  { unfold vector_size. destruct (availableTracklets s); [done | simpl; lia]. }
  assert (Hj := selected_at _ _ Hsel Hb Hsize).
  destruct (available_at _ _ Hb Hj) as (t & _ & Ht).
  destruct (cloud_at _ _ _ Hal Hb Hj) as (cloud & Hcloud).
  exists t, cloud. unfold updateTrackletLabel.
  destruct (vector_size (availableTracklets s) =? 0) eqn:E; [lia |].
  rewrite Ht, Hcloud. simpl.
  assert (Hn : int_value (tracklet_index s + 1) = Ok (tracklet_index s + 1)).
  { unfold int_value, INT_MIN, INT_MAX, vector_size in *.
    destruct ((_ <=? _) && (_ <=? _)) eqn:En; [done | lia]. }
  rewrite Hn. simpl. eauto.
Qed.

(** C10.  In no session does [at(tracklet_index)] throw, on
    [availableTracklets] or on [croppedTrackletPointClouds], in
    [updateTrackletLabel] or anywhere else.  In the state at rest, either
    there is no active tracklet and [updateTrackletLabel] writes "0 of 0"
    without a look-up, or [tracklet_index] is a position of both sequences
    and its two look-ups return.  The same bounds hold in the state [s0] in
    which the label update that ends a request runs, because that update
    changes the widgets only. *)
Theorem updateTrackletLabel_in_bounds env (cl : CommandLine)
    (evs : list Event) :
  Forall event_ok evs ->
  session env cl evs <> OutOfRange in_availableTracklets /\
  session env cl evs <> OutOfRange in_croppedTrackletPointClouds /\
  (forall s, session env cl evs = Ok s ->
    match availableTracklets s with
    | [] =>
        updateTrackletLabel s =
        Ok (set_ui (set_label_tracklet ("Tracklet: 0 of 0" +:+ endl) (ui s)) s)
    | _ :: _ =>
        0 <= tracklet_index s < vector_size (availableTracklets s) /\
        tracklet_index s < vector_size (croppedTrackletPointClouds s) /\
        exists tracklet cloud s',
          vector_at in_availableTracklets (availableTracklets s)
            (tracklet_index s) = Ok tracklet /\
          vector_at in_croppedTrackletPointClouds
            (croppedTrackletPointClouds s) (tracklet_index s) = Ok cloud /\
          updateTrackletLabel s = Ok s'
    end) /\
  (forall s0 s, session env cl evs = Ok s -> updateTrackletLabel s0 = Ok s ->
    match availableTracklets s0 with
    | [] => True
    | _ :: _ =>
        0 <= tracklet_index s0 < vector_size (availableTracklets s0) /\
        tracklet_index s0 < vector_size (croppedTrackletPointClouds s0)
    end).
Proof.
  intros Hevs.
  assert (Hrest : forall s, session env cl evs = Ok s ->
            consistent env s).
  { intros s H. apply reachable_consistent. by eapply session_reachable. }
  split; [| split; [| split]].
  - intros H. by apply session_safe in H.
  - intros H. by apply session_safe in H.
  - intros s H. apply Hrest in H as Hs.
    destruct (availableTracklets s) as [| t ts] eqn:Hts.
    + by apply updateTrackletLabel_empty.
    + pose proof (consistent_selected _ _ Hs) as Hsel.
      pose proof (consistent_aligned _ _ Hs) as Hal.
      rewrite Hts in Hsel, Hal. simpl in Hsel.
      split; [exact Hsel |]. split.
      * unfold vector_size in *. rewrite Hal. exact (proj2 Hsel).
      * rewrite <- Hts. apply (updateTrackletLabel_found env); [done |].
        by rewrite Hts.
  - intros s0 s H Hlabel. apply Hrest in H as Hs.
    apply updateTrackletLabel_ui in Hlabel as [u ->].
    pose proof (consistent_selected _ _ Hs) as Hsel.
    pose proof (consistent_aligned _ _ Hs) as Hal.
    simpl in Hsel, Hal.
    destruct (availableTracklets s0) as [| t ts]; [done |].
    simpl in Hsel. split; [exact Hsel |].
    unfold vector_size in *. rewrite Hal. exact (proj2 Hsel).
Qed.

Lemma updateTrackletLabel_in_bounds_witness :
  Forall event_ok demo_events /\
  session Demo.env Demo.cl demo_events = Ok demo_end /\
  session Demo.env Demo.cl demo_events <> OutOfRange in_availableTracklets /\
  0 <= tracklet_index demo_end < vector_size (availableTracklets demo_end).
Proof.
  assert (Hevs : Forall event_ok demo_events)
    by (repeat constructor; vm_compute; discriminate).
  assert (Hend : session Demo.env Demo.cl demo_events = Ok demo_end)
    by (vm_compute; reflexivity).
  split; [exact Hevs |]. split; [exact Hend |].
  destruct (updateTrackletLabel_in_bounds Demo.env Demo.cl demo_events Hevs)
    as (Hsafe & _ & Hin & _).
  split; [exact Hsafe |].
  exact (proj1 (Hin demo_end Hend)).
Defined.

(** ** Requests for the current index *)

(** C7.  A request for the index the window already holds returns at once:
    the whole state, that is the three indices, the flags, the data set, the
    point cloud, both tracklet sequences, the scene and the widgets, is
    unchanged. *)
Theorem request_current_noop env (s : State) :
  newDatasetRequested env (dataset_index s) s = Ok s /\
  newFrameRequested env (frame_index s) s = Ok s /\
  newTrackletRequested (tracklet_index s) s = Ok s.
Proof.
  unfold newDatasetRequested, newFrameRequested, newTrackletRequested.
  by rewrite !Z.eqb_refl.
Qed.

(** ** The clamp of the data set index *)

(** What [newDatasetRequested] leaves in the two indices it clamps, for a
    request that differs from the current data set. *)
Lemma newDatasetRequested_indices env (value : Z) (s s' : State) :
  dataset_index s <> value -> is_int value ->
  0 < vector_size (availableDatasets env) <= INT_MAX ->
  newDatasetRequested env value s = Ok s' ->
  dataset_index s' =
    (if value <? 0 then vector_size (availableDatasets env) - 1
     else if value >=? vector_size (availableDatasets env)
          then vector_size (availableDatasets env) - 1
          else value) /\
  frame_index s' =
    (if frame_index s >=? getNumberOfFrames (dataset s')
     then getNumberOfFrames (dataset s') - 1
     else frame_index s).
Proof.
  intros Hne Hint Hn H.
  apply newDatasetRequested_changed in H as (Hd & _ & Hf & _); [| done].
  split; [| exact Hf]. rewrite Hd.
  destruct (value <? 0) eqn:Hneg.
  - apply clamp_index_negative; [done | lia | done].
  - destruct (value >=? vector_size (availableDatasets env)) eqn:Hge.
    + apply clamp_index_above; [done | lia | lia].
    + apply clamp_index_inside; [lia | done].
Qed.

(** C2, on the code.  With three data sets and the first one current, the
    request [-1] ends on the last data set, index [2], not on index [0]:
    [-1] converted to [size_t] is not below [availableDatasets.size()], so
    the first test of the clamp takes it for a request past the end, and the
    test [dataset_index < 0] comes too late. *)
Theorem newDatasetRequested_negative :
  KittiVisualizerQt Demo.env Demo.cl = Ok demo_start /\
  dataset_index demo_start = 0 /\
  vector_size (availableDatasets Demo.env) = 3 /\
  exists s', newDatasetRequested Demo.env (-1) demo_start = Ok s' /\
             dataset_index s' = 2.
Proof.
  split; [vm_compute; reflexivity |].
  split; [vm_compute; reflexivity |].
  split; [vm_compute; reflexivity |].
  destruct (newDatasetRequested Demo.env (-1) demo_start) as [s' | | |] eqn:H.
  - exists s'. split; [reflexivity |].
    apply newDatasetRequested_indices in H as [-> _].
    + vm_compute. reflexivity.
    + vm_compute. discriminate.
    + vm_compute. split; discriminate.
    + vm_compute. split; [reflexivity | discriminate].
  - vm_compute in H. discriminate.
  - vm_compute in H. discriminate.
  - vm_compute in H. discriminate.
Qed.

(** ** Scene identifiers *)

(** Within the literal, the identifier of a position is the rest of the
    literal from that position on. *)
Lemma string_drop_length (n : nat) (s : string) :
  String.length (string_drop n s) = (String.length s - n)%nat.
Proof.
  revert s. induction n as [| n IH]; intros [| a s]; simpl; done.
Qed.

Lemma literal_plus_distinct (lit : string) (i j : Z) (a b : string) :
  literal_plus lit i = Some a -> literal_plus lit j = Some b ->
  i <> j -> a <> b.
Proof.
  unfold literal_plus. intros Hi Hj Hne Hab.
  destruct ((0 <=? i) && (i <=? Z.of_nat (String.length lit))) eqn:Ei;
    [| discriminate].
  destruct ((0 <=? j) && (j <=? Z.of_nat (String.length lit))) eqn:Ej;
    [| discriminate].
  injection Hi as <-. injection Hj as <-.
  apply (f_equal String.length) in Hab.
  rewrite !string_drop_length in Hab. lia.
Qed.

(** C6, on the code.  ["tracklet_box_" + i] is the address [i] characters
    into the literal, not the literal followed by the number [i]: position
    [1] is named "racklet_box_", position [13] has the empty name, and from
    position [14] on (from [18] on for "cropped_tracklet_") the address is
    outside the literal and no string is defined; [showTrackletBoxes] on
    fifteen active tracklets has no defined result. *)
Theorem viewer_id_undefined :
  literal_plus "tracklet_box_" 1 = Some "racklet_box_" /\
  literal_plus "tracklet_box_" 13 = Some "" /\
  literal_plus "tracklet_box_" 14 = None /\
  literal_plus "cropped_tracklet_" 18 = None /\
  showTrackletBoxes
    (set_croppedTrackletPointClouds (replicate 15 [])
       (set_availableTracklets (replicate 15 Demo.car) Demo.window))
  = Undefined.
Proof. repeat split; vm_compute; reflexivity. Qed.

(** ** Layer toggles *)

(** A loop whose rounds add or remove the object named [lit + i] leaves
    every other name alone. *)
Lemma for_loop_other_ids (lit : string)
    (body : Z -> gmap string SceneObject -> result (gmap string SceneObject))
    (id : string) :
  (forall i scene scene',
      body i scene = Ok scene' ->
      exists id', literal_plus lit i = Some id' /\
                  forall k, k <> id' -> scene' !! k = scene !! k) ->
  forall (n : nat) (i : Z) (scene scene' : gmap string SceneObject),
    for_loop n i body scene = Ok scene' ->
    (forall j, i <= j < i + Z.of_nat n -> literal_plus lit j <> Some id) ->
    scene' !! id = scene !! id.
Proof.
  intros Hbody. induction n as [| n IH]; intros i scene scene' H Hid;
    simpl in H.
  - congruence.
  - apply bind_Ok in H as (scene1 & H1 & H).
    apply Hbody in H1 as (id' & Hid' & Hother).
    rewrite (IH _ _ _ H) by (intros j Hj; apply Hid; lia).
    apply Hother. intros ->. apply (Hid i); [lia | done].
Qed.

Ltac loop_round H :=
  repeat
    match type of H with
    | mbind _ ?M = Ok _ =>
        let a := fresh "a" in let Ha := fresh "Ha" in
        apply bind_Ok in H as (a & Ha & H)
    end.

Ltac id_found :=
  lazymatch goal with
  | Hl : of_option (literal_plus ?lit ?i) = Ok ?a |- _ =>
      let id' := fresh "id'" in
      destruct (literal_plus lit i) as [id' |]; [| discriminate Hl];
      injection Hl as <-; exists id'; split; [reflexivity |]
  end.

Lemma showTrackletBoxes_other_ids (s s' : State) (id : string) :
  showTrackletBoxes s = Ok s' -> ~ layer_id BoundingBoxes s id ->
  pclVisualizer s' !! id = pclVisualizer s !! id.
Proof.
  unfold showTrackletBoxes. intros H Hid.
  apply bind_Ok in H as (scene & Hloop & [= <-]). simpl.
  eapply (for_loop_other_ids "tracklet_box_"); [| exact Hloop |].
  - intros i sc sc' H. cbv beta in H. loop_round H. injection H as <-.
    id_found. intros k Hk. unfold addCube. by rewrite lookup_insert_ne.
  - intros j Hj Hlit. apply Hid. exists j. unfold vector_size. split; [lia | done].
Qed.

Lemma hideTrackletBoxes_other_ids (s s' : State) (id : string) :
  hideTrackletBoxes s = Ok s' -> ~ layer_id BoundingBoxes s id ->
  pclVisualizer s' !! id = pclVisualizer s !! id.
Proof.
  unfold hideTrackletBoxes. intros H Hid.
  apply bind_Ok in H as (scene & Hloop & [= <-]). simpl.
  eapply (for_loop_other_ids "tracklet_box_"); [| exact Hloop |].
  - intros i sc sc' H. cbv beta in H. loop_round H. injection H as <-.
    id_found. intros k Hk. unfold removeShape. by rewrite lookup_delete_ne.
  - intros j Hj Hlit. apply Hid. exists j. unfold vector_size. split; [lia | done].
Qed.

Lemma showTrackletPoints_other_ids env (s s' : State) (id : string) :
  showTrackletPoints env s = Ok s' -> ~ layer_id CroppedTracklets s id ->
  pclVisualizer s' !! id = pclVisualizer s !! id.
Proof.
  unfold showTrackletPoints. intros H Hid.
  apply bind_Ok in H as (scene & Hloop & [= <-]). simpl.
  eapply (for_loop_other_ids "cropped_tracklet_"); [| exact Hloop |].
  - intros i sc sc' H. cbv beta in H.
    apply bind_Ok in H as (t & _ & H).
    destruct (getTrackletColor env t) as [[r g] b].
    loop_round H. injection H as <-.
    id_found. intros k Hk. unfold addPointCloud. by rewrite lookup_insert_ne.
  - intros j Hj Hlit. apply Hid. exists j. unfold vector_size. split; [lia | done].
Qed.

Lemma hideTrackletPoints_other_ids (s s' : State) (id : string) :
  hideTrackletPoints s = Ok s' -> ~ layer_id CroppedTracklets s id ->
  pclVisualizer s' !! id = pclVisualizer s !! id.
Proof.
  unfold hideTrackletPoints. intros H Hid.
  apply bind_Ok in H as (scene & Hloop & [= <-]). simpl.
  eapply (for_loop_other_ids "cropped_tracklet_"); [| exact Hloop |].
  - intros i sc sc' H. cbv beta in H. loop_round H. injection H as <-.
    id_found. intros k Hk. unfold removeShape. by rewrite lookup_delete_ne.
  - intros j Hj Hlit. apply Hid. exists j. unfold vector_size. split; [lia | done].
Qed.

Lemma showTrackletInCenter_other_ids (s s' : State) (id : string) :
  showTrackletInCenter s = Ok s' -> id <> "centered_tracklet" ->
  pclVisualizer s' !! id = pclVisualizer s !! id.
Proof.
  unfold showTrackletInCenter. intros H Hid.
  destruct (vector_size (availableTracklets s) =? 0); [congruence |].
  loop_round H. injection H as <-. simpl.
  unfold addPointCloud. by rewrite lookup_insert_ne.
Qed.

Lemma hideTrackletInCenter_other_ids (s : State) (id : string) :
  id <> "centered_tracklet" ->
  pclVisualizer (hideTrackletInCenter s) !! id = pclVisualizer s !! id.
Proof.
  intros Hid. unfold hideTrackletInCenter.
  destruct (vector_size (availableTracklets s) =? 0); [done |].
  simpl. unfold removeShape. by rewrite lookup_delete_ne.
Qed.

Lemma checkBox_toggled env (ly : Layer) (value : bool) (s s' : State) :
  dispatch env (checkBox ly value) s = Ok s' ->
  visible ly s' = value /\
  (forall ly', ly' <> ly -> visible ly' s' = visible ly' s) /\
  same_navigation s s' /\
  (forall id, ~ layer_id ly s id ->
              pclVisualizer s' !! id = pclVisualizer s !! id).
Proof.
  intros H. destruct ly; simpl in H.
  - injection H as <-. unfold showFramePointCloudToggled, same_navigation.
    destruct s, value; simpl; (split; [done |]); (split; [by intros [] |]);
      (split; [done |]); intros id Hid;
      unfold addPointCloud, removePointCloud;
      by rewrite ?lookup_insert_ne, ?lookup_delete_ne.
  - pose proof H as Hscene.
    apply showTrackletBoundingBoxesToggled_scene in Hscene as [scene ->].
    split; [done |]. split; [by intros [] |]. split; [by destruct s |].
    intros id Hid. unfold showTrackletBoundingBoxesToggled in H.
    destruct value; simpl in H.
    + by apply (showTrackletBoxes_other_ids _ _ id) in H.
    + by apply (hideTrackletBoxes_other_ids _ _ id) in H.
  - pose proof H as Hscene.
    apply showTrackletPointCloudsToggled_scene in Hscene as [scene ->].
    split; [done |]. split; [by intros [] |]. split; [by destruct s |].
    intros id Hid. unfold showTrackletPointCloudsToggled in H.
    destruct value; simpl in H.
    + by apply (showTrackletPoints_other_ids _ _ _ id) in H.
    + by apply (hideTrackletPoints_other_ids _ _ id) in H.
  - pose proof H as Hscene.
    apply showTrackletInCenterToggled_scene in Hscene as [scene ->].
    split; [done |]. split; [by intros [] |]. split; [by destruct s |].
    intros id Hid. unfold showTrackletInCenterToggled in H.
    destruct value; simpl in H.
    + by apply (showTrackletInCenter_other_ids _ _ id) in H.
    + injection H as H. rewrite <- H.
      rewrite hideTrackletInCenter_other_ids by exact Hid. by destruct s.
Qed.

Lemma newFrameRequested_flags env (value : Z) (s s' : State) :
  newFrameRequested env value s = Ok s' -> same_flags s s'.
Proof.
  intros H. destruct (decide (frame_index s = value)) as [<- | Hne].
  - unfold newFrameRequested in H. rewrite Z.eqb_refl in H.
    injection H as <-. by repeat split.
  - by apply newFrameRequested_changed in H as (_ & _ & _ & _ & ? & _).
Qed.

Lemma frame_requests_flags env (values : list Z) :
  forall s s',
    run env (map slider_frame_valueChanged values) s = Ok s' ->
    same_flags s s'.
Proof.
  induction values as [| value values IH]; intros s s' H; simpl in H.
  - injection H as <-. by repeat split.
  - apply bind_Ok in H as (s1 & H1 & H).
    apply newFrameRequested_flags in H1 as (H1 & H2 & H3 & H4).
    apply IH in H as (H1' & H2' & H3' & H4').
    repeat split; congruence.
Qed.

(** C8.  A check box event for layer [ly] that returns sets the flag of
    [ly] to the value of the event and leaves the other three flags, the
    three indices, the data set, the point cloud, both tracklet sequences
    and the widgets as they were; in the scene only the identifiers of
    [ly] may differ.  Any sequence of frame requests after it leaves all
    four flags as the toggle left them. *)
Theorem toggle_changes_one_layer env (ly : Layer) (value : bool)
    (values : list Z) (s s1 s2 : State) :
  dispatch env (checkBox ly value) s = Ok s1 ->
  run env (map slider_frame_valueChanged values) s1 = Ok s2 ->
  (visible ly s1 = value /\
   (forall ly', ly' <> ly -> visible ly' s1 = visible ly' s) /\
   dataset_index s1 = dataset_index s /\
   frame_index s1 = frame_index s /\
   tracklet_index s1 = tracklet_index s /\
   dataset s1 = dataset s /\
   pointCloud s1 = pointCloud s /\
   availableTracklets s1 = availableTracklets s /\
   croppedTrackletPointClouds s1 = croppedTrackletPointClouds s /\
   ui s1 = ui s /\
   (forall id, ~ layer_id ly s id ->
               pclVisualizer s1 !! id = pclVisualizer s !! id)) /\
  (forall ly', visible ly' s2 = visible ly' s1).
Proof.
  intros Htoggle Hframes.
  apply checkBox_toggled in Htoggle as (Hv & Hothers & Hnav & Hscene).
  split.
  - unfold same_navigation in Hnav. intuition.
  - apply frame_requests_flags in Hframes as (H1 & H2 & H3 & H4).
    by intros [].
Qed.

Lemma toggle_changes_one_layer_witness :
  dispatch Demo.env (checkBox CroppedTracklets false) demo_start
    = Ok demo_toggled /\
  run Demo.env (map slider_frame_valueChanged [5; 6; 10]) demo_toggled
    = Ok demo_scrubbed /\
  visible CroppedTracklets demo_toggled = false /\
  visible BoundingBoxes demo_scrubbed = true /\
  visible CroppedTracklets demo_scrubbed = false.
Proof.
  assert (H1 : dispatch Demo.env (checkBox CroppedTracklets false) demo_start
               = Ok demo_toggled) by (vm_compute; reflexivity).
  assert (H2 : run Demo.env (map slider_frame_valueChanged [5; 6; 10])
                 demo_toggled = Ok demo_scrubbed) by (vm_compute; reflexivity).
  split; [exact H1 |]. split; [exact H2 |].
  destruct (toggle_changes_one_layer Demo.env CroppedTracklets false
              [5; 6; 10] demo_start demo_toggled demo_scrubbed H1 H2)
    as ((Hv & Hothers & _) & Hkept).
  split; [exact Hv |]. split.
  - rewrite (Hkept BoundingBoxes).
    rewrite (Hothers BoundingBoxes) by discriminate.
    vm_compute. reflexivity.
  - rewrite (Hkept CroppedTracklets). exact Hv.
Defined.

(** * Further properties *)

(** ** The clamps of the frame and of the selection *)

Lemma clamp_frame (value n : Z) :
  clamp_lower (clamp_upper value n) = Z.max 0 (Z.min value (n - 1)).
Proof.
  unfold clamp_lower, clamp_upper.
  destruct (value >=? n) eqn:E1; [destruct (n - 1 <? 0) eqn:E2 |
                                   destruct (value <? 0) eqn:E2]; lia.
Qed.

(** X1.  A frame request that differs from the current frame keeps the data
    set and leaves [frame_index = max 0 (min value (frames - 1))]: the value
    itself inside the range, the last frame above it and frame [0] below it.
    Unlike the data set clamp, the test against the frame count compares
    two [int]s, so a negative request does reach the test [< 0]. *)
Theorem newFrameRequested_clamps env (value : Z) (s s' : State) :
  frame_index s <> value ->
  newFrameRequested env value s = Ok s' ->
  dataset s' = dataset s /\
  dataset_index s' = dataset_index s /\
  frame_index s' = Z.max 0 (Z.min value (getNumberOfFrames (dataset s) - 1)).
Proof.
  intros Hne H.
  apply newFrameRequested_changed in H as (Hi & Hd & Hf & _); [| done].
  by rewrite Hf, clamp_frame.
Qed.

Lemma newFrameRequested_clamps_witness :
  frame_index demo_start <> 50 /\
  newFrameRequested Demo.env 50 demo_start = Ok demo_far /\
  frame_index demo_far = 11.
Proof.
  assert (Hne : frame_index demo_start <> 50) by (vm_compute; discriminate).
  assert (H : newFrameRequested Demo.env 50 demo_start = Ok demo_far)
    by (vm_compute; reflexivity).
  split; [exact Hne |]. split; [exact H |].
  destruct (newFrameRequested_clamps Demo.env 50 demo_start demo_far Hne H)
    as (_ & _ & Hf).
  rewrite Hf. vm_compute. reflexivity.
Defined.

Lemma clamp_index_cases (i n : Z) :
  is_int i -> 0 <= n <= INT_MAX ->
  clamp_index i n =
    (if n =? 0 then 0
     else if (0 <=? i) && (i <? n) then i else n - 1).
Proof.
  intros Hi Hn. destruct (n =? 0) eqn:E0.
  - assert (n = 0) as -> by lia. apply clamp_index_empty.
  - destruct ((0 <=? i) && (i <? n)) eqn:E1.
    + apply clamp_index_inside; [lia | done].
    + destruct (i <? 0) eqn:E2.
      * apply clamp_index_negative; [done | lia | lia].
      * apply clamp_index_above; [done | lia | lia].
Qed.

(** The label update changes the tracklet label and nothing else. *)
Lemma updateTrackletLabel_text (s s' : State) :
  updateTrackletLabel s = Ok s' ->
  exists text, s' = set_ui (set_label_tracklet text (ui s)) s.
Proof.
  unfold updateTrackletLabel. intros H.
  destruct (vector_size (availableTracklets s) =? 0).
  - eexists. symmetry. injection H as H. exact H.
  - apply bind_Ok in H as (t & _ & H).
    apply bind_Ok in H as (n & _ & H).
    apply bind_Ok in H as (c & _ & H).
    eexists. symmetry. injection H as H. exact H.
Qed.

(** X3.  A tracklet request that differs from the current selection leaves
    in [tracklet_index] the value itself when it is a position of
    [availableTracklets], [0] when there is no active tracklet, and the last
    position otherwise, for a request past the end and also for a negative
    one (the comparison with [size()] is unsigned).  Besides that it changes
    only the scene object "centered_tracklet" and the tracklet label: the
    other indices, the flags, the data set, the point cloud, both tracklet
    sequences, every other scene object and every other widget stay. *)
Theorem newTrackletRequested_selects (value : Z) (s s' : State) :
  tracklet_index s <> value -> is_int value ->
  vector_size (availableTracklets s) <= INT_MAX ->
  newTrackletRequested value s = Ok s' ->
  tracklet_index s' =
    (if vector_size (availableTracklets s) =? 0 then 0
     else if (0 <=? value) && (value <? vector_size (availableTracklets s))
          then value
          else vector_size (availableTracklets s) - 1) /\
  dataset_index s' = dataset_index s /\
  frame_index s' = frame_index s /\
  dataset s' = dataset s /\
  pointCloud s' = pointCloud s /\
  availableTracklets s' = availableTracklets s /\
  croppedTrackletPointClouds s' = croppedTrackletPointClouds s /\
  same_flags s s' /\
  (forall id, id <> "centered_tracklet" ->
              pclVisualizer s' !! id = pclVisualizer s !! id) /\
  label_dataSet (ui s') = label_dataSet (ui s) /\
  label_frame (ui s') = label_frame (ui s) /\
  imageWidget (ui s') = imageWidget (ui s) /\
  slider_dataSet (ui s') = slider_dataSet (ui s) /\
  slider_frame (ui s') = slider_frame (ui s) /\
  slider_tracklet (ui s') = slider_tracklet (ui s).
Proof.
  intros Hne Hint Hb H. unfold newTrackletRequested in H.
  destruct (tracklet_index s =? value) eqn:E; [lia | clear E].
  cbv zeta in H.
  set (s1 := if trackletInCenterVisible s then hideTrackletInCenter s else s)
    in H.
  assert (H1 : exists scene, s1 = set_pclVisualizer scene s /\
             forall id, id <> "centered_tracklet" ->
                        scene !! id = pclVisualizer s !! id).
  { unfold s1. destruct (trackletInCenterVisible s).
    - rewrite hideTrackletInCenter_eq. eexists. split; [reflexivity |].
      intros id Hid. destruct (vector_size (availableTracklets s) =? 0);
        [done |]. unfold removeShape. by rewrite lookup_delete_ne.
    - exists (pclVisualizer s). split; [apply set_pclVisualizer_same | done]. }
  destruct H1 as (scene1 & Hs1 & Hscene1). clearbody s1. subst s1.
  apply bind_Ok in H as (s3 & H3 & H).
  apply updateTrackletLabel_text in H as (text & ->).
  set (s2 := set_tracklet_index _ _) in H3.
  assert (Hs3 : exists scene, s3 = set_pclVisualizer scene s2 /\
             forall id, id <> "centered_tracklet" ->
                        scene !! id = pclVisualizer s2 !! id).
  { destruct (trackletInCenterVisible s2).
    - pose proof H3 as [scene ->]%showTrackletInCenter_scene.
      exists scene. split; [done |]. intros id Hid.
      by apply (showTrackletInCenter_other_ids _ _ id) in H3.
    - injection H3 as <-. exists (pclVisualizer s2).
      split; [apply set_pclVisualizer_same | done]. }
  destruct Hs3 as (scene3 & -> & Hscene3). subst s2.
  assert (Hn : 0 <= vector_size (availableTracklets s) <= INT_MAX)
    by (split; [apply vector_size_nonneg | done]).
  destruct s as [di fi ti sc f1 f2 f3 f4 ds pc av cr u]. simpl in *.
  split; [by apply clamp_index_cases |].
  repeat (split; [reflexivity |]).
  split; [by repeat split |].
  split; [| by repeat split].
  intros id Hid. rewrite Hscene3, Hscene1; done.
Qed.

Lemma newTrackletRequested_selects_witness :
  tracklet_index demo_pair <> 2 /\ is_int 2 /\
  vector_size (availableTracklets demo_pair) <= INT_MAX /\
  newTrackletRequested 2 demo_pair = Ok demo_picked /\
  tracklet_index demo_picked = 1.
Proof.
  assert (Hne : tracklet_index demo_pair <> 2) by (vm_compute; discriminate).
  assert (Hint : is_int 2) by (vm_compute; split; discriminate).
  assert (Hb : vector_size (availableTracklets demo_pair) <= INT_MAX)
    by (vm_compute; discriminate).
  assert (H : newTrackletRequested 2 demo_pair = Ok demo_picked)
    by (vm_compute; reflexivity).
  repeat (split; [assumption |]).
  destruct (newTrackletRequested_selects 2 demo_pair demo_picked Hne Hint Hb H)
    as (Ht & _).
  rewrite Ht. vm_compute. reflexivity.
Defined.



(** ** The arrow keys *)

(** X5.  On a window whose frame index is in range, a key-down event with
    key code [0] and symbol "Left" moves one frame back and stops at frame
    [0]; with symbol "Right" it moves one frame on and stops at the last
    frame; every other keyboard event leaves the window as it is.  The data
    set is never changed by the keyboard. *)
Theorem keyboardEventOccurred_steps env (event : KeyboardEvent)
    (s s' : State) :
  0 <= frame_index s < getNumberOfFrames (dataset s) ->
  keyboardEventOccurred env event s = Ok s' ->
  dataset s' = dataset s /\ dataset_index s' = dataset_index s /\
  (if (getKeyCode event =? 0) && keyDown event then
     if String.eqb (getKeySym event) "Left"
     then frame_index s' = Z.max 0 (frame_index s - 1)
     else if String.eqb (getKeySym event) "Right"
          then frame_index s' =
               Z.min (frame_index s + 1) (getNumberOfFrames (dataset s) - 1)
          else s' = s
   else s' = s).
Proof.
  intros Hf H. unfold keyboardEventOccurred in H.
  destruct ((getKeyCode event =? 0) && keyDown event);
    [| by injection H as <-].
  destruct (String.eqb (getKeySym event) "Left").
  - unfold loadPreviousFrame in H. apply bind_Ok in H as (v & Hv & H).
    apply int_value_Ok in Hv as [-> _].
    apply newFrameRequested_changed in H as (Hi & Hd & Hfr & _); [| lia].
    rewrite clamp_frame in Hfr. repeat split; [done | done | lia].
  - destruct (String.eqb (getKeySym event) "Right");
      [| by injection H as <-].
    unfold loadNextFrame in H. apply bind_Ok in H as (v & Hv & H).
    apply int_value_Ok in Hv as [-> _].
    apply newFrameRequested_changed in H as (Hi & Hd & Hfr & _); [| lia].
    rewrite clamp_frame in Hfr. repeat split; [done | done | lia].
Qed.

Lemma keyboardEventOccurred_steps_witness :
  0 <= frame_index demo_far < getNumberOfFrames (dataset demo_far) /\
  keyboardEventOccurred Demo.env
    {| getKeyCode := 0; keyDown := true; getKeySym := "Right" |} demo_far
    = Ok demo_right /\
  frame_index demo_far = 11 /\ frame_index demo_right = 11.
Proof.
  assert (Hf : 0 <= frame_index demo_far < getNumberOfFrames (dataset demo_far))
    by (vm_compute; split; [discriminate | reflexivity]).
  assert (H : keyboardEventOccurred Demo.env
                {| getKeyCode := 0; keyDown := true; getKeySym := "Right" |}
                demo_far = Ok demo_right) by (vm_compute; reflexivity).
  split; [exact Hf |]. split; [exact H |].
  split; [vm_compute; reflexivity |].
  destruct (keyboardEventOccurred_steps Demo.env _ demo_far demo_right Hf H)
    as (_ & _ & Hstep).
  change (frame_index demo_right =
          Z.min (frame_index demo_far + 1)
            (getNumberOfFrames (dataset demo_far) - 1)) in Hstep.
  rewrite Hstep. vm_compute. reflexivity.
Defined.

(** ** What a session keeps *)

Lemma reachable_invariant env (P : State -> Prop) :
  (forall cl s, KittiVisualizerQt env cl = Ok s -> P s) ->
  (forall ev s s', consistent env s -> P s -> event_ok ev ->
                   dispatch env ev s = Ok s' -> P s') ->
  forall s, reachable env s -> P s.
Proof.
  intros Hstart Hstep s Hs.
  induction Hs as [cl s H | s ev s' Hs IH Hev H].
  - by eapply Hstart.
  - eapply Hstep; eauto. by apply reachable_consistent.
Qed.

Lemma newDatasetRequested_same env (s s' : State) :
  newDatasetRequested env (dataset_index s) s = Ok s' -> s' = s.
Proof.
  unfold newDatasetRequested. rewrite Z.eqb_refl. congruence.
Qed.

Lemma newFrameRequested_same env (s s' : State) :
  newFrameRequested env (frame_index s) s = Ok s' -> s' = s.
Proof.
  unfold newFrameRequested. rewrite Z.eqb_refl. congruence.
Qed.

Lemma newTrackletRequested_same (s s' : State) :
  newTrackletRequested (tracklet_index s) s = Ok s' -> s' = s.
Proof.
  unfold newTrackletRequested. rewrite Z.eqb_refl. congruence.
Qed.

(** The tracklet request and the toggles keep the loaded data. *)
Lemma dispatch_keeps env (ev : Event) (s s' : State) :
  dispatch env ev s = Ok s' ->
  (exists value, newDatasetRequested env value s = Ok s' /\
                 dataset_index s <> value) \/
  (exists value, newFrameRequested env value s = Ok s' /\
                 frame_index s <> value) \/
  (dataset_index s' = dataset_index s /\ frame_index s' = frame_index s /\
   dataset s' = dataset s /\ pointCloud s' = pointCloud s /\
   availableTracklets s' = availableTracklets s /\
   croppedTrackletPointClouds s' = croppedTrackletPointClouds s).
Proof.
  intros H.
  assert (Hframe : forall v, newFrameRequested env v s = Ok s' ->
    (exists value, newFrameRequested env value s = Ok s' /\
                   frame_index s <> value) \/
    (dataset_index s' = dataset_index s /\ frame_index s' = frame_index s /\
     dataset s' = dataset s /\ pointCloud s' = pointCloud s /\
     availableTracklets s' = availableTracklets s /\
     croppedTrackletPointClouds s' = croppedTrackletPointClouds s)).
  { intros v Hv. destruct (decide (frame_index s = v)) as [<- | Hne].
    - apply newFrameRequested_same in Hv as ->. by right.
    - left. eauto. }
  destruct ev as [v | v | v | b | b | b | b | |]; simpl in H.
  - destruct (decide (dataset_index s = v)) as [<- | Hne].
    + apply newDatasetRequested_same in H as ->. by do 2 right.
    + left. eauto.
  - right. by apply (Hframe v).
  - do 2 right. destruct (decide (tracklet_index s = v)) as [<- | Hne].
    + by apply newTrackletRequested_same in H as ->.
    + apply newTrackletRequested_changed in H as (scene & u & ->); [| done].
      by destruct s.
  - do 2 right. injection H as <-.
    destruct (showFramePointCloudToggled_scene b s) as [scene ->].
    by destruct s.
  - do 2 right.
    apply showTrackletBoundingBoxesToggled_scene in H as [scene ->].
    by destruct s.
  - do 2 right.
    apply showTrackletPointCloudsToggled_scene in H as [scene ->].
    by destruct s.
  - do 2 right. apply showTrackletInCenterToggled_scene in H as [scene ->].
    by destruct s.
  - right. unfold loadPreviousFrame in H.
    apply bind_Ok in H as (v & _ & H). by apply (Hframe v).
  - right. unfold loadNextFrame in H.
    apply bind_Ok in H as (v & _ & H). by apply (Hframe v).
Qed.

(** X6.  When every data set has at least one frame, [frame_index] is a
    frame of the current data set in every state of a session:
    [0 <= frame_index < getNumberOfFrames()]. *)
Theorem frame_index_in_range env (cl : CommandLine) (evs : list Event)
    (s : State) :
  (forall number, 0 < getNumberOfFrames (new_KittiDataset env number)) ->
  Forall event_ok evs -> session env cl evs = Ok s ->
  0 <= frame_index s < getNumberOfFrames (dataset s).
Proof.
  intros Hframes Hevs H. apply session_reachable in H; [| done].
  revert s H. apply reachable_invariant.
  - intros cl' s H.
    apply KittiVisualizerQt_started in H as ((n & _ & ->) & -> & _).
    specialize (Hframes n). lia.
  - intros ev s s' _ IH _ H.
    apply dispatch_keeps in H
      as [(v & H & Hne) | [(v & H & Hne) | (_ & -> & -> & _)]]; [| | done].
    + apply newDatasetRequested_changed in H
        as (_ & (n & _ & Hd) & Hf & _); [| done].
      rewrite Hf, Hd. specialize (Hframes n). unfold clamp_upper.
      destruct (frame_index s >=? _) eqn:E; lia.
    + apply newFrameRequested_changed in H as (_ & -> & -> & _); [| done].
      rewrite clamp_frame. lia.
Qed.

Lemma frame_index_in_range_witness :
  (forall number, 0 < getNumberOfFrames (new_KittiDataset Demo.env number)) /\
  Forall event_ok demo_events /\
  session Demo.env Demo.cl demo_events = Ok demo_end /\
  0 <= frame_index demo_end < getNumberOfFrames (dataset demo_end).
Proof.
  assert (Hframes : forall number,
             0 < getNumberOfFrames (new_KittiDataset Demo.env number)).
  { intros number. simpl.
    destruct (number =? 1); [reflexivity |].
    destruct (number =? 2); reflexivity. }
  assert (Hevs : Forall event_ok demo_events)
    by (repeat constructor; vm_compute; discriminate).
  assert (Hend : session Demo.env Demo.cl demo_events = Ok demo_end)
    by (vm_compute; reflexivity).
  repeat (split; [assumption |]).
  exact (frame_index_in_range Demo.env Demo.cl demo_events demo_end
           Hframes Hevs Hend).
Defined.

Lemma reachable_dataset_current env (s : State) :
  reachable env s -> dataset_current env s.
Proof.
  revert s. apply (reachable_invariant env (dataset_current env)).
  - intros cl' s H. by apply KittiVisualizerQt_started in H as (? & _).
  - intros ev s s' _ IH _ H. unfold dataset_current in *.
    apply dispatch_keeps in H
      as [(v & H & Hne) | [(v & H & Hne) | (-> & _ & -> & _)]]; [| | done].
    + by apply newDatasetRequested_changed in H as (_ & ? & _).
    + by apply newFrameRequested_changed in H as (-> & -> & _).
Qed.

(** X7.  In every state of a session the data set held is the one opened
    for [availableDatasets.at(dataset_index)], and that look-up returns:
    [dataset_index] and [dataset] change together or not at all. *)
Theorem dataset_follows_index env (cl : CommandLine) (evs : list Event)
    (s : State) :
  Forall event_ok evs -> session env cl evs = Ok s ->
  exists number,
    vector_at in_availableDatasets (availableDatasets env) (dataset_index s)
      = Ok number /\
    dataset s = new_KittiDataset env number.
Proof.
  intros Hevs H. apply session_reachable in H; [| done].
  by apply reachable_dataset_current.
Qed.

Lemma dataset_follows_index_witness :
  Forall event_ok demo_events /\
  session Demo.env Demo.cl demo_events = Ok demo_end /\
  exists number,
    vector_at in_availableDatasets (availableDatasets Demo.env)
      (dataset_index demo_end) = Ok number /\
    dataset demo_end = new_KittiDataset Demo.env number.
Proof.
  assert (Hevs : Forall event_ok demo_events)
    by (repeat constructor; vm_compute; discriminate).
  assert (Hend : session Demo.env Demo.cl demo_events = Ok demo_end)
    by (vm_compute; reflexivity).
  repeat (split; [assumption |]).
  exact (dataset_follows_index Demo.env Demo.cl demo_events demo_end
           Hevs Hend).
Defined.

(** *** The loaded data *)

Lemma display_loop (s : State) (k : nat) :
  forall (i : nat) (acc : list PointCloud),
    vector_size (availableTracklets s) <= INT_MAX ->
    (i + k <= length (availableTracklets s))%nat ->
    for_loop k (Z.of_nat i)
      (fun i clouds =>
         tracklet ← vector_at in_availableTracklets (availableTracklets s) i;
         Ok (clouds ++
             [transformPointCloud
                (getTrackletPointCloud (dataset s) (pointCloud s) tracklet
                   (frame_index s))
                {| vx := 0; vy := 0; vz := 6 |}%R Quaternionf_Identity]))
      acc
    = Ok (acc ++ map (displayCloud s)
                   (take k (drop i (availableTracklets s)))).
Proof.
  induction k as [| k IH]; intros i acc Hb Hik; simpl.
  - by rewrite app_nil_r.
  - destruct (available_at (availableTracklets s) (Z.of_nat i) Hb)
      as (t & Ht & Hat); [lia |].
    rewrite Nat2Z.id in Ht. rewrite Hat. simpl.
    replace (Z.of_nat i + 1) with (Z.of_nat (S i)) by lia.
    rewrite IH by (done || lia).
    rewrite (drop_S _ _ _ Ht). simpl. by rewrite <- app_assoc.
Qed.

Lemma loadTrackletPoints_exact (s : State) :
  vector_size (availableTracklets s) <= INT_MAX ->
  loadTrackletPoints s =
  Ok (set_croppedTrackletPointClouds
        (croppedTrackletPointClouds s ++
         map (displayCloud s) (availableTracklets s)) s).
Proof.
  intros Hb. unfold loadTrackletPoints.
  rewrite (display_loop s _ 0%nat) by (done || lia).
  by rewrite drop_0, firstn_all.
Qed.

(** *** The labels *)

Lemma updateDatasetLabel_text env (s s' : State) :
  updateDatasetLabel env s = Ok s' ->
  exists text, s' = set_ui (set_label_dataSet text (ui s)) s.
Proof.
  unfold updateDatasetLabel. intros H.
  apply bind_Ok in H as (n & _ & H). eexists. symmetry.
  injection H as H. exact H.
Qed.

Lemma updateFrameLabel_text (s s' : State) :
  updateFrameLabel s = Ok s' ->
  exists text, s' = set_ui (set_label_frame text (ui s)) s.
Proof.
  unfold updateFrameLabel. intros H.
  apply bind_Ok in H as (n & _ & H). eexists. symmetry.
  injection H as H. exact H.
Qed.

Lemma set_label_dataSet_same (text : string) (s : State) :
  label_dataSet (ui s) = text ->
  set_ui (set_label_dataSet text (ui s)) s = s.
Proof. destruct s as [? ? ? ? ? ? ? ? ? ? ? ? []]. simpl. by intros ->. Qed.

Lemma set_label_frame_same (text : string) (s : State) :
  label_frame (ui s) = text ->
  set_ui (set_label_frame text (ui s)) s = s.
Proof. destruct s as [? ? ? ? ? ? ? ? ? ? ? ? []]. simpl. by intros ->. Qed.

Lemma set_label_tracklet_same (text : string) (s : State) :
  label_tracklet (ui s) = text ->
  set_ui (set_label_tracklet text (ui s)) s = s.
Proof. destruct s as [? ? ? ? ? ? ? ? ? ? ? ? []]. simpl. by intros ->. Qed.

(** A label written for [s] is the label of every state [s2] that agrees
    with [s] on what the label shows and carries its text. *)
Lemma updateDatasetLabel_ext env (s s1 s2 : State) :
  updateDatasetLabel env s = Ok s1 ->
  dataset_index s2 = dataset_index s ->
  label_dataSet (ui s2) = label_dataSet (ui s1) ->
  updateDatasetLabel env s2 = Ok s2.
Proof.
  unfold updateDatasetLabel. intros H Hd Hl. rewrite Hd.
  destruct (int_value (dataset_index s + 1)) as [n | | |]; try discriminate.
  simpl in *. injection H as <-. simpl in Hl.
  f_equal. by apply set_label_dataSet_same.
Qed.

Lemma updateFrameLabel_ext (s s1 s2 : State) :
  updateFrameLabel s = Ok s1 ->
  frame_index s2 = frame_index s -> dataset s2 = dataset s ->
  label_frame (ui s2) = label_frame (ui s1) ->
  updateFrameLabel s2 = Ok s2.
Proof.
  unfold updateFrameLabel. intros H Hf Hd Hl. rewrite Hf, Hd.
  destruct (int_value (frame_index s + 1)) as [n | | |]; try discriminate.
  simpl in *. injection H as <-. simpl in Hl.
  f_equal. by apply set_label_frame_same.
Qed.

Lemma updateTrackletLabel_ext (s s1 s2 : State) :
  updateTrackletLabel s = Ok s1 ->
  tracklet_index s2 = tracklet_index s ->
  availableTracklets s2 = availableTracklets s ->
  croppedTrackletPointClouds s2 = croppedTrackletPointClouds s ->
  label_tracklet (ui s2) = label_tracklet (ui s1) ->
  updateTrackletLabel s2 = Ok s2.
Proof.
  unfold updateTrackletLabel. intros H Ht Ha Hc Hl. rewrite Ht, Ha, Hc.
  destruct (vector_size (availableTracklets s) =? 0).
  - injection H as <-. simpl in Hl. f_equal.
    by apply set_label_tracklet_same.
  - destruct (vector_at in_availableTracklets _ _) as [t | | |];
      try discriminate. simpl in *.
    destruct (int_value (tracklet_index s + 1)) as [n | | |];
      try discriminate. simpl in *.
    destruct (vector_at in_croppedTrackletPointClouds _ _) as [c | | |];
      try discriminate. simpl in *.
    injection H as <-. simpl in Hl. f_equal.
    by apply set_label_tracklet_same.
Qed.

Lemma labels_current_ext env (s s' : State) :
  labels_current env s ->
  dataset_index s' = dataset_index s -> frame_index s' = frame_index s ->
  tracklet_index s' = tracklet_index s -> dataset s' = dataset s ->
  availableTracklets s' = availableTracklets s ->
  croppedTrackletPointClouds s' = croppedTrackletPointClouds s ->
  ui s' = ui s ->
  labels_current env s'.
Proof.
  intros (H1 & H2 & H3) Hd Hf Ht Hds Ha Hc Hu. repeat split.
  - eapply updateDatasetLabel_ext; [exact H1 | done | by rewrite Hu].
  - eapply updateFrameLabel_ext; [exact H2 | done | done | by rewrite Hu].
  - eapply updateTrackletLabel_ext;
      [exact H3 | done | done | done | by rewrite Hu].
Qed.

(** *** Running a slot with the loaded data and the labels in view *)

Ltac action_exact H1 :=
  lazymatch type of H1 with
  | context [hideTrackletPoints] => scene_step hideTrackletPoints_scene H1
  | context [hideTrackletBoxes] => scene_step hideTrackletBoxes_scene H1
  | context [showTrackletBoxes] => scene_step showTrackletBoxes_scene H1
  | context [showTrackletPoints ?env] =>
      scene_step (showTrackletPoints_scene env) H1
  | context [showTrackletInCenter] => scene_step showTrackletInCenter_scene H1
  | context [loadAvailableTracklets] =>
      rewrite loadAvailableTracklets_eq in H1; injection H1 as <-
  | context [loadTrackletPoints] =>
      rewrite loadTrackletPoints_exact in H1 by facts; injection H1 as <-
  | context [updateDatasetLabel ?env] =>
      let Hk := fresh "Hdataset" in
      pose proof H1 as Hk;
      apply (updateDatasetLabel_text env) in H1 as [? ->]
  | context [updateFrameLabel] =>
      let Hk := fresh "Hframe" in
      pose proof H1 as Hk;
      apply updateFrameLabel_text in H1 as [? ->]
  | context [updateTrackletLabel] =>
      let Hk := fresh "Htracklet" in
      pose proof H1 as Hk;
      apply updateTrackletLabel_text in H1 as [? ->]
  | Ok _ = Ok _ => injection H1 as <-
  | context [vector_at] => idtac
  | context [int_value] => idtac
  end.

Ltac run_exact_step H :=
  lazymatch type of H with
  | (let s := ?X in @?body s) = ?r =>
      let X' := eval state_norm in X in
      lazymatch X' with
      | (if ?b then _ else _) => destruct b
      | _ => let T := eval cbv beta in (body X') in change (T = r) in H
      end
  | mbind ?f ?M = Ok ?r =>
      let s1 := fresh "s" in let H1 := fresh "H" in let H2 := fresh "H" in
      pose proof (bind_Ok M f r H) as (s1 & H1 & H2);
      clear H; rename H2 into H;
      norm_in H1; action_exact H1; cbv beta in H
  | _ = Ok _ =>
      let H1 := fresh "H" in
      rename H into H1; norm_in H1; action_exact H1
  end.

Lemma newFrameRequested_exact env (value : Z) (s s' : State) :
  frame_index s <> value -> labels_current env s ->
  newFrameRequested env value s = Ok s' ->
  synchronised s' /\ labels_current env s'.
Proof.
  intros Hne (Hd & _ & _) H. cbv beta delta [newFrameRequested] in H.
  destruct (frame_index s =? value) eqn:E; [lia | clear E Hne].
  rewrite hideTrackletInCenter_eq in H.
  destruct s as [di fi ti sc f1 f2 f3 f4 ds pc av cr u].
  repeat run_exact_step H.
  all: split; [by repeat split |].
  all: repeat split.
  all: first
    [ eapply updateDatasetLabel_ext; [exact Hd | reflexivity ..]
    | eapply updateFrameLabel_ext; [exact Hframe | reflexivity ..]
    | eapply updateTrackletLabel_ext; [exact Htracklet | reflexivity ..] ].
Qed.

Lemma newDatasetRequested_exact env (value : Z) (s s' : State) :
  dataset_index s <> value ->
  newDatasetRequested env value s = Ok s' ->
  synchronised s' /\ labels_current env s'.
Proof.
  intros Hne H. cbv beta delta [newDatasetRequested] in H.
  destruct (dataset_index s =? value) eqn:E; [lia | clear E Hne].
  rewrite hideTrackletInCenter_eq in H.
  destruct s as [di fi ti sc f1 f2 f3 f4 ds pc av cr u].
  repeat run_exact_step H.
  all: split; [by repeat split |].
  all: repeat split.
  all: first
    [ eapply updateDatasetLabel_ext; [exact Hdataset | reflexivity ..]
    | eapply updateFrameLabel_ext; [exact Hframe | reflexivity ..]
    | eapply updateTrackletLabel_ext; [exact Htracklet | reflexivity ..] ].
Qed.

Lemma KittiVisualizerQt_exact env (cl : CommandLine) (s : State) :
  KittiVisualizerQt env cl = Ok s ->
  synchronised s /\ labels_current env s.
Proof.
  intros H. cbv beta delta [KittiVisualizerQt] in H.
  destruct (parseCommandLineOptions env cl) as [invalidOptions index].
  destruct (negb (invalidOptions =? 0)); [discriminate |].
  repeat run_exact_step H.
  split; [by repeat split |].
  repeat split.
  all: first
    [ eapply updateDatasetLabel_ext; [exact Hdataset | reflexivity ..]
    | eapply updateFrameLabel_ext; [exact Hframe | reflexivity ..]
    | eapply updateTrackletLabel_ext; [exact Htracklet | reflexivity ..] ].
Qed.

Lemma newTrackletRequested_effect (value : Z) (s s' : State) :
  tracklet_index s <> value ->
  newTrackletRequested value s = Ok s' ->
  exists scene text,
    updateTrackletLabel
      (set_pclVisualizer scene
         (set_tracklet_index
            (clamp_index value (vector_size (availableTracklets s))) s))
      = Ok s' /\
    s' = set_ui (set_label_tracklet text (ui s))
           (set_pclVisualizer scene
              (set_tracklet_index
                 (clamp_index value (vector_size (availableTracklets s))) s)).
Proof.
  intros Hne H. cbv beta delta [newTrackletRequested] in H.
  destruct (tracklet_index s =? value) eqn:E; [lia | clear E Hne].
  rewrite hideTrackletInCenter_eq in H.
  destruct s as [di fi ti sc f1 f2 f3 f4 ds pc av cr u].
  repeat run_exact_step H; eexists _, _; (split; [exact Htracklet | reflexivity]).
Qed.

Lemma newTrackletRequested_labels env (value : Z) (s s' : State) :
  labels_current env s -> newTrackletRequested value s = Ok s' ->
  labels_current env s'.
Proof.
  intros Hs H. destruct (decide (tracklet_index s = value)) as [<- | Hne].
  - by apply newTrackletRequested_same in H as ->.
  - destruct Hs as (Hd & Hf & _).
    apply newTrackletRequested_effect in H as (scene & text & Hk & ->);
      [| done].
    repeat split.
    + eapply updateDatasetLabel_ext; [exact Hd | reflexivity ..].
    + eapply updateFrameLabel_ext; [exact Hf | reflexivity ..].
    + eapply updateTrackletLabel_ext; [exact Hk | reflexivity ..].
Qed.

Lemma synchronised_ext (s s' : State) :
  synchronised s ->
  frame_index s' = frame_index s -> dataset s' = dataset s ->
  pointCloud s' = pointCloud s ->
  availableTracklets s' = availableTracklets s ->
  croppedTrackletPointClouds s' = croppedTrackletPointClouds s ->
  synchronised s'.
Proof.
  intros (H1 & H2 & H3) Hf Hd Hp Ha Hc. unfold synchronised, displayCloud.
  rewrite Hf, Hd, Hp, Ha, Hc. done.
Qed.

Lemma dispatch_exact env (ev : Event) (s s' : State) :
  synchronised s /\ labels_current env s ->
  dispatch env ev s = Ok s' ->
  synchronised s' /\ labels_current env s'.
Proof.
  intros [Hsync Hlab] H.
  assert (Hframe : forall v, newFrameRequested env v s = Ok s' ->
                             synchronised s' /\ labels_current env s').
  { intros v Hv. destruct (decide (frame_index s = v)) as [<- | Hne].
    - by apply newFrameRequested_same in Hv as ->.
    - by eapply newFrameRequested_exact. }
  assert (Htoggle : forall ly b, dispatch env (checkBox ly b) s = Ok s' ->
                                 synchronised s' /\ labels_current env s').
  { intros ly b Hb.
    apply checkBox_toggled in Hb
      as (_ & _ & (H1 & H2 & H3 & H4 & H5 & H6 & H7 & H8) & _).
    split; [by eapply synchronised_ext | by eapply labels_current_ext]. }
  destruct ev as [v | v | v | b | b | b | b | |]; simpl in H.
  - destruct (decide (dataset_index s = v)) as [<- | Hne].
    + by apply newDatasetRequested_same in H as ->.
    + by eapply newDatasetRequested_exact.
  - by apply (Hframe v).
  - split; [| by eapply newTrackletRequested_labels].
    destruct (decide (tracklet_index s = v)) as [<- | Hne].
    + by apply newTrackletRequested_same in H as ->.
    + apply newTrackletRequested_changed in H as (scene & u & ->); [| done].
      by eapply synchronised_ext.
  - by apply (Htoggle RawCloud b).
  - by apply (Htoggle BoundingBoxes b).
  - by apply (Htoggle CroppedTracklets b).
  - by apply (Htoggle CenteredSelection b).
  - unfold loadPreviousFrame in H. apply bind_Ok in H as (v & _ & H).
    by apply (Hframe v).
  - unfold loadNextFrame in H. apply bind_Ok in H as (v & _ & H).
    by apply (Hframe v).
Qed.

Lemma session_exact env (cl : CommandLine) (evs : list Event) (s : State) :
  Forall event_ok evs -> session env cl evs = Ok s ->
  synchronised s /\ labels_current env s.
Proof.
  intros Hevs H. apply session_reachable in H; [| done].
  revert s H.
  apply (reachable_invariant env
           (fun s => synchronised s /\ labels_current env s)).
  - intros cl' s H. by eapply KittiVisualizerQt_exact.
  - intros ev s s' _ IH _ H. by eapply dispatch_exact.
Qed.

(** X8.  In every state of a session the loaded data belong to the current
    data set and frame: [pointCloud] is the cloud of [frame_index],
    [availableTracklets] holds exactly the tracklets of the data set that
    are active at [frame_index], in their order, and
    [croppedTrackletPointClouds] holds, position by position, the crop of
    [pointCloud] to that tracklet lifted by 6 along z. *)
Theorem loaded_data_current env (cl : CommandLine) (evs : list Event)
    (s : State) :
  Forall event_ok evs -> session env cl evs = Ok s ->
  vector_size (getTracklets (dataset s)) <= INT_MAX ->
  pointCloud s = getPointCloud (dataset s) (frame_index s) /\
  availableTracklets s =
    List.filter
      (fun t => bool_decide (first_frame t <= frame_index s <= lastFrame t))
      (getTracklets (dataset s)) /\
  croppedTrackletPointClouds s =
    map (fun tracklet =>
           transformPointCloud
             (getTrackletPointCloud (dataset s) (pointCloud s) tracklet
                (frame_index s))
             {| vx := 0; vy := 0; vz := 6 |}%R Quaternionf_Identity)
      (availableTracklets s).
Proof.
  intros Hevs H Hts.
  apply session_exact in H as [(Hp & Ha & Hc) _]; [| done].
  split; [done |]. split; [| done].
  rewrite Ha, (scanned_all _ Hts), firstn_all.
  apply List.filter_ext. intros t. apply activeAt_spec.
Qed.

Lemma loaded_data_current_witness :
  Forall event_ok demo_events /\
  session Demo.env Demo.cl demo_events = Ok demo_end /\
  vector_size (getTracklets (dataset demo_end)) <= INT_MAX /\
  availableTracklets demo_end = [Demo.car].
Proof.
  assert (Hevs : Forall event_ok demo_events)
    by (repeat constructor; vm_compute; discriminate).
  assert (Hend : session Demo.env Demo.cl demo_events = Ok demo_end)
    by (vm_compute; reflexivity).
  assert (Hts : vector_size (getTracklets (dataset demo_end)) <= INT_MAX)
    by (vm_compute; discriminate).
  split; [exact Hevs |]. split; [exact Hend |]. split; [exact Hts |].
  destruct (loaded_data_current Demo.env Demo.cl demo_events demo_end
              Hevs Hend Hts) as (_ & Ha & _).
  rewrite Ha. vm_compute. reflexivity.
Defined.

(** X9.  In every state of a session the three labels show the current
    state: each of [updateDatasetLabel], [updateFrameLabel] and
    [updateTrackletLabel], run again, returns and changes nothing. *)
Theorem labels_follow_state env (cl : CommandLine) (evs : list Event)
    (s : State) :
  Forall event_ok evs -> session env cl evs = Ok s ->
  updateDatasetLabel env s = Ok s /\
  updateFrameLabel s = Ok s /\
  updateTrackletLabel s = Ok s.
Proof.
  intros Hevs H. by apply session_exact in H as [_ ?].
Qed.

Lemma labels_follow_state_witness :
  Forall event_ok demo_events /\
  session Demo.env Demo.cl demo_events = Ok demo_end /\
  updateFrameLabel demo_end = Ok demo_end /\
  label_frame (ui demo_end) = "Frame: 6 of 12" +:+ endl.
Proof.
  assert (Hevs : Forall event_ok demo_events)
    by (repeat constructor; vm_compute; discriminate).
  assert (Hend : session Demo.env Demo.cl demo_events = Ok demo_end)
    by (vm_compute; reflexivity).
  split; [exact Hevs |]. split; [exact Hend |].
  destruct (labels_follow_state Demo.env Demo.cl demo_events demo_end
              Hevs Hend) as (_ & Hf & _).
  split; [exact Hf |]. vm_compute. reflexivity.
Defined.

(** ** The objects in the scene *)

Lemma string_drop_inj (lit : string) (i j : nat) :
  (i <= String.length lit)%nat -> (j <= String.length lit)%nat ->
  string_drop i lit = string_drop j lit -> i = j.
Proof.
  intros Hi Hj H. apply (f_equal String.length) in H.
  rewrite !string_drop_length in H. lia.
Qed.

Lemma literal_plus_nat (lit : string) (i : Z) (id : string) :
  literal_plus lit i = Some id <->
  0 <= i <= Z.of_nat (String.length lit) /\
  id = string_drop (Z.to_nat i) lit.
Proof.
  unfold literal_plus.
  destruct ((0 <=? i) && (i <=? Z.of_nat (String.length lit))) eqn:E.
  - split.
    + intros [= <-]. split; [lia | done].
    + by intros [_ ->].
  - split; [discriminate |]. intros [? _]. lia.
Qed.

Lemma drawn_other (lit : string) (objs : list SceneObject) :
  forall (i : nat) (scene : gmap string SceneObject) (id : string),
    (forall j, (j < length objs)%nat -> string_drop (i + j) lit <> id) ->
    drawn lit i objs scene !! id = scene !! id.
Proof.
  induction objs as [| o objs IH]; intros i scene id Hid; simpl; [done |].
  rewrite IH.
  - apply lookup_insert_ne. specialize (Hid 0%nat).
    rewrite Nat.add_0_r in Hid. apply Hid. simpl. lia.
  - intros j Hj. replace (S i + j)%nat with (i + S j)%nat by lia.
    apply Hid. simpl. lia.
Qed.

Lemma drawn_at (lit : string) (objs : list SceneObject) :
  forall (i : nat) (scene : gmap string SceneObject) (j : nat)
         (o : SceneObject),
    (i + length objs <= S (String.length lit))%nat ->
    objs !! j = Some o ->
    drawn lit i objs scene !! string_drop (i + j) lit = Some o.
Proof.
  induction objs as [| o' objs IH]; intros i scene j o Hlen Hj; [done |].
  simpl in Hlen. destruct j as [| j]; simpl in Hj; simpl.
  - injection Hj as ->. rewrite Nat.add_0_r. rewrite drawn_other.
    + apply lookup_insert_eq.
    + intros k Hk Heq. apply string_drop_inj in Heq; lia.
  - replace (i + S j)%nat with (S i + j)%nat by lia.
    apply IH; [lia | done].
Qed.

Lemma drawn_is_Some (lit : string) (objs : list SceneObject) :
  forall (i : nat) (scene : gmap string SceneObject) (id : string),
    is_Some (drawn lit i objs scene !! id) ->
    is_Some (scene !! id) \/
    exists j, (j < length objs)%nat /\ id = string_drop (i + j) lit.
Proof.
  induction objs as [| o objs IH]; intros i scene id H; simpl in H;
    [by left |].
  apply IH in H as [H | (j & Hj & ->)].
  - destruct (decide (string_drop i lit = id)) as [<- | Hne].
    + right. exists 0%nat. simpl. split; [lia | by rewrite Nat.add_0_r].
    + rewrite lookup_insert_ne in H by done. by left.
  - right. exists (S j). simpl. split; [lia |].
    by replace (i + S j)%nat with (S i + j)%nat by lia.
Qed.

Lemma erased_None (lit : string) (n : nat) :
  forall (i : nat) (scene : gmap string SceneObject) (id : string),
    scene !! id = None -> erased lit i n scene !! id = None.
Proof.
  induction n as [| n IH]; intros i scene id H; simpl; [done |].
  apply IH. destruct (decide (string_drop i lit = id)) as [<- | Hne].
  - apply lookup_delete_eq.
  - by rewrite lookup_delete_ne.
Qed.

Lemma erased_other (lit : string) (n : nat) :
  forall (i : nat) (scene : gmap string SceneObject) (id : string),
    (forall j, (j < n)%nat -> string_drop (i + j) lit <> id) ->
    erased lit i n scene !! id = scene !! id.
Proof.
  induction n as [| n IH]; intros i scene id Hid; simpl; [done |].
  rewrite IH.
  - apply lookup_delete_ne. specialize (Hid 0%nat).
    rewrite Nat.add_0_r in Hid. apply Hid. lia.
  - intros j Hj. replace (S i + j)%nat with (i + S j)%nat by lia.
    apply Hid. lia.
Qed.

Lemma erased_at (lit : string) (n : nat) :
  forall (i : nat) (scene : gmap string SceneObject) (j : nat),
    (j < n)%nat -> erased lit i n scene !! string_drop (i + j) lit = None.
Proof.
  induction n as [| n IH]; intros i scene j Hj; [lia |]. simpl.
  destruct j as [| j].
  - rewrite Nat.add_0_r. apply erased_None, lookup_delete_eq.
  - replace (i + S j)%nat with (S i + j)%nat by lia. apply IH. lia.
Qed.

Lemma erased_is_Some (lit : string) (n i : nat)
    (scene : gmap string SceneObject) (id : string) :
  is_Some (erased lit i n scene !! id) ->
  is_Some (scene !! id) /\
  forall j, (j < n)%nat -> string_drop (i + j) lit <> id.
Proof.
  intros H. split.
  - destruct (scene !! id) eqn:E; [done |].
    rewrite erased_None in H by done. by destruct H.
  - intros j Hj <-. rewrite erased_at in H by done. by destruct H.
Qed.

(** No position of the two literals is the name of the frame cloud or of
    the centred tracklet, and the first 14 positions of ["tracklet_box_"]
    differ from the first 16 of ["cropped_tracklet_"]. *)
Lemma box_id_other (i : nat) :
  string_drop i "tracklet_box_" <> "point_cloud" /\
  string_drop i "tracklet_box_" <> "centered_tracklet".
Proof.
  do 14 (destruct i as [| i]; [split; discriminate |]).
  split; discriminate.
Qed.

Lemma cropped_id_other (i : nat) :
  string_drop i "cropped_tracklet_" <> "point_cloud" /\
  string_drop i "cropped_tracklet_" <> "centered_tracklet".
Proof.
  do 18 (destruct i as [| i]; [split; discriminate |]).
  split; discriminate.
Qed.

Lemma box_cropped_disjoint (i j : nat) :
  (i <= 13)%nat -> (j <= 15)%nat ->
  string_drop i "tracklet_box_" <> string_drop j "cropped_tracklet_".
Proof.
  intros Hi Hj.
  assert (Hcheck :
    forallb (fun i => forallb (fun j =>
      negb (String.eqb (string_drop i "tracklet_box_")
              (string_drop j "cropped_tracklet_"))) (seq 0 16)) (seq 0 14)
    = true) by (vm_compute; reflexivity).
  rewrite forallb_forall in Hcheck.
  specialize (Hcheck i). rewrite forallb_forall in Hcheck.
  specialize (Hcheck ltac:(apply in_seq; lia) j ltac:(apply in_seq; lia)).
  apply negb_true_iff, String.eqb_neq in Hcheck. exact Hcheck.
Qed.

(** ** The drawing and the removing loops *)

Lemma for_loop_drawn (lit : string)
    (body : Z -> gmap string SceneObject -> result (gmap string SceneObject))
    (P : nat -> SceneObject -> Prop) :
  (forall (i : nat) scene scene',
      body (Z.of_nat i) scene = Ok scene' ->
      (i <= String.length lit)%nat /\
      exists o, P i o /\ scene' = <[string_drop i lit := o]> scene) ->
  forall (n i : nat) scene scene',
    for_loop n (Z.of_nat i) body scene = Ok scene' ->
    (n = 0%nat \/ (i + n <= S (String.length lit))%nat) /\
    exists objs,
      length objs = n /\
      (forall j o, objs !! j = Some o -> P (i + j)%nat o) /\
      scene' = drawn lit i objs scene.
Proof.
  intros Hbody. induction n as [| n IH]; intros i scene scene' H; simpl in H.
  - injection H as <-. split; [by left |]. by exists [].
  - apply bind_Ok in H as (scene1 & H1 & H).
    apply Hbody in H1 as (Hi & o & Ho & ->).
    replace (Z.of_nat i + 1) with (Z.of_nat (S i)) in H by lia.
    apply IH in H as (Hn & objs & Hlen & Hobjs & ->).
    split; [right; lia |].
    exists (o :: objs). simpl. split; [by rewrite Hlen |]. split; [| done].
    intros [| j] o' Hj; simpl in Hj.
    + injection Hj as <-. by rewrite Nat.add_0_r.
    + replace (i + S j)%nat with (S i + j)%nat by lia. by apply Hobjs.
Qed.

Lemma for_loop_erased (lit : string)
    (body : Z -> gmap string SceneObject -> result (gmap string SceneObject)) :
  (forall (i : nat) scene scene',
      body (Z.of_nat i) scene = Ok scene' ->
      (i <= String.length lit)%nat /\
      scene' = delete (string_drop i lit) scene) ->
  forall (n i : nat) scene scene',
    for_loop n (Z.of_nat i) body scene = Ok scene' ->
    (n = 0%nat \/ (i + n <= S (String.length lit))%nat) /\
    scene' = erased lit i n scene.
Proof.
  intros Hbody. induction n as [| n IH]; intros i scene scene' H; simpl in H.
  - injection H as <-. split; [by left | done].
  - apply bind_Ok in H as (scene1 & H1 & H).
    apply Hbody in H1 as (Hi & ->).
    replace (Z.of_nat i + 1) with (Z.of_nat (S i)) in H by lia.
    apply IH in H as (Hn & ->).
    split; [right; lia | done].
Qed.

Lemma viewer_id_at (lit : string) (i : nat) (id : string) :
  of_option (literal_plus lit (Z.of_nat i)) = Ok id ->
  (i <= String.length lit)%nat /\ id = string_drop i lit.
Proof.
  destruct (literal_plus lit (Z.of_nat i)) as [id' |] eqn:E;
    [| discriminate].
  intros [= <-]. apply literal_plus_nat in E as [Hi ->].
  rewrite Nat2Z.id. split; [lia | done].
Qed.

Lemma vector_at_lookup {A} (c : Container) (v : list A) (i : nat) (a : A) :
  (i <= 17)%nat -> vector_at c v (Z.of_nat i) = Ok a -> v !! i = Some a.
Proof.
  intros Hi H. apply vector_at_Ok in H.
  rewrite to_size_t_small in H by lia. by rewrite Nat2Z.id in H.
Qed.

Lemma showTrackletBoxes_drawn (s s' : State) :
  showTrackletBoxes s = Ok s' ->
  exists boxes,
    boxes_of s boxes /\
    s' = set_pclVisualizer
           (drawn "tracklet_box_" 0 boxes (pclVisualizer s)) s.
Proof.
  unfold showTrackletBoxes. intros H.
  apply bind_Ok in H as (scene & Hloop & [= <-]).
  eapply (for_loop_drawn "tracklet_box_" _
            (fun i o =>
               exists t tpose,
                 availableTracklets s !! i = Some t /\
                 vector_at in_poses (poses t)
                   (frame_index s - first_frame t) = Ok tpose /\
                 o = boxOf t tpose)) with (i := 0%nat) in Hloop.
  - destruct Hloop as (Hn & boxes & Hlen & Hboxes & ->).
    exists boxes. split; [| done]. split; [| split; [done |]].
    + simpl in Hn. lia.
    + intros i o Ho. by apply Hboxes in Ho.
  - intros i sc sc' H. cbv beta in H.
    apply bind_Ok in H as (t & Ht & H). cbv zeta in H.
    apply bind_Ok in H as (pn & Hpn & H).
    apply bind_Ok in H as (tpose & Hpose & H).
    apply bind_Ok in H as (id & Hid & H).
    injection H as <-.
    apply viewer_id_at in Hid as [Hi ->]. simpl in Hi.
    split; [done |].
    apply int_value_Ok in Hpn as [-> _].
    apply vector_at_lookup in Ht; [| lia].
    eexists. split; [by eexists _, _ |]. done.
Qed.

Lemma showTrackletPoints_drawn env (s s' : State) :
  showTrackletPoints env s = Ok s' ->
  clouds_ok s /\
  s' = set_pclVisualizer
         (drawn "cropped_tracklet_" 0
            (zip_with (cloudOf env) (availableTracklets s)
               (croppedTrackletPointClouds s))
            (pclVisualizer s)) s.
Proof.
  unfold showTrackletPoints. intros H.
  apply bind_Ok in H as (scene & Hloop & [= <-]).
  eapply (for_loop_drawn "cropped_tracklet_" _
            (fun i o =>
               exists t cloud,
                 availableTracklets s !! i = Some t /\
                 croppedTrackletPointClouds s !! i = Some cloud /\
                 o = cloudOf env t cloud)) with (i := 0%nat) in Hloop.
  - destruct Hloop as (Hn & objs & Hlen & Hobjs & ->).
    assert (Hcr : (length (availableTracklets s)
                   <= length (croppedTrackletPointClouds s))%nat).
    { destruct (length (availableTracklets s)) as [| k] eqn:Ek; [lia |].
      destruct (lookup_lt_is_Some_2 objs k) as [o Ho]; [lia |].
      apply Hobjs in Ho as (t & cloud & _ & Hc & _).
      apply lookup_lt_Some in Hc. simpl in Hc. lia. }
    split; [split; [simpl in Hn; lia | done] |].
    f_equal. f_equal. apply list_eq. intros i.
    rewrite lookup_zip_with.
    destruct (objs !! i) as [o |] eqn:Ho.
    + apply Hobjs in Ho as (t & cloud & Ht & Hc & ->). simpl in Ht, Hc.
      by rewrite Ht, Hc.
    + apply lookup_ge_None in Ho.
      rewrite (proj2 (lookup_ge_None (availableTracklets s) i)) by lia.
      done.
  - intros i sc sc' H. cbv beta in H.
    apply bind_Ok in H as (t & Ht & H).
    destruct (getTrackletColor env t) as [[r g] b] eqn:Ecol.
    apply bind_Ok in H as (handled & _ & H).
    apply bind_Ok in H as (id & Hid & H).
    apply bind_Ok in H as (cloud & Hcloud & H).
    injection H as <-.
    apply viewer_id_at in Hid as [Hi ->]. simpl in Hi.
    split; [done |].
    apply vector_at_lookup in Ht; [| lia].
    apply vector_at_lookup in Hcloud; [| lia].
    exists (Cloud cloud r g b). split; [| done].
    exists t, cloud. unfold cloudOf. by rewrite Ecol.
Qed.

Lemma hideTrackletBoxes_erased (s s' : State) :
  hideTrackletBoxes s = Ok s' ->
  (length (availableTracklets s) <= 14)%nat /\
  s' = set_pclVisualizer
         (erased "tracklet_box_" 0 (length (availableTracklets s))
            (pclVisualizer s)) s.
Proof.
  unfold hideTrackletBoxes. intros H.
  apply bind_Ok in H as (scene & Hloop & [= <-]).
  eapply (for_loop_erased "tracklet_box_") with (i := 0%nat) in Hloop.
  - destruct Hloop as (Hn & ->). split; [simpl in Hn; lia | done].
  - intros i sc sc' H. cbv beta in H.
    apply bind_Ok in H as (id & Hid & H). injection H as <-.
    by apply viewer_id_at in Hid as [Hi ->].
Qed.

Lemma hideTrackletPoints_erased (s s' : State) :
  hideTrackletPoints s = Ok s' ->
  (length (availableTracklets s) <= 18)%nat /\
  s' = set_pclVisualizer
         (erased "cropped_tracklet_" 0 (length (availableTracklets s))
            (pclVisualizer s)) s.
Proof.
  unfold hideTrackletPoints. intros H.
  apply bind_Ok in H as (scene & Hloop & [= <-]).
  eapply (for_loop_erased "cropped_tracklet_") with (i := 0%nat) in Hloop.
  - destruct Hloop as (Hn & ->). split; [simpl in Hn; lia | done].
  - intros i sc sc' H. cbv beta in H.
    apply bind_Ok in H as (id & Hid & H). injection H as <-.
    by apply viewer_id_at in Hid as [Hi ->].
Qed.

Lemma vector_size_zero {A} (v : list A) : vector_size v = 0 <-> v = [].
Proof.
  unfold vector_size. destruct v; simpl; split; (done || lia).
Qed.

Lemma showTrackletInCenter_drawn (s s' : State) :
  showTrackletInCenter s = Ok s' ->
  exists o,
    center_of s o /\
    s' = set_pclVisualizer
           (if vector_size (availableTracklets s) =? 0 then pclVisualizer s
            else <["centered_tracklet" := o]> (pclVisualizer s)) s.
Proof.
  unfold showTrackletInCenter, center_of. intros H.
  destruct (vector_size (availableTracklets s) =? 0) eqn:E.
  - injection H as <-. exists (Cloud [] 0 0 0). split.
    + intros Hne. exfalso. apply Hne, vector_size_zero. lia.
    + apply set_pclVisualizer_same.
  - apply bind_Ok in H as (t & Ht & H). cbv zeta in H.
    apply bind_Ok in H as (pn & Hpn & H).
    apply bind_Ok in H as (tpose & Hpose & H).
    injection H as <-. apply int_value_Ok in Hpn as [-> _].
    exists (centerOf s t tpose). split; [| done].
    intros _. by exists t, tpose.
Qed.

(** The same, for a call made only if a flag is set. *)
Lemma when_showTrackletBoxes (b : bool) (s s' : State) :
  (if b then showTrackletBoxes s else Ok s) = Ok s' ->
  exists boxes,
    (b = true -> boxes_of s boxes) /\
    s' = set_pclVisualizer
           (if b then drawn "tracklet_box_" 0 boxes (pclVisualizer s)
            else pclVisualizer s) s.
Proof.
  destruct b; intros H.
  - apply showTrackletBoxes_drawn in H as (boxes & Hb & ->). by exists boxes.
  - injection H as <-. exists []. split; [done |].
    apply set_pclVisualizer_same.
Qed.

Lemma when_showTrackletPoints env (b : bool) (s s' : State) :
  (if b then showTrackletPoints env s else Ok s) = Ok s' ->
  (b = true -> clouds_ok s) /\
  s' = set_pclVisualizer
         (if b
          then drawn "cropped_tracklet_" 0
                 (zip_with (cloudOf env) (availableTracklets s)
                    (croppedTrackletPointClouds s))
                 (pclVisualizer s)
          else pclVisualizer s) s.
Proof.
  destruct b; intros H.
  - by apply showTrackletPoints_drawn in H as (Hc & ->).
  - injection H as <-. split; [done |]. apply set_pclVisualizer_same.
Qed.

Lemma when_showTrackletInCenter (b : bool) (s s' : State) :
  (if b then showTrackletInCenter s else Ok s) = Ok s' ->
  exists o,
    (b = true -> center_of s o) /\
    s' = set_pclVisualizer
           (if b
            then if vector_size (availableTracklets s) =? 0
                 then pclVisualizer s
                 else <["centered_tracklet" := o]> (pclVisualizer s)
            else pclVisualizer s) s.
Proof.
  destruct b; intros H.
  - apply showTrackletInCenter_drawn in H as (o & Ho & ->). by exists o.
  - injection H as <-. exists (Cloud [] 0 0 0). split; [done |].
    apply set_pclVisualizer_same.
Qed.

Lemma when_hideTrackletBoxes (b : bool) (s s' : State) :
  (if b then hideTrackletBoxes s else Ok s) = Ok s' ->
  s' = set_pclVisualizer
         (if b
          then erased "tracklet_box_" 0 (length (availableTracklets s))
                 (pclVisualizer s)
          else pclVisualizer s) s.
Proof.
  destruct b; intros H.
  - by apply hideTrackletBoxes_erased in H as (_ & ->).
  - injection H as <-. apply set_pclVisualizer_same.
Qed.

Lemma when_hideTrackletPoints (b : bool) (s s' : State) :
  (if b then hideTrackletPoints s else Ok s) = Ok s' ->
  s' = set_pclVisualizer
         (if b
          then erased "cropped_tracklet_" 0 (length (availableTracklets s))
                 (pclVisualizer s)
          else pclVisualizer s) s.
Proof.
  destruct b; intros H.
  - by apply hideTrackletPoints_erased in H as (_ & ->).
  - injection H as <-. apply set_pclVisualizer_same.
Qed.

Lemma when_hideTrackletInCenter (b : bool) (s : State) :
  (if b then hideTrackletInCenter s else s) =
  set_pclVisualizer
    (if b
     then if vector_size (availableTracklets s) =? 0 then pclVisualizer s
          else removeShape "centered_tracklet" (pclVisualizer s)
     else pclVisualizer s) s.
Proof.
  destruct b; [| apply set_pclVisualizer_same].
  unfold hideTrackletInCenter.
  destruct (vector_size (availableTracklets s) =? 0); [| done].
  apply set_pclVisualizer_same.
Qed.

Lemma when_hidePointCloud (b : bool) (s : State) :
  (if b then hidePointCloud s else s) =
  set_pclVisualizer
    (if b then removePointCloud "point_cloud" (pclVisualizer s)
     else pclVisualizer s) s.
Proof. destruct b; [done | apply set_pclVisualizer_same]. Qed.

Lemma when_showPointCloud (b : bool) (s : State) :
  (if b then showPointCloud s else s) =
  set_pclVisualizer
    (if b
     then addPointCloud (pointCloud s) 255 255 255 "point_cloud"
            (pclVisualizer s)
     else pclVisualizer s) s.
Proof. destruct b; [done | apply set_pclVisualizer_same]. Qed.

(** ** The two halves of a request *)

Lemma zip_with_length_le {A B C} (f : A -> B -> C) (l : list A) (k : list B) :
  (length (zip_with f l k) <= length l)%nat.
Proof.
  revert k. induction l as [| a l IH]; intros [| b k]; simpl; try lia.
  specialize (IH k). lia.
Qed.

Lemma when_delete_None (b : bool) (id' id : string)
    (scene : gmap string SceneObject) :
  scene !! id = None -> (if b then delete id' scene else scene) !! id = None.
Proof.
  intros H. destruct b; [| done].
  destruct (decide (id' = id)) as [-> | Hne].
  - apply lookup_delete_eq.
  - by rewrite lookup_delete_ne.
Qed.

Lemma when_erased_None (b : bool) (lit : string) (n : nat) (id : string)
    (scene : gmap string SceneObject) :
  scene !! id = None ->
  (if b then erased lit 0 n scene else scene) !! id = None.
Proof. intros H. destruct b; [by apply erased_None | done]. Qed.

Lemma layer_id_box (s : State) (j : nat) :
  (j < length (availableTracklets s))%nat -> (j <= 13)%nat ->
  layer_id BoundingBoxes s (string_drop j "tracklet_box_").
Proof.
  intros Hj Hb. exists (Z.of_nat j). unfold vector_size. split; [lia |].
  apply literal_plus_nat. rewrite Nat2Z.id. simpl. split; [lia | done].
Qed.

Lemma layer_id_cropped (s : State) (j : nat) :
  (j < length (availableTracklets s))%nat -> (j <= 17)%nat ->
  layer_id CroppedTracklets s (string_drop j "cropped_tracklet_").
Proof.
  intros Hj Hb. exists (Z.of_nat j). unfold vector_size. split; [lia |].
  apply literal_plus_nat. rewrite Nat2Z.id. simpl. split; [lia | done].
Qed.

Lemma layer_id_at (ly : Layer) (s : State) (id : string) :
  layer_id ly s id ->
  match ly with
  | RawCloud => id = "point_cloud"
  | BoundingBoxes =>
      exists j, (j < length (availableTracklets s))%nat /\ (j <= 13)%nat /\
                id = string_drop j "tracklet_box_"
  | CroppedTracklets =>
      exists j, (j < length (availableTracklets s))%nat /\ (j <= 17)%nat /\
                id = string_drop j "cropped_tracklet_"
  | CenteredSelection => id = "centered_tracklet"
  end.
Proof.
  destruct ly; simpl; [done | | | done].
  - intros (i & Hi & Hl). apply literal_plus_nat in Hl as [Hb ->].
    exists (Z.to_nat i). unfold vector_size in Hi. simpl in Hb.
    split; [lia |]. split; [lia | done].
  - intros (i & Hi & Hl). apply literal_plus_nat in Hl as [Hb ->].
    exists (Z.to_nat i). unfold vector_size in Hi. simpl in Hb.
    split; [lia |]. split; [lia | done].
Qed.

(** After the hiding half nothing is left in the scene. *)
Lemma hidden_None env (s : State) :
  displayed env s -> forall id, hidden s !! id = None.
Proof.
  intros [_ Honly] id. unfold hidden. cbv zeta.
  unfold removePointCloud, removeShape.
  destruct (pclVisualizer s !! id) as [o |] eqn:E.
  - destruct (Honly id) as (ly & Hv & Hid & Hne); [by rewrite E |].
    apply layer_id_at in Hid. destruct ly; simpl in Hv; rewrite Hv.
    + subst id. apply lookup_delete_eq.
    + destruct Hid as (j & Hj & _ & ->).
      apply when_delete_None. by apply (erased_at _ _ 0%nat).
    + destruct Hid as (j & Hj & _ & ->).
      apply when_delete_None, when_erased_None.
      by apply (erased_at _ _ 0%nat).
    + subst id. apply when_delete_None.
      do 2 apply when_erased_None.
      destruct (vector_size (availableTracklets s) =? 0) eqn:Ez.
      * exfalso. apply Hne; [done |]. apply vector_size_zero. lia.
      * apply lookup_delete_eq.
  - apply when_delete_None. do 2 apply when_erased_None.
    destruct (trackletInCenterVisible s); [| done].
    by apply (when_delete_None (negb (vector_size (availableTracklets s) =? 0)))
      with (id' := "centered_tracklet") in E;
      destruct (vector_size (availableTracklets s) =? 0).
Qed.

(** After the showing half, begun on an empty scene, the scene holds the
    visible layers and nothing else. *)
Lemma shown_displayed env (s : State) (scene0 : gmap string SceneObject)
    (boxes : list SceneObject) (o : SceneObject) :
  (forall id, scene0 !! id = None) ->
  (trackletBoundingBoxesVisible s = true -> boxes_of s boxes) ->
  (trackletPointsVisible s = true -> clouds_ok s) ->
  (trackletInCenterVisible s = true -> center_of s o) ->
  pclVisualizer s = shown env s scene0 boxes o ->
  displayed env s.
Proof.
  intros H0 Hb Hp Hc Heq. unfold shown in Heq. cbv zeta in Heq.
  unfold addPointCloud in Heq.
  set (sc1 := if pointCloudVisible s
              then <["point_cloud" := Cloud (pointCloud s) 255 255 255]> scene0
              else scene0) in Heq.
  set (sc2 := if trackletBoundingBoxesVisible s
              then drawn "tracklet_box_" 0 boxes sc1 else sc1) in Heq.
  set (clouds := zip_with (cloudOf env) (availableTracklets s)
                   (croppedTrackletPointClouds s)) in Heq.
  set (sc3 := if trackletPointsVisible s
              then drawn "cropped_tracklet_" 0 clouds sc2 else sc2) in Heq.
  assert (Hclouds : (length clouds <= length (availableTracklets s))%nat)
    by apply zip_with_length_le.
  (* the frame cloud *)
  assert (F1a : pointCloudVisible s = true ->
                sc1 !! "point_cloud" = Some (Cloud (pointCloud s) 255 255 255)).
  { intros Hv. unfold sc1. rewrite Hv. apply lookup_insert_eq. }
  assert (F1c : forall id, is_Some (sc1 !! id) ->
                           pointCloudVisible s = true /\ id = "point_cloud").
  { intros id H. unfold sc1 in H. destruct (pointCloudVisible s).
    - destruct (decide ("point_cloud" = id)) as [<- | Hne]; [done |].
      rewrite lookup_insert_ne, H0 in H by done. by destruct H.
    - rewrite H0 in H. by destruct H. }
  (* the boxes *)
  assert (F2a : trackletBoundingBoxesVisible s = true ->
                forall i ob, boxes !! i = Some ob ->
                             sc2 !! string_drop i "tracklet_box_" = Some ob).
  { intros Hv i ob Hob. unfold sc2. rewrite Hv.
    destruct (Hb Hv) as (Hlen & Hlb & _).
    apply (drawn_at _ _ 0%nat); [simpl; lia | done]. }
  assert (F2b : forall id, (forall j, string_drop j "tracklet_box_" <> id) ->
                           sc2 !! id = sc1 !! id).
  { intros id Hid. unfold sc2.
    destruct (trackletBoundingBoxesVisible s); [| done].
    apply drawn_other. intros j _. apply Hid. }
  assert (F2c : forall id, is_Some (sc2 !! id) ->
                is_Some (sc1 !! id) \/
                trackletBoundingBoxesVisible s = true /\
                exists j, (j < length boxes)%nat /\
                          id = string_drop j "tracklet_box_").
  { intros id H. unfold sc2 in H.
    destruct (trackletBoundingBoxesVisible s); [| by left].
    apply drawn_is_Some in H as [H | H]; [by left | by right]. }
  (* the cropped clouds *)
  assert (F3a : trackletPointsVisible s = true ->
                forall i oc, clouds !! i = Some oc ->
                             sc3 !! string_drop i "cropped_tracklet_" = Some oc).
  { intros Hv i oc Hoc. unfold sc3. rewrite Hv.
    destruct (Hp Hv) as (Hlen & _).
    apply (drawn_at _ _ 0%nat); [simpl; lia | done]. }
  assert (F3b : forall id,
                (forall j, (j < length (availableTracklets s))%nat ->
                           string_drop j "cropped_tracklet_" <> id) ->
                sc3 !! id = sc2 !! id).
  { intros id Hid. unfold sc3.
    destruct (trackletPointsVisible s); [| done].
    apply drawn_other. intros j Hj. apply Hid. lia. }
  assert (F3c : forall id, is_Some (sc3 !! id) ->
                is_Some (sc2 !! id) \/
                trackletPointsVisible s = true /\
                exists j, (j < length clouds)%nat /\
                          id = string_drop j "cropped_tracklet_").
  { intros id H. unfold sc3 in H.
    destruct (trackletPointsVisible s); [| by left].
    apply drawn_is_Some in H as [H | H]; [by left | by right]. }
  (* the centred tracklet *)
  assert (F4a : trackletInCenterVisible s = true ->
                availableTracklets s <> [] ->
                pclVisualizer s !! "centered_tracklet" = Some o).
  { intros Hv Hne. rewrite Heq, Hv.
    destruct (vector_size (availableTracklets s) =? 0) eqn:Ez.
    - exfalso. apply Hne, vector_size_zero. lia.
    - apply lookup_insert_eq. }
  assert (F4b : forall id, id <> "centered_tracklet" ->
                           pclVisualizer s !! id = sc3 !! id).
  { intros id Hid. rewrite Heq.
    destruct (trackletInCenterVisible s); [| done].
    destruct (vector_size (availableTracklets s) =? 0); [done |].
    by rewrite lookup_insert_ne. }
  assert (F4c : forall id, is_Some (pclVisualizer s !! id) ->
                is_Some (sc3 !! id) \/
                trackletInCenterVisible s = true /\
                availableTracklets s <> [] /\ id = "centered_tracklet").
  { intros id H. destruct (decide (id = "centered_tracklet")) as [-> | Hne].
    - destruct (sc3 !! "centered_tracklet") eqn:E3; [by left |]. right.
      rewrite Heq in H. destruct (trackletInCenterVisible s);
        [| rewrite E3 in H; by destruct H].
      destruct (vector_size (availableTracklets s) =? 0) eqn:Ez;
        [rewrite E3 in H; by destruct H |].
      split; [done |]. split; [| done].
      intros Hnil. rewrite Hnil in Ez. discriminate.
    - rewrite F4b in H by done. by left. }
  assert (F3z : forall i t cloud,
                availableTracklets s !! i = Some t ->
                croppedTrackletPointClouds s !! i = Some cloud ->
                clouds !! i = Some (cloudOf env t cloud)).
  { intros i t cloud Ht Hcloud. unfold clouds.
    by rewrite lookup_zip_with, Ht, Hcloud. }
  clearbody sc1 sc2 sc3 clouds. clear Heq. split.
  - intros [] Hv; simpl in Hv; simpl.
    + rewrite F4b by discriminate.
      rewrite F3b by (intros j _; apply cropped_id_other).
      rewrite F2b by (intros j; apply box_id_other). by apply F1a.
    + destruct (Hb Hv) as (Hlen & Hlb & Hspec). split; [done |].
      intros i t Ht. pose proof (lookup_lt_Some _ _ _ Ht) as Hi.
      destruct (lookup_lt_is_Some_2 boxes i) as [ob Hob]; [lia |].
      destruct (Hspec i ob Hob) as (t' & tpose & Ht' & Hpose & ->).
      rewrite Ht in Ht'. injection Ht' as <-.
      exists tpose. split; [done |].
      rewrite F4b by apply box_id_other.
      rewrite F3b; [by apply F2a |].
      intros j Hj Heq. symmetry in Heq.
      apply box_cropped_disjoint in Heq; [done | lia | lia].
    + destruct (Hp Hv) as (Hlen & Hcr). split; [done |].
      intros i t Ht. pose proof (lookup_lt_Some _ _ _ Ht) as Hi.
      destruct (lookup_lt_is_Some_2 (croppedTrackletPointClouds s) i)
        as [cloud Hcloud]; [lia |].
      exists cloud. split; [done |].
      rewrite F4b by apply cropped_id_other.
      apply F3a; [done |]. by apply F3z.
    + intros Hne. destruct (Hc Hv Hne) as (t & tpose & Ht & Hpose & ->).
      exists t, tpose. split; [done |]. split; [done |]. by apply F4a.
  - intros id H. apply F4c in H as [H | (Hv & Hne & ->)];
      [| by exists CenteredSelection].
    apply F3c in H as [H | (Hv & j & Hj & ->)].
    + apply F2c in H as [H | (Hv & j & Hj & ->)].
      * apply F1c in H as [Hv ->]. by exists RawCloud.
      * destruct (Hb Hv) as (Hlen & Hlb & _).
        exists BoundingBoxes. split; [done |]. split; [| done].
        apply layer_id_box; lia.
    + destruct (Hp Hv) as (Hlen & _).
      exists CroppedTracklets. split; [done |]. split; [| done].
      apply layer_id_cropped; lia.
Qed.

(** ** Running a slot with the scene in view *)

Ltac action_scene H1 :=
  lazymatch type of H1 with
  | context [hideTrackletPoints] =>
      first [ apply when_hideTrackletPoints in H1 as ->
            | apply hideTrackletPoints_erased in H1 as (_ & ->) ]
  | context [hideTrackletBoxes] =>
      first [ apply when_hideTrackletBoxes in H1 as ->
            | apply hideTrackletBoxes_erased in H1 as (_ & ->) ]
  | context [showTrackletBoxes] =>
      let Hb := fresh "Hboxes" in
      first [ apply when_showTrackletBoxes in H1 as (? & Hb & ->)
            | apply showTrackletBoxes_drawn in H1 as (? & Hb & ->) ]
  | context [showTrackletPoints ?env] =>
      let Hp := fresh "Hclouds" in
      first [ apply when_showTrackletPoints in H1 as (Hp & ->)
            | apply showTrackletPoints_drawn in H1 as (Hp & ->) ]
  | context [showTrackletInCenter] =>
      let Hc := fresh "Hcenter" in
      first [ apply when_showTrackletInCenter in H1 as (? & Hc & ->)
            | apply showTrackletInCenter_drawn in H1 as (? & Hc & ->) ]
  | context [loadAvailableTracklets] =>
      rewrite loadAvailableTracklets_eq in H1; injection H1 as <-
  | context [loadTrackletPoints] =>
      rewrite loadTrackletPoints_exact in H1 by facts; injection H1 as <-
  | context [updateDatasetLabel ?env] =>
      apply (updateDatasetLabel_ui env) in H1 as [? ->]
  | context [updateFrameLabel] => apply updateFrameLabel_ui in H1 as [? ->]
  | context [updateTrackletLabel] =>
      apply updateTrackletLabel_ui in H1 as [? ->]
  | Ok _ = Ok _ => injection H1 as <-
  | context [vector_at] => idtac
  | context [int_value] => idtac
  end.

Ltac run_scene_step H :=
  lazymatch type of H with
  | (let s := ?X in @?body s) = ?r =>
      lazymatch X with
      | (if ?b then hideTrackletInCenter ?S else _) =>
          rewrite (when_hideTrackletInCenter b S) in H
      | (if ?b then hidePointCloud ?S else _) =>
          rewrite (when_hidePointCloud b S) in H
      | (if ?b then showPointCloud ?S else _) =>
          rewrite (when_showPointCloud b S) in H
      | _ =>
          let X' := eval state_norm in X in
          let T := eval cbv beta in (body X') in change (T = r) in H
      end
  | mbind ?f ?M = Ok ?r =>
      let s1 := fresh "s" in let H1 := fresh "H" in let H2 := fresh "H" in
      pose proof (bind_Ok M f r H) as (s1 & H1 & H2);
      clear H; rename H2 into H;
      norm_in H1; action_scene H1; cbv beta in H
  | _ = Ok _ =>
      let H1 := fresh "H" in
      rename H into H1; norm_in H1; action_scene H1
  end.

Ltac scene_done Hnone :=
  eapply shown_displayed;
    [ exact Hnone
    | lazymatch goal with
      | Hb : context [boxes_of] |- _ => first [exact Hb | intros _; exact Hb]
      end
    | lazymatch goal with
      | Hp : context [clouds_ok] |- _ => first [exact Hp | intros _; exact Hp]
      end
    | lazymatch goal with
      | Hc : context [center_of] |- _ => first [exact Hc | intros _; exact Hc]
      end
    | reflexivity ].

Lemma newFrameRequested_displayed env (value : Z) (s s' : State) :
  displayed env s -> newFrameRequested env value s = Ok s' ->
  displayed env s'.
Proof.
  intros Hd H. destruct (decide (frame_index s = value)) as [<- | Hne].
  { by apply newFrameRequested_same in H as ->. }
  cbv beta delta [newFrameRequested] in H.
  destruct (frame_index s =? value) eqn:E; [lia | clear E Hne].
  pose proof (hidden_None env s Hd) as Hnone. clear Hd.
  destruct s as [di fi ti sc f1 f2 f3 f4 ds pc av cr u].
  repeat run_scene_step H.
  scene_done Hnone.
Qed.

Lemma newDatasetRequested_displayed env (value : Z) (s s' : State) :
  displayed env s -> newDatasetRequested env value s = Ok s' ->
  displayed env s'.
Proof.
  intros Hd H. destruct (decide (dataset_index s = value)) as [<- | Hne].
  { by apply newDatasetRequested_same in H as ->. }
  cbv beta delta [newDatasetRequested] in H.
  destruct (dataset_index s =? value) eqn:E; [lia | clear E Hne].
  pose proof (hidden_None env s Hd) as Hnone. clear Hd.
  destruct s as [di fi ti sc f1 f2 f3 f4 ds pc av cr u].
  repeat run_scene_step H.
  scene_done Hnone.
Qed.

Lemma KittiVisualizerQt_displayed env (cl : CommandLine) (s : State) :
  KittiVisualizerQt env cl = Ok s -> displayed env s.
Proof.
  intros H. cbv beta delta [KittiVisualizerQt] in H.
  destruct (parseCommandLineOptions env cl) as [invalidOptions index].
  destruct (negb (invalidOptions =? 0)); [discriminate |].
  assert (Hnone : forall id : string,
             (∅ : gmap string SceneObject) !! id = None)
    by (intros id; apply lookup_empty).
  repeat run_scene_step H.
  scene_done Hnone.
Qed.

(** ** One layer changed *)

Lemma layer_id_ext (ly : Layer) (s s' : State) (id : string) :
  availableTracklets s' = availableTracklets s ->
  layer_id ly s id -> layer_id ly s' id.
Proof. intros Ha. destruct ly; simpl; by rewrite ?Ha. Qed.

Lemma id_search (lit id : string) (n : nat) :
  (exists j, (j < n)%nat /\ string_drop j lit = id) \/
  ~ (exists j, (j < n)%nat /\ string_drop j lit = id).
Proof.
  induction n as [| n [(j & Hj & E) | Hno]].
  - right. intros (j & Hj & _). lia.
  - left. exists j. split; [lia | done].
  - destruct (decide (string_drop n lit = id)) as [E | Hne].
    + left. exists n. split; [lia | done].
    + right. intros (j & Hj & E). destruct (decide (j = n)) as [-> | Hjn];
        [done |]. apply Hno. exists j. split; [lia | done].
Qed.

Lemma layer_id_dec (ly : Layer) (s : State) (id : string) :
  layer_id ly s id \/ ~ layer_id ly s id.
Proof.
  destruct ly; simpl.
  - destruct (decide (id = "point_cloud")); [by left | by right].
  - destruct (id_search "tracklet_box_" id
                (min (length (availableTracklets s)) 14))
      as [(j & Hj & <-) | Hno].
    + left. apply layer_id_box; lia.
    + right. intros H. apply (layer_id_at BoundingBoxes) in H
        as (j & Hj & Hb & ->).
      apply Hno. exists j. split; [lia | done].
  - destruct (id_search "cropped_tracklet_" id
                (min (length (availableTracklets s)) 18))
      as [(j & Hj & <-) | Hno].
    + left. apply layer_id_cropped; lia.
    + right. intros H. apply (layer_id_at CroppedTracklets) in H
        as (j & Hj & Hb & ->).
      apply Hno. exists j. split; [lia | done].
  - destruct (decide (id = "centered_tracklet")); [by left | by right].
Qed.

(** Two layers share an identifier only if one of them is the boxes and
    there are more than 14 active tracklets. *)
Lemma layer_id_disjoint (ly ly' : Layer) (s : State) (id : string) :
  ly <> ly' -> layer_id ly s id -> layer_id ly' s id ->
  (ly = BoundingBoxes \/ ly' = BoundingBoxes) /\
  (14 < length (availableTracklets s))%nat.
Proof.
  intros Hne H H'. apply layer_id_at in H. apply layer_id_at in H'.
  destruct ly, ly'; try done.
  all: repeat match goal with
              | Hx : exists _, _ |- _ => destruct Hx as (? & ? & ? & ?)
              end; subst.
  all: try discriminate.
  all: try match goal with
           | Hx : context [string_drop ?j "tracklet_box_"] |- _ =>
               destruct (box_id_other j)
           end.
  all: try match goal with
           | Hx : context [string_drop ?j "cropped_tracklet_"] |- _ =>
               destruct (cropped_id_other j)
           end.
  all: try congruence.
  - split; [by left |].
    match goal with
    | Hx : string_drop ?j "tracklet_box_" = string_drop ?j' _ |- _ =>
        destruct (le_lt_dec j' 15); [| lia];
        by apply box_cropped_disjoint in Hx
    end.
  - split; [by right |].
    match goal with
    | Hx : string_drop ?j' "cropped_tracklet_" = string_drop ?j _ |- _ =>
        destruct (le_lt_dec j' 15); [| lia];
        symmetry in Hx; by apply box_cropped_disjoint in Hx
    end.
Qed.

Lemma erased_at0 (lit : string) (n j : nat)
    (scene : gmap string SceneObject) :
  (j < n)%nat -> erased lit 0 n scene !! string_drop j lit = None.
Proof. apply (erased_at lit n 0%nat). Qed.

Lemma Layer_eq_dec (a b : Layer) : {a = b} + {a <> b}.
Proof. decide equality. Qed.

Lemma layer_drawn_ext env (ly : Layer) (s s' : State) :
  frame_index s' = frame_index s -> dataset s' = dataset s ->
  pointCloud s' = pointCloud s ->
  availableTracklets s' = availableTracklets s ->
  croppedTrackletPointClouds s' = croppedTrackletPointClouds s ->
  (ly = CenteredSelection -> tracklet_index s' = tracklet_index s) ->
  (forall id, layer_id ly s id ->
              pclVisualizer s' !! id = pclVisualizer s !! id) ->
  layer_drawn env ly s -> layer_drawn env ly s'.
Proof.
  intros Hf Hds Hpc Ha Hcr Ht Hsc. destruct ly; simpl.
  - intros H. by rewrite Hpc, Hsc.
  - intros [Hlen H]. rewrite Ha, Hf. split; [done |]. intros i t Hi.
    destruct (H i t Hi) as (tpose & Hp & Hl). exists tpose.
    split; [done |]. rewrite Hsc; [done |].
    apply lookup_lt_Some in Hi. apply layer_id_box; lia.
  - intros [Hlen H]. rewrite Ha, Hcr. split; [done |]. intros i t Hi.
    destruct (H i t Hi) as (cloud & Hc & Hl). exists cloud.
    split; [done |]. rewrite Hsc; [done |].
    apply lookup_lt_Some in Hi. apply layer_id_cropped; lia.
  - intros H Hne. rewrite Ha in Hne |- *. rewrite Ht by done. rewrite Hf.
    destruct (H Hne) as (t & tpose & H1 & H2 & H3). exists t, tpose.
    split; [done |]. split; [done |].
    unfold centerOf in *. rewrite Hds, Hpc, Hf. by rewrite Hsc.
Qed.

(** A step that touches the identifiers of one layer only, and leaves the
    loaded data alone, keeps the scene in line with the flags. *)
Lemma displayed_update env (ly : Layer) (s s' : State) :
  displayed env s ->
  frame_index s' = frame_index s -> dataset s' = dataset s ->
  pointCloud s' = pointCloud s ->
  availableTracklets s' = availableTracklets s ->
  croppedTrackletPointClouds s' = croppedTrackletPointClouds s ->
  (ly <> CenteredSelection -> tracklet_index s' = tracklet_index s) ->
  (forall ly', ly' <> ly -> visible ly' s' = visible ly' s) ->
  (forall id, ~ layer_id ly s id ->
              pclVisualizer s' !! id = pclVisualizer s !! id) ->
  (ly = BoundingBoxes -> (length (availableTracklets s) <= 14)%nat) ->
  (visible ly s' = true -> layer_drawn env ly s') ->
  (forall id, layer_id ly s id -> is_Some (pclVisualizer s' !! id) ->
      visible ly s' = true /\
      (ly = CenteredSelection -> availableTracklets s <> [])) ->
  displayed env s'.
Proof.
  intros [Hlayers Honly] Hf Hds Hpc Ha Hcr Ht Hflags Hother Hbound Hdrawn
    Hown.
  split.
  - intros ly' Hv.
    destruct (Layer_eq_dec ly' ly) as [-> | Hne]; [by apply Hdrawn |].
    rewrite Hflags in Hv by done.
    eapply layer_drawn_ext; [done .. | | | by apply Hlayers].
    + intros ->. apply Ht. congruence.
    + intros id Hid. apply Hother. intros Hid'.
      destruct (layer_id_disjoint ly' ly s id Hne Hid Hid')
        as [[-> | ->] Hlen].
      * destruct (Hlayers BoundingBoxes Hv) as [Hle _]. lia.
      * specialize (Hbound eq_refl). lia.
  - intros id H. destruct (layer_id_dec ly s id) as [Hid | Hid].
    + destruct (Hown id Hid H) as [Hv Hne]. exists ly.
      split; [done |]. split; [by eapply layer_id_ext | by rewrite Ha].
    + rewrite Hother in H by done.
      destruct (Honly id H) as (ly0 & Hv0 & Hid0 & Hne0).
      exists ly0. assert (ly0 <> ly) by (by intros ->).
      rewrite Hflags by done.
      split; [done |]. split; [by eapply layer_id_ext | by rewrite Ha].
Qed.

Lemma centered_present env (s : State) :
  displayed env s -> is_Some (pclVisualizer s !! "centered_tracklet") ->
  trackletInCenterVisible s = true /\ availableTracklets s <> [].
Proof.
  intros [_ Honly] H. destruct (Honly _ H) as (ly & Hv & Hid & Hne).
  apply layer_id_at in Hid. destruct ly; simpl in Hv.
  - discriminate.
  - destruct Hid as (j & _ & _ & Hj). symmetry in Hj.
    by apply box_id_other in Hj.
  - destruct Hid as (j & _ & _ & Hj). symmetry in Hj.
    by apply cropped_id_other in Hj.
  - split; [done | by apply Hne].
Qed.

(** A check box switched on draws its layer; switched off it removes every
    identifier of the layer, except that the centred tracklet is left alone
    when no tracklet is active. *)
Lemma checkBox_drawn env (ly : Layer) (s s' : State) :
  dispatch env (checkBox ly true) s = Ok s' -> layer_drawn env ly s'.
Proof.
  intros H. destruct ly; simpl in H |- *.
  - injection H as <-. destruct s. apply lookup_insert_eq.
  - unfold showTrackletBoundingBoxesToggled in H. simpl in H.
    apply showTrackletBoxes_drawn in H
      as (boxes & (Hlen & Hlb & Hspec) & ->).
    simpl in *. split; [done |]. intros i t Hi.
    pose proof (lookup_lt_Some _ _ _ Hi) as Hlt.
    destruct (lookup_lt_is_Some_2 boxes i) as [ob Hob]; [lia |].
    destruct (Hspec i ob Hob) as (t' & tpose & Ht' & Hpose & ->).
    rewrite Hi in Ht'. injection Ht' as <-. exists tpose.
    split; [done |]. apply (drawn_at _ _ 0%nat); [simpl; lia | done].
  - unfold showTrackletPointCloudsToggled in H. simpl in H.
    apply showTrackletPoints_drawn in H as ((Hlen & Hcr) & ->).
    simpl in *. split; [done |]. intros i t Hi.
    pose proof (lookup_lt_Some _ _ _ Hi) as Hlt.
    destruct (lookup_lt_is_Some_2 (croppedTrackletPointClouds s) i)
      as [cloud Hcloud]; [lia |].
    exists cloud. split; [done |].
    apply (drawn_at _ _ 0%nat).
    + pose proof (zip_with_length_le (cloudOf env)
                    (availableTracklets s)
                    (croppedTrackletPointClouds s)). simpl. lia.
    + by rewrite lookup_zip_with, Hi, Hcloud.
  - unfold showTrackletInCenterToggled in H. simpl in H.
    apply showTrackletInCenter_drawn in H as (o & Hc & ->).
    unfold center_of in Hc. simpl in *. intros Hne.
    destruct (Hc Hne) as (t & tpose & Ht & Hpose & ->).
    exists t, tpose. split; [done |]. split; [done |].
    destruct (vector_size (availableTracklets s) =? 0) eqn:Ez.
    + exfalso. apply Hne, vector_size_zero. lia.
    + by rewrite lookup_insert_eq.
Qed.

Lemma checkBox_cleared env (ly : Layer) (s s' : State) :
  dispatch env (checkBox ly false) s = Ok s' ->
  (ly = CenteredSelection -> availableTracklets s <> []) ->
  forall id, layer_id ly s id -> pclVisualizer s' !! id = None.
Proof.
  intros H Hne id Hid. destruct ly; simpl in H, Hid.
  - subst id. injection H as <-. destruct s. apply lookup_delete_eq.
  - unfold showTrackletBoundingBoxesToggled in H. simpl in H.
    apply hideTrackletBoxes_erased in H as (_ & ->).
    apply (layer_id_at BoundingBoxes) in Hid as (j & Hj & _ & ->).
    by apply erased_at0.
  - unfold showTrackletPointCloudsToggled in H. simpl in H.
    apply hideTrackletPoints_erased in H as (_ & ->).
    apply (layer_id_at CroppedTracklets) in Hid as (j & Hj & _ & ->).
    by apply erased_at0.
  - subst id. unfold showTrackletInCenterToggled in H. simpl in H.
    injection H as <-. unfold hideTrackletInCenter. simpl.
    destruct (vector_size (availableTracklets s) =? 0) eqn:Ez.
    + exfalso. apply Hne; [done |]. apply vector_size_zero. lia.
    + simpl. apply lookup_delete_eq.
Qed.

Lemma center_untouched env (value : bool) (s s' : State) :
  availableTracklets s = [] ->
  dispatch env (checkBox CenteredSelection value) s = Ok s' ->
  pclVisualizer s' = pclVisualizer s.
Proof.
  intros Hnil H. simpl in H. unfold showTrackletInCenterToggled in H.
  destruct value; simpl in H.
  - apply showTrackletInCenter_drawn in H as (o & _ & ->).
    simpl. by rewrite Hnil.
  - injection H as <-. unfold hideTrackletInCenter. simpl.
    by rewrite Hnil.
Qed.

Lemma checkBox_displayed env (ly : Layer) (value : bool) (s s' : State) :
  displayed env s -> dispatch env (checkBox ly value) s = Ok s' ->
  displayed env s'.
Proof.
  intros Hd H. pose proof H as Ht.
  apply checkBox_toggled in Ht
    as (Hv & Hflags & (H1 & H2 & H3 & H4 & H5 & H6 & H7 & H8) & Hother).
  apply (displayed_update env ly s s'); try done.
  - intros ->. simpl in H. unfold showTrackletBoundingBoxesToggled in H.
    destruct value; simpl in H.
    + by apply showTrackletBoxes_drawn in H as (boxes & (Hlen & _) & _).
    + by apply hideTrackletBoxes_erased in H as (Hlen & _).
  - intros Hon. assert (value = true) as -> by congruence.
    by eapply checkBox_drawn.
  - intros id Hid Hsome. rewrite Hv.
    assert (Hc : ly = CenteredSelection -> availableTracklets s <> []).
    { intros -> Hnil. simpl in Hid. subst id.
      rewrite (center_untouched env value s s' Hnil H) in Hsome.
      by destruct (centered_present env s Hd Hsome) as [_ Hne]. }
    split; [| done]. destruct value; [done |].
    rewrite (checkBox_cleared env ly s s' H Hc id Hid) in Hsome.
    by destruct Hsome.
Qed.

Lemma newTrackletRequested_displayed env (value : Z) (s s' : State) :
  displayed env s -> newTrackletRequested value s = Ok s' ->
  displayed env s'.
Proof.
  intros Hd H. destruct (decide (tracklet_index s = value)) as [<- | Hne].
  { by apply newTrackletRequested_same in H as ->. }
  cbv beta delta [newTrackletRequested] in H.
  destruct (tracklet_index s =? value) eqn:E; [lia | clear E Hne].
  destruct s as [di fi ti sc f1 f2 f3 f4 ds pc av cr u].
  repeat run_scene_step H.
  apply (displayed_update env CenteredSelection _ _ Hd); try done.
  - intros id Hid. simpl in Hid |- *. unfold removeShape.
    destruct f4; simpl; [| done].
    destruct (vector_size av =? 0); simpl; [done |].
    by rewrite lookup_insert_ne, lookup_delete_ne.
  - simpl. intros ->. unfold center_of in Hcenter. simpl in Hcenter.
    intros Hne. destruct (Hcenter eq_refl Hne) as (t & tpose & Ht & Hp & ->).
    exists t, tpose. split; [done |]. split; [done |].
    destruct (vector_size av =? 0) eqn:Ez.
    + exfalso. apply Hne, vector_size_zero. lia.
    + by rewrite lookup_insert_eq.
  - intros id -> Hsome. simpl in Hsome |- *.
    destruct f4.
    + split; [done |]. intros _.
      destruct (vector_size av =? 0) eqn:Ez.
      * by destruct (centered_present env _ Hd Hsome) as [_ Hne].
      * intros Hnil. rewrite Hnil in Ez. discriminate.
    + by destruct (centered_present env _ Hd Hsome) as [Hf _].
Qed.

Lemma dispatch_displayed env (ev : Event) (s s' : State) :
  displayed env s -> dispatch env ev s = Ok s' -> displayed env s'.
Proof.
  intros Hd H. destruct ev as [v | v | v | b | b | b | b | |].
  - by eapply newDatasetRequested_displayed.
  - by eapply newFrameRequested_displayed.
  - by eapply newTrackletRequested_displayed.
  - by apply (checkBox_displayed env RawCloud b s).
  - by apply (checkBox_displayed env BoundingBoxes b s).
  - by apply (checkBox_displayed env CroppedTracklets b s).
  - by apply (checkBox_displayed env CenteredSelection b s).
  - simpl in H. unfold loadPreviousFrame in H.
    apply bind_Ok in H as (v & _ & H). by eapply newFrameRequested_displayed.
  - simpl in H. unfold loadNextFrame in H.
    apply bind_Ok in H as (v & _ & H). by eapply newFrameRequested_displayed.
Qed.

Lemma session_displayed env (cl : CommandLine) (evs : list Event)
    (s : State) :
  Forall event_ok evs -> session env cl evs = Ok s -> displayed env s.
Proof.
  intros Hevs H. apply session_reachable in H; [| done].
  revert s H. apply (reachable_invariant env (displayed env)).
  - intros cl' s H. by eapply KittiVisualizerQt_displayed.
  - intros ev s s' _ IH _ H. by eapply dispatch_displayed.
Qed.

(** ** When the constructor throws *)

Lemma vector_at_OutOfRange {A} (c c' : Container) (v : list A) (i : Z) :
  vector_at c v i = OutOfRange c' <->
  c' = c /\ vector_size v <= to_size_t i.
Proof.
  unfold vector_at. destruct (to_size_t i <? vector_size v) eqn:E.
  - destruct (v !! Z.to_nat (to_size_t i)) as [a |] eqn:Ea.
    + split; [discriminate | lia].
    + apply lookup_ge_None in Ea. unfold vector_size, to_size_t in *.
      assert (0 <= i mod 2 ^ 64) by (apply Z.mod_pos_bound; lia). lia.
  - split; [intros [= <-]; split; [done | lia] | by intros [-> _]].
Qed.

Lemma KittiVisualizerQt_thrown env (cl : CommandLine) (c : Container) :
  help cl = false ->
  KittiVisualizerQt env cl = OutOfRange c <->
  c = in_availableDatasets /\
  vector_size (availableDatasets env) <= to_size_t (start_index env cl).
Proof.
  intros Hh. unfold start_index.
  assert (Hp : fst (parseCommandLineOptions env cl) = 0).
  { unfold parseCommandLineOptions. rewrite Hh.
    by destruct (dataset_option cl). }
  split.
  - intros H. cbv beta delta [KittiVisualizerQt] in H.
    destruct (parseCommandLineOptions env cl) as [invalidOptions index].
    simpl in Hp |- *. subst invalidOptions. simpl in H.
    apply bind_OutOfRange in H as [H | (number & Hn & H)].
    + by apply vector_at_OutOfRange in H.
    + exfalso. cbv beta in H. repeat run_fail_step H.
  - intros [-> Hsz]. unfold KittiVisualizerQt.
    destruct (parseCommandLineOptions env cl) as [invalidOptions index].
    simpl in Hp, Hsz |- *. subst invalidOptions. simpl.
    by rewrite (proj2 (vector_at_OutOfRange in_availableDatasets
                         in_availableDatasets _ index)).
Qed.

(** ** A frame request loads the frame *)

Lemma newFrameRequested_synchronised env (value : Z) (s s' : State) :
  frame_index s <> value -> newFrameRequested env value s = Ok s' ->
  synchronised s'.
Proof.
  intros Hne H. cbv beta delta [newFrameRequested] in H.
  destruct (frame_index s =? value) eqn:E; [lia | clear E Hne].
  rewrite hideTrackletInCenter_eq in H.
  destruct s as [di fi ti sc f1 f2 f3 f4 ds pc av cr u].
  repeat run_exact_step H.
  all: by repeat split.
Qed.

(** ** The widgets, slot by slot *)

Ltac widgets_done :=
  unfold widgets_current in *; norm_goal;
  repeat match goal with H : _ /\ _ |- _ => destruct H end;
  repeat split;
  first
    [ reflexivity
    | assumption
    | match goal with
      | |- context [if negb ?c then _ else _] => destruct c; reflexivity
      end ].

Lemma newFrameRequested_widgets env (value : Z) (s s' : State) :
  widgets_current env s -> newFrameRequested env value s = Ok s' ->
  widgets_current env s'.
Proof.
  intros Hw H. destruct (decide (frame_index s = value)) as [<- | Hne].
  { by apply newFrameRequested_same in H as ->. }
  cbv beta delta [newFrameRequested] in H.
  destruct (frame_index s =? value) eqn:E; [lia | clear E Hne].
  rewrite hideTrackletInCenter_eq in H.
  destruct s as [di fi ti sc f1 f2 f3 f4 ds pc av cr u].
  repeat run_exact_step H.
  all: widgets_done.
Qed.

Lemma newDatasetRequested_widgets env (value : Z) (s s' : State) :
  widgets_current env s -> newDatasetRequested env value s = Ok s' ->
  widgets_current env s'.
Proof.
  intros Hw H. destruct (decide (dataset_index s = value)) as [<- | Hne].
  { by apply newDatasetRequested_same in H as ->. }
  cbv beta delta [newDatasetRequested] in H.
  destruct (dataset_index s =? value) eqn:E; [lia | clear E Hne].
  rewrite hideTrackletInCenter_eq in H.
  destruct s as [di fi ti sc f1 f2 f3 f4 ds pc av cr u].
  repeat run_exact_step H.
  all: widgets_done.
Qed.

Lemma KittiVisualizerQt_widgets env (cl : CommandLine) (s : State) :
  KittiVisualizerQt env cl = Ok s -> widgets_current env s.
Proof.
  intros H. cbv beta delta [KittiVisualizerQt] in H.
  destruct (parseCommandLineOptions env cl) as [invalidOptions index].
  destruct (negb (invalidOptions =? 0)); [discriminate |].
  repeat run_exact_step H.
  widgets_done.
Qed.

Lemma widgets_current_ext env (s s' : State) :
  widgets_current env s ->
  frame_index s' = frame_index s -> dataset s' = dataset s ->
  availableTracklets s' = availableTracklets s ->
  imageWidget (ui s') = imageWidget (ui s) ->
  slider_dataSet (ui s') = slider_dataSet (ui s) ->
  slider_frame (ui s') = slider_frame (ui s) ->
  slider_tracklet (ui s') = slider_tracklet (ui s) ->
  widgets_current env s'.
Proof.
  unfold widgets_current. intros Hw Hf Hd Ha Hi H1 H2 H3.
  by rewrite Hf, Hd, Ha, Hi, H1, H2, H3.
Qed.

Lemma dispatch_widgets env (ev : Event) (s s' : State) :
  widgets_current env s -> dispatch env ev s = Ok s' ->
  widgets_current env s'.
Proof.
  intros Hw H.
  assert (Htoggle : forall ly b, dispatch env (checkBox ly b) s = Ok s' ->
                                 widgets_current env s').
  { intros ly b Hb.
    apply checkBox_toggled in Hb
      as (_ & _ & (H1 & H2 & H3 & H4 & H5 & H6 & H7 & H8) & _).
    eapply widgets_current_ext; [exact Hw | done .. | | | |];
      by rewrite H8. }
  destruct ev as [v | v | v | b | b | b | b | |]; simpl in H.
  - by eapply newDatasetRequested_widgets.
  - by eapply newFrameRequested_widgets.
  - destruct (decide (tracklet_index s = v)) as [<- | Hne].
    + by apply newTrackletRequested_same in H as ->.
    + apply newTrackletRequested_effect in H as (scene & text & _ & ->);
        [| done].
      by eapply widgets_current_ext.
  - by apply (Htoggle RawCloud b).
  - by apply (Htoggle BoundingBoxes b).
  - by apply (Htoggle CroppedTracklets b).
  - by apply (Htoggle CenteredSelection b).
  - unfold loadPreviousFrame in H. apply bind_Ok in H as (v & _ & H).
    by eapply newFrameRequested_widgets.
  - unfold loadNextFrame in H. apply bind_Ok in H as (v & _ & H).
    by eapply newFrameRequested_widgets.
Qed.

Lemma session_widgets env (cl : CommandLine) (evs : list Event) (s : State) :
  Forall event_ok evs -> session env cl evs = Ok s -> widgets_current env s.
Proof.
  intros Hevs H. apply session_reachable in H; [| done].
  revert s H. apply (reachable_invariant env (widgets_current env)).
  - intros cl' s H. by eapply KittiVisualizerQt_widgets.
  - intros ev s s' _ IH _ H. by eapply dispatch_widgets.
Qed.

(** ** What is displayed depends on the navigation only *)

Lemma displayed_lookup env (s1 s2 : State) (id : string) (o : SceneObject) :
  displayed env s1 -> displayed env s2 ->
  (forall ly, visible ly s1 = visible ly s2) ->
  frame_index s1 = frame_index s2 -> tracklet_index s1 = tracklet_index s2 ->
  dataset s1 = dataset s2 -> pointCloud s1 = pointCloud s2 ->
  availableTracklets s1 = availableTracklets s2 ->
  croppedTrackletPointClouds s1 = croppedTrackletPointClouds s2 ->
  pclVisualizer s1 !! id = Some o -> pclVisualizer s2 !! id = Some o.
Proof.
  intros [Hl1 Honly] [Hl2 _] Hflags Hf Ht Hd Hpc Ha Hcr Hid.
  destruct (Honly id) as (ly & Hv & Hly & Hne); [by rewrite Hid |].
  pose proof (Hl1 ly Hv) as H1. rewrite Hflags in Hv.
  pose proof (Hl2 ly Hv) as H2.
  apply layer_id_at in Hly. destruct ly; simpl in H1, H2.
  - subst id. rewrite H2, <- Hpc, <- H1. done.
  - destruct Hly as (j & Hj & _ & ->).
    destruct (lookup_lt_is_Some_2 _ _ Hj) as [t Hjt].
    destruct H1 as [_ H1]. destruct H2 as [_ H2].
    destruct (H1 j t Hjt) as (p1 & Hp1 & Hs1).
    rewrite Ha in Hjt. destruct (H2 j t Hjt) as (p2 & Hp2 & Hs2).
    rewrite Hf, Hp2 in Hp1. injection Hp1 as ->.
    by rewrite Hs2, <- Hs1.
  - destruct Hly as (j & Hj & _ & ->).
    destruct (lookup_lt_is_Some_2 _ _ Hj) as [t Hjt].
    destruct H1 as [_ H1]. destruct H2 as [_ H2].
    destruct (H1 j t Hjt) as (c1 & Hc1 & Hs1).
    rewrite Ha in Hjt. destruct (H2 j t Hjt) as (c2 & Hc2 & Hs2).
    rewrite Hcr, Hc2 in Hc1. injection Hc1 as ->.
    by rewrite Hs2, <- Hs1.
  - subst id. specialize (Hne eq_refl).
    destruct (H1 Hne) as (t1 & p1 & Ht1 & Hp1 & Hs1).
    rewrite Ha in Hne. destruct (H2 Hne) as (t2 & p2 & Ht2 & Hp2 & Hs2).
    rewrite Ha, Ht, Ht2 in Ht1. injection Ht1 as <-.
    rewrite Hf, Hp2 in Hp1. injection Hp1 as <-.
    rewrite Hs2, <- Hid, Hs1. unfold centerOf. by rewrite Hd, Hpc, Hf.
Qed.

Lemma displayed_same_scene env (s1 s2 : State) :
  displayed env s1 -> displayed env s2 ->
  (forall ly, visible ly s1 = visible ly s2) ->
  frame_index s1 = frame_index s2 -> tracklet_index s1 = tracklet_index s2 ->
  dataset s1 = dataset s2 -> pointCloud s1 = pointCloud s2 ->
  availableTracklets s1 = availableTracklets s2 ->
  croppedTrackletPointClouds s1 = croppedTrackletPointClouds s2 ->
  pclVisualizer s1 = pclVisualizer s2.
Proof.
  intros H1 H2 Hflags Hf Ht Hd Hpc Ha Hcr. apply map_eq. intros id.
  destruct (pclVisualizer s1 !! id) as [o |] eqn:E1.
  - symmetry. by eapply (displayed_lookup env s1 s2).
  - destruct (pclVisualizer s2 !! id) as [o |] eqn:E2; [| done].
    eapply (displayed_lookup env s2 s1) in E2; [| done ..].
    by rewrite E1 in E2.
Qed.

Lemma labels_same env (s1 s2 : State) :
  labels_current env s1 -> labels_current env s2 ->
  dataset_index s1 = dataset_index s2 -> frame_index s1 = frame_index s2 ->
  tracklet_index s1 = tracklet_index s2 -> dataset s1 = dataset s2 ->
  availableTracklets s1 = availableTracklets s2 ->
  croppedTrackletPointClouds s1 = croppedTrackletPointClouds s2 ->
  label_dataSet (ui s1) = label_dataSet (ui s2) /\
  label_frame (ui s1) = label_frame (ui s2) /\
  label_tracklet (ui s1) = label_tracklet (ui s2).
Proof.
  intros (Hd1 & Hf1 & Ht1) (Hd2 & Hf2 & Ht2) Hdi Hfi Hti Hds Ha Hcr.
  repeat split.
  - unfold updateDatasetLabel in Hd1, Hd2. rewrite Hdi in Hd1.
    destruct (int_value (dataset_index s2 + 1)) as [n | | |];
      try discriminate. simpl in Hd1, Hd2.
    injection Hd1 as Hd1. injection Hd2 as Hd2.
    apply (f_equal (fun s => label_dataSet (ui s))) in Hd1, Hd2.
    simpl in Hd1, Hd2. by rewrite <- Hd1, <- Hd2.
  - unfold updateFrameLabel in Hf1, Hf2. rewrite Hfi, Hds in Hf1.
    destruct (int_value (frame_index s2 + 1)) as [n | | |];
      try discriminate. simpl in Hf1, Hf2.
    injection Hf1 as Hf1. injection Hf2 as Hf2.
    apply (f_equal (fun s => label_frame (ui s))) in Hf1, Hf2.
    simpl in Hf1, Hf2. by rewrite <- Hf1, <- Hf2.
  - unfold updateTrackletLabel in Ht1, Ht2. rewrite Hti, Ha, Hcr in Ht1.
    destruct (vector_size (availableTracklets s2) =? 0).
    + injection Ht1 as Ht1. injection Ht2 as Ht2.
      apply (f_equal (fun s => label_tracklet (ui s))) in Ht1, Ht2.
      simpl in Ht1, Ht2. by rewrite <- Ht1, <- Ht2.
    + destruct (vector_at in_availableTracklets _ _) as [t | | |];
        try discriminate. simpl in Ht1, Ht2.
      destruct (int_value (tracklet_index s2 + 1)) as [n | | |];
        try discriminate. simpl in Ht1, Ht2.
      destruct (vector_at in_croppedTrackletPointClouds _ _) as [c | | |];
        try discriminate. simpl in Ht1, Ht2.
      injection Ht1 as Ht1. injection Ht2 as Ht2.
      apply (f_equal (fun s => label_tracklet (ui s))) in Ht1, Ht2.
      simpl in Ht1, Ht2. by rewrite <- Ht1, <- Ht2.
Qed.

Lemma synchronised_same (s1 s2 : State) :
  synchronised s1 -> synchronised s2 ->
  frame_index s1 = frame_index s2 -> dataset s1 = dataset s2 ->
  pointCloud s1 = pointCloud s2 /\
  availableTracklets s1 = availableTracklets s2 /\
  croppedTrackletPointClouds s1 = croppedTrackletPointClouds s2.
Proof.
  intros (Hp1 & Ha1 & Hc1) (Hp2 & Ha2 & Hc2) Hf Hd.
  assert (Hp : pointCloud s1 = pointCloud s2)
    by (by rewrite Hp1, Hp2, Hf, Hd).
  assert (Ha : availableTracklets s1 = availableTracklets s2)
    by (by rewrite Ha1, Ha2, Hf, Hd).
  repeat split; [done | done |].
  rewrite Hc1, Hc2, Ha. unfold displayCloud. by rewrite Hd, Hp, Hf.
Qed.

(** ** The scene in a session *)

(** X10.  In every state of a session each layer whose flag is set is in
    the scene, drawn from the current data: the cloud of the frame under
    "point_cloud"; for each active tracklet, at its position in
    [availableTracklets], its box at the pose of the current frame and its
    cropped cloud in the colour of its type; and, when a tracklet is
    active, the selected one moved to the origin under
    "centered_tracklet". *)
Theorem scene_shows_visible_layers env (cl : CommandLine)
    (evs : list Event) (s : State) (ly : Layer) :
  Forall event_ok evs -> session env cl evs = Ok s ->
  visible ly s = true -> layer_drawn env ly s.
Proof.
  intros Hevs H Hv. apply session_displayed in H as [Hl _]; [| done].
  by apply Hl.
Qed.

Lemma scene_shows_visible_layers_witness :
  Forall event_ok demo_events /\
  session Demo.env Demo.cl demo_events = Ok demo_end /\
  visible RawCloud demo_end = true /\
  layer_drawn Demo.env RawCloud demo_end.
Proof.
  assert (Hevs : Forall event_ok demo_events)
    by (repeat constructor; vm_compute; discriminate).
  assert (Hend : session Demo.env Demo.cl demo_events = Ok demo_end)
    by (vm_compute; reflexivity).
  assert (Hv : visible RawCloud demo_end = true)
    by (vm_compute; reflexivity).
  split; [exact Hevs |]. split; [exact Hend |]. split; [exact Hv |].
  exact (scene_shows_visible_layers Demo.env Demo.cl demo_events demo_end
           RawCloud Hevs Hend Hv).
Defined.



(** X12.  A check box switched on draws its layer, from any state in which
    its slot returns: [showPointCloud], [showTrackletBoxes],
    [showTrackletPoints] and [showTrackletInCenter] put into the scene what
    [layer_drawn] lists, and the two loops return only for at most 14 boxes
    and at most 18 cropped clouds. *)
Theorem toggle_on_draws env (ly : Layer) (s s' : State) :
  dispatch env (checkBox ly true) s = Ok s' -> layer_drawn env ly s'.
Proof. apply checkBox_drawn. Qed.

Lemma toggle_on_draws_witness :
  dispatch Demo.env (checkBox BoundingBoxes true) demo_end = Ok demo_shown /\
  layer_drawn Demo.env BoundingBoxes demo_shown.
Proof.
  assert (H : dispatch Demo.env (checkBox BoundingBoxes true) demo_end
              = Ok demo_shown) by (vm_compute; reflexivity).
  split; [exact H |].
  exact (toggle_on_draws Demo.env BoundingBoxes demo_end demo_shown H).
Defined.

(** X13.  A check box switched off removes every identifier of its layer
    from the scene.  The centred tracklet is the exception:
    [hideTrackletInCenter] removes it only when a tracklet is active. *)
Theorem toggle_off_clears env (ly : Layer) (s s' : State) (id : string) :
  dispatch env (checkBox ly false) s = Ok s' ->
  (ly = CenteredSelection -> availableTracklets s <> []) ->
  layer_id ly s id -> pclVisualizer s' !! id = None.
Proof. intros H Hne. by apply (checkBox_cleared env ly s s'). Qed.

Lemma toggle_off_clears_witness :
  dispatch Demo.env (checkBox CroppedTracklets false) demo_start
    = Ok demo_toggled /\
  layer_id CroppedTracklets demo_start "cropped_tracklet_" /\
  pclVisualizer demo_toggled !! "cropped_tracklet_" = None.
Proof.
  assert (H : dispatch Demo.env (checkBox CroppedTracklets false) demo_start
              = Ok demo_toggled) by (vm_compute; reflexivity).
  assert (Hid : layer_id CroppedTracklets demo_start "cropped_tracklet_").
  { exists 0. split; [| vm_compute; reflexivity].
    assert (vector_size (availableTracklets demo_start) = 1) as ->
      by (vm_compute; reflexivity). lia. }
  split; [exact H |]. split; [exact Hid |].
  apply (toggle_off_clears Demo.env CroppedTracklets demo_start demo_toggled
           "cropped_tracklet_" H); [discriminate | exact Hid].
Defined.

(** ** Exceptions *)

(** X14.  Once the constructor has returned, no slot throws
    [std::out_of_range], whatever events arrive and whatever [int] values
    they carry: every [at()] on [availableDatasets], [availableTracklets],
    [croppedTrackletPointClouds] and [poses] is in range. *)
Theorem constructed_never_throws env (cl : CommandLine) (evs : list Event)
    (s : State) (c : Container) :
  KittiVisualizerQt env cl = Ok s -> Forall event_ok evs ->
  run env evs s <> OutOfRange c.
Proof.
  intros Hs Hevs. apply run_safe; [| done].
  by eapply KittiVisualizerQt_consistent.
Qed.

Lemma constructed_never_throws_witness :
  KittiVisualizerQt Demo.env Demo.cl = Ok demo_start /\
  Forall event_ok demo_events /\
  run Demo.env demo_events demo_start <> OutOfRange in_availableTracklets.
Proof.
  assert (Hs : KittiVisualizerQt Demo.env Demo.cl = Ok demo_start)
    by (vm_compute; reflexivity).
  assert (Hevs : Forall event_ok demo_events)
    by (repeat constructor; vm_compute; discriminate).
  split; [exact Hs |]. split; [exact Hevs |].
  exact (constructed_never_throws Demo.env Demo.cl demo_events demo_start
           in_availableTracklets Hs Hevs).
Defined.

(** X15.  Without [--help] the constructor throws [std::out_of_range]
    exactly when the index it starts with is not a position of
    [availableDatasets], and then from
    [availableDatasets.at(dataset_index)]; nothing after that look-up
    throws. *)
Theorem constructor_throws_iff env (cl : CommandLine) (c : Container) :
  help cl = false ->
  KittiVisualizerQt env cl = OutOfRange c <->
  c = in_availableDatasets /\
  vector_size (availableDatasets env) <= to_size_t (start_index env cl).
Proof. apply KittiVisualizerQt_thrown. Qed.

Lemma constructor_throws_iff_witness :
  help Demo.cl = false /\
  KittiVisualizerQt demo_empty Demo.cl = OutOfRange in_availableDatasets.
Proof.
  split; [reflexivity |].
  apply (constructor_throws_iff demo_empty Demo.cl in_availableDatasets);
    [reflexivity |].
  split; [reflexivity | vm_compute; discriminate].
Defined.

(** ** A frame number set from outside *)

(** X16.  [setFrameNumber] changes [frame_index] and nothing else, and a
    frame request for that number then returns at once: the cloud, the
    tracklets, the scene and the widgets stay those of the frame before.
    A request for any other frame that returns loads the data of the frame
    it arrives at. *)
Theorem setFrameNumber_not_shown env (frameNumber : Z) (s : State) :
  newFrameRequested env frameNumber (setFrameNumber frameNumber s)
    = Ok (setFrameNumber frameNumber s) /\
  pointCloud (setFrameNumber frameNumber s) = pointCloud s /\
  availableTracklets (setFrameNumber frameNumber s) = availableTracklets s /\
  croppedTrackletPointClouds (setFrameNumber frameNumber s)
    = croppedTrackletPointClouds s /\
  pclVisualizer (setFrameNumber frameNumber s) = pclVisualizer s /\
  ui (setFrameNumber frameNumber s) = ui s /\
  forall value s',
    value <> frameNumber ->
    newFrameRequested env value (setFrameNumber frameNumber s) = Ok s' ->
    synchronised s'.
Proof.
  split.
  { unfold newFrameRequested, setFrameNumber. destruct s. simpl.
    by rewrite Z.eqb_refl. }
  do 5 (split; [by destruct s |]).
  intros value s' Hne H.
  apply newFrameRequested_synchronised in H; [done |].
  destruct s. simpl. congruence.
Qed.

Lemma setFrameNumber_not_shown_witness :
  newFrameRequested Demo.env 5 (setFrameNumber 4 demo_start) = Ok demo_set /\
  synchronised demo_set.
Proof.
  assert (H : newFrameRequested Demo.env 5 (setFrameNumber 4 demo_start)
              = Ok demo_set) by (vm_compute; reflexivity).
  split; [exact H |].
  destruct (setFrameNumber_not_shown Demo.env 4 demo_start)
    as (_ & _ & _ & _ & _ & _ & Hnext).
  apply (Hnext 5 demo_set); [discriminate | exact H].
Defined.

(** ** The widgets in a session *)

(** X17.  In every state of a session the image shown is that of the
    current frame, and the ranges last given to the three sliders are the
    positions of [availableDatasets], the frames of the current data set
    and the positions of [availableTracklets] (a single position when there
    is none). *)
Theorem widgets_follow_navigation env (cl : CommandLine) (evs : list Event)
    (s : State) :
  Forall event_ok evs -> session env cl evs = Ok s ->
  vector_size (availableDatasets env) <= INT_MAX ->
  imageWidget (ui s) = getImageFileName (dataset s) (frame_index s) /\
  (minimum (slider_dataSet (ui s)) = 0 /\
   maximum (slider_dataSet (ui s)) = vector_size (availableDatasets env) - 1) /\
  (minimum (slider_frame (ui s)) = 0 /\
   maximum (slider_frame (ui s)) = getNumberOfFrames (dataset s) - 1) /\
  (minimum (slider_tracklet (ui s)) = 0 /\
   maximum (slider_tracklet (ui s))
     = Z.max 0 (vector_size (availableTracklets s) - 1)).
Proof.
  intros Hevs H Hn. pose proof H as Hw.
  apply session_widgets in Hw as (Hi & H1 & H2 & H3 & H4 & H5 & H6);
    [| done].
  apply session_reachable in H; [| done].
  apply reachable_consistent in H as [_ _ _ Hb Hd].
  split; [done |]. split; [split; [done |] |].
  { rewrite H2. unfold INT_MAX in Hn.
    rewrite to_size_t_small by lia.
    apply to_int_small. unfold is_int, INT_MIN, INT_MAX. lia. }
  split; [done |]. split; [done |]. rewrite H6.
  pose proof (vector_size_nonneg (availableTracklets s)) as Hp.
  destruct (vector_size (availableTracklets s) =? 0) eqn:Ez; [lia |].
  unfold INT_MAX in Hb. rewrite to_size_t_small by lia.
  rewrite to_int_small by (unfold is_int, INT_MIN, INT_MAX; lia). lia.
Qed.

Lemma widgets_follow_navigation_witness :
  Forall event_ok demo_events /\
  session Demo.env Demo.cl demo_events = Ok demo_end /\
  vector_size (availableDatasets Demo.env) <= INT_MAX /\
  maximum (slider_frame (ui demo_end)) = 11.
Proof.
  assert (Hevs : Forall event_ok demo_events)
    by (repeat constructor; vm_compute; discriminate).
  assert (Hend : session Demo.env Demo.cl demo_events = Ok demo_end)
    by (vm_compute; reflexivity).
  assert (Hn : vector_size (availableDatasets Demo.env) <= INT_MAX)
    by (vm_compute; discriminate).
  split; [exact Hevs |]. split; [exact Hend |]. split; [exact Hn |].
  destruct (widgets_follow_navigation Demo.env Demo.cl demo_events demo_end
              Hevs Hend Hn) as (_ & _ & (_ & Hmax) & _).
  rewrite Hmax. vm_compute. reflexivity.
Defined.

(** ** The display as a function of the navigation *)

(** X18.  What a session displays depends only on where it stands: two
    sessions over the same configuration that end with the same three
    indices and the same four flags hold the same data set, the same cloud
    and tracklet sequences, the same scene, the same three labels and the
    same image, whatever events led there. *)
Theorem display_determined env (cl1 cl2 : CommandLine)
    (evs1 evs2 : list Event) (s1 s2 : State) :
  Forall event_ok evs1 -> Forall event_ok evs2 ->
  session env cl1 evs1 = Ok s1 -> session env cl2 evs2 = Ok s2 ->
  dataset_index s1 = dataset_index s2 ->
  frame_index s1 = frame_index s2 ->
  tracklet_index s1 = tracklet_index s2 ->
  (forall ly, visible ly s1 = visible ly s2) ->
  dataset s1 = dataset s2 /\
  pointCloud s1 = pointCloud s2 /\
  availableTracklets s1 = availableTracklets s2 /\
  croppedTrackletPointClouds s1 = croppedTrackletPointClouds s2 /\
  pclVisualizer s1 = pclVisualizer s2 /\
  label_dataSet (ui s1) = label_dataSet (ui s2) /\
  label_frame (ui s1) = label_frame (ui s2) /\
  label_tracklet (ui s1) = label_tracklet (ui s2) /\
  imageWidget (ui s1) = imageWidget (ui s2).
Proof.
  intros Hevs1 Hevs2 H1 H2 Hdi Hfi Hti Hflags.
  destruct (session_exact env cl1 evs1 s1 Hevs1 H1) as [Hsy1 Hla1].
  destruct (session_exact env cl2 evs2 s2 Hevs2 H2) as [Hsy2 Hla2].
  pose proof (session_displayed env cl1 evs1 s1 Hevs1 H1) as Hsc1.
  pose proof (session_displayed env cl2 evs2 s2 Hevs2 H2) as Hsc2.
  destruct (session_widgets env cl1 evs1 s1 Hevs1 H1) as (Hi1 & _).
  destruct (session_widgets env cl2 evs2 s2 Hevs2 H2) as (Hi2 & _).
  apply session_reachable in H1; [| done].
  apply session_reachable in H2; [| done].
  apply reachable_dataset_current in H1 as (n1 & Hn1 & Hd1).
  apply reachable_dataset_current in H2 as (n2 & Hn2 & Hd2).
  assert (Hd : dataset s1 = dataset s2).
  { rewrite Hdi, Hn2 in Hn1. injection Hn1 as <-. by rewrite Hd1, Hd2. }
  destruct (synchronised_same s1 s2 Hsy1 Hsy2 Hfi Hd) as (Hpc & Ha & Hcr).
  destruct (labels_same env s1 s2 Hla1 Hla2 Hdi Hfi Hti Hd Ha Hcr)
    as (Hl1 & Hl2 & Hl3).
  repeat (split; [done |]).
  split; [by apply (displayed_same_scene env) |].
  repeat (split; [done |]).
  by rewrite Hi1, Hi2, Hd, Hfi.
Qed.

Lemma display_determined_witness :
  session Demo.env Demo.cl [slider_frame_valueChanged 5] = Ok demo_there /\
  session Demo.env Demo.cl
    [slider_frame_valueChanged 7; key_Left; key_Left] = Ok demo_back /\
  pclVisualizer demo_there = pclVisualizer demo_back /\
  label_frame (ui demo_there) = label_frame (ui demo_back).
Proof.
  assert (H1 : session Demo.env Demo.cl [slider_frame_valueChanged 5]
               = Ok demo_there) by (vm_compute; reflexivity).
  assert (H2 : session Demo.env Demo.cl
                 [slider_frame_valueChanged 7; key_Left; key_Left]
               = Ok demo_back) by (vm_compute; reflexivity).
  assert (Hevs1 : Forall event_ok [slider_frame_valueChanged 5])
    by (repeat constructor; vm_compute; discriminate).
  assert (Hevs2 : Forall event_ok
                    [slider_frame_valueChanged 7; key_Left; key_Left])
    by (repeat constructor; vm_compute; discriminate).
  split; [exact H1 |]. split; [exact H2 |].
  destruct (display_determined Demo.env Demo.cl Demo.cl _ _ _ _
              Hevs1 Hevs2 H1 H2)
    as (_ & _ & _ & _ & Hscene & _ & Hframe & _).
  - vm_compute. reflexivity.
  - vm_compute. reflexivity.
  - vm_compute. reflexivity.
  - intros []; vm_compute; reflexivity.
  - split; [exact Hscene | exact Hframe].
Defined.

(** * Sessions that return *)

(** ** Calls that return *)

Lemma returns_Ok {A} (a : A) : returns (Ok a).
Proof. by exists a. Qed.

Lemma returns_bind {A B} (m : result A) (f : A -> result B) :
  returns m -> (forall a, m = Ok a -> returns (f a)) ->
  returns (a ← m; f a).
Proof. intros [a ->] Hf. simpl. by apply Hf. Qed.

Lemma returns_when (b : bool) (f : State -> result State) (s : State) :
  returns (f s) -> returns (if b then f s else Ok s).
Proof. intros H. destruct b; [done | apply returns_Ok]. Qed.

Lemma for_loop_returns {S} (body : Z -> S -> result S) (n : nat) :
  forall (i : Z) (s : S),
    (forall j s, i <= j < i + Z.of_nat n -> returns (body j s)) ->
    returns (for_loop n i body s).
Proof.
  induction n as [| n IH]; intros i s Hb; simpl.
  - apply returns_Ok.
  - apply returns_bind; [apply Hb; lia |].
    intros s1 _. apply IH. intros j s2 Hj. apply Hb. lia.
Qed.

Lemma int_value_returns (n : Z) : is_int n -> int_value n = Ok n.
Proof.
  unfold int_value, is_int. intros H.
  destruct ((INT_MIN <=? n) && (n <=? INT_MAX)) eqn:E; [done | lia].
Qed.

Lemma viewer_id_returns (lit : string) (i : Z) :
  0 <= i <= Z.of_nat (String.length lit) ->
  of_option (literal_plus lit i)
    = Ok (string_drop (Z.to_nat i) lit).
Proof.
  intros H. unfold literal_plus.
  destruct ((0 <=? i) && (i <=? Z.of_nat (String.length lit))) eqn:E;
    [done | lia].
Qed.

Ltac bind_go := cbv beta iota zeta delta [mbind result_bind bind].

Lemma pose_returns (frame : Z) (ts : list KittiTracklet) (t : KittiTracklet)
    (i : nat) :
  covers frame ts ->
  Forall (fun t => vector_size (poses t) <= INT_MAX) ts ->
  ts !! i = Some t ->
  int_value (frame - first_frame t) = Ok (frame - first_frame t) /\
  exists tpose,
    vector_at in_poses (poses t) (frame - first_frame t) = Ok tpose.
Proof.
  intros Hc Hp Ht. unfold covers in Hc. rewrite Forall_lookup in Hc, Hp.
  specialize (Hc _ _ Ht). specialize (Hp _ _ Ht). simpl in Hp.
  unfold INT_MAX in Hp. split.
  - apply int_value_returns. unfold is_int, INT_MIN, INT_MAX. lia.
  - destruct (vector_at_inside in_poses (poses t) (frame - first_frame t))
      as (p & _ & Hp'); [done | lia | eauto].
Qed.

Lemma showTrackletBoxes_returns (s : State) :
  (length (availableTracklets s) <= 14)%nat ->
  covers (frame_index s) (availableTracklets s) ->
  Forall (fun t => vector_size (poses t) <= INT_MAX) (availableTracklets s) ->
  returns (showTrackletBoxes s).
Proof.
  intros Hlen Hc Hp. unfold showTrackletBoxes.
  apply returns_bind; [| intros; apply returns_Ok].
  apply for_loop_returns. intros j sc Hj.
  destruct (available_at (availableTracklets s) j) as (t & Hlk & Hat);
    [unfold vector_size, INT_MAX; lia | done |].
  rewrite Hat. bind_go.
  destruct (pose_returns _ _ _ _ Hc Hp Hlk) as (Hn & tpose & Hpose).
  rewrite Hn, Hpose, viewer_id_returns by (simpl; lia).
  apply returns_Ok.
Qed.

Lemma hideTrackletBoxes_returns (s : State) :
  (length (availableTracklets s) <= 14)%nat ->
  returns (hideTrackletBoxes s).
Proof.
  intros Hlen. unfold hideTrackletBoxes.
  apply returns_bind; [| intros; apply returns_Ok].
  apply for_loop_returns. intros j sc Hj.
  rewrite viewer_id_returns by (simpl; lia). apply returns_Ok.
Qed.

Lemma hideTrackletPoints_returns (s : State) :
  (length (availableTracklets s) <= 18)%nat ->
  returns (hideTrackletPoints s).
Proof.
  intros Hlen. unfold hideTrackletPoints.
  apply returns_bind; [| intros; apply returns_Ok].
  apply for_loop_returns. intros j sc Hj.
  rewrite viewer_id_returns by (simpl; lia). apply returns_Ok.
Qed.

Lemma showTrackletPoints_returns env (s : State) :
  (length (availableTracklets s) <= 18)%nat ->
  length (croppedTrackletPointClouds s) = length (availableTracklets s) ->
  returns (showTrackletPoints env s).
Proof.
  intros Hlen Hcr. unfold showTrackletPoints.
  apply returns_bind; [| intros; apply returns_Ok].
  apply for_loop_returns. intros j sc Hj.
  destruct (available_at (availableTracklets s) j) as (t & Hlk & Hat);
    [unfold vector_size, INT_MAX; lia | done |].
  rewrite Hat. bind_go.
  destruct (getTrackletColor env t) as [[r g] b].
  destruct (vector_at_inside in_croppedTrackletPointClouds
              (croppedTrackletPointClouds s) j) as (c & _ & Hc);
    [unfold vector_size; lia | lia |].
  rewrite Hc, viewer_id_returns by (simpl; lia).
  apply returns_Ok.
Qed.

Lemma showTrackletInCenter_returns (s : State) :
  (length (availableTracklets s) <= 14)%nat ->
  selected (tracklet_index s) (availableTracklets s) ->
  covers (frame_index s) (availableTracklets s) ->
  Forall (fun t => vector_size (poses t) <= INT_MAX) (availableTracklets s) ->
  returns (showTrackletInCenter s).
Proof.
  intros Hlen Hsel Hc Hp. unfold showTrackletInCenter.
  destruct (vector_size (availableTracklets s) =? 0) eqn:Ez;
    [apply returns_Ok |].
  assert (Hb : vector_size (availableTracklets s) <= INT_MAX)
    by (unfold vector_size, INT_MAX; lia).
  destruct (available_at (availableTracklets s) (tracklet_index s))
    as (t & Hlk & Hat); [done | apply selected_at; (done || lia) |].
  rewrite Hat. bind_go.
  destruct (pose_returns _ _ _ _ Hc Hp Hlk) as (Hn & tpose & Hpose).
  rewrite Hn, Hpose. apply returns_Ok.
Qed.

Lemma updateDatasetLabel_returns env (s : State) :
  is_int (dataset_index s + 1) -> returns (updateDatasetLabel env s).
Proof.
  intros H. unfold updateDatasetLabel. rewrite int_value_returns by done.
  apply returns_Ok.
Qed.

Lemma updateFrameLabel_returns (s : State) :
  is_int (frame_index s + 1) -> returns (updateFrameLabel s).
Proof.
  intros H. unfold updateFrameLabel. rewrite int_value_returns by done.
  apply returns_Ok.
Qed.

Lemma updateTrackletLabel_returns (s : State) :
  (length (availableTracklets s) <= 14)%nat ->
  selected (tracklet_index s) (availableTracklets s) ->
  length (croppedTrackletPointClouds s) = length (availableTracklets s) ->
  returns (updateTrackletLabel s).
Proof.
  intros Hlen Hsel Hcr. unfold updateTrackletLabel.
  destruct (vector_size (availableTracklets s) =? 0) eqn:Ez;
    [apply returns_Ok |].
  assert (Hb : vector_size (availableTracklets s) <= INT_MAX)
    by (unfold vector_size, INT_MAX; lia).
  pose proof (selected_at _ _ Hsel Hb ltac:(lia)) as Hi.
  destruct (available_at (availableTracklets s) (tracklet_index s))
    as (t & Hlk & Hat); [done | done |].
  rewrite Hat. bind_go.
  rewrite int_value_returns
    by (unfold is_int, INT_MIN, INT_MAX in *; lia).
  destruct (vector_at_inside in_croppedTrackletPointClouds
              (croppedTrackletPointClouds s) (tracklet_index s))
    as (c & _ & Hc); [unfold vector_size; lia | lia |].
  rewrite Hc. apply returns_Ok.
Qed.

(** ** Slots that return *)

Lemma Forall_list_filter {A} (P : A -> Prop) (f : A -> bool) (l : list A) :
  Forall P l -> Forall P (List.filter f l).
Proof.
  induction 1 as [| a l Ha _ IH]; simpl; [done |].
  destruct (f a); [by constructor | done].
Qed.

Lemma filter_take_length {A} (f : A -> bool) (l : list A) :
  forall n, (length (List.filter f (take n l)) <= length (List.filter f l))%nat.
Proof.
  induction l as [| a l IH]; intros [| n]; simpl; try lia.
  specialize (IH n). destruct (f a); simpl; lia.
Qed.

Lemma showable_few (d : KittiDataset) (frame : Z) (n : nat) :
  showable d ->
  (length (List.filter (activeAt frame) (take n (getTracklets d))) <= 14)%nat.
Proof.
  intros (_ & Hfew & _). specialize (Hfew frame).
  pose proof (filter_take_length (activeAt frame) (getTracklets d) n). lia.
Qed.

Lemma showable_poses (d : KittiDataset) (frame : Z) (n : nat) :
  showable d ->
  Forall (fun t => vector_size (poses t) <= INT_MAX)
    (List.filter (activeAt frame) (take n (getTracklets d))).
Proof.
  intros (_ & _ & Hp). apply Forall_list_filter. by apply Forall_take.
Qed.

Lemma clamp_frame_is_int (value n : Z) :
  0 < n <= INT_MAX -> is_int (clamp_lower (clamp_upper value n) + 1).
Proof.
  intros Hn. rewrite clamp_frame. unfold is_int, INT_MIN, INT_MAX in *. lia.
Qed.

Lemma showable_frames (d : KittiDataset) :
  showable d -> 0 < getNumberOfFrames d <= INT_MAX.
Proof. by intros (? & _). Qed.

Lemma clamp_upper_is_int (x n : Z) :
  0 <= x -> 0 < n <= INT_MAX -> is_int (clamp_upper x n + 1).
Proof.
  intros Hx Hn. unfold clamp_upper, is_int, INT_MIN, INT_MAX in *.
  destruct (x >=? n) eqn:E; lia.
Qed.

Lemma clamp_index_succ_is_int (x n : Z) :
  is_int x -> 0 < n <= INT_MAX -> is_int (clamp_index x n + 1).
Proof.
  intros Hx Hn. pose proof (clamp_index_range x n Hx ltac:(lia)).
  unfold is_int, INT_MIN, INT_MAX in *. lia.
Qed.

Lemma dataset_at_returns (numbers : list Z) (index : Z) :
  0 < vector_size numbers -> vector_size numbers <= INT_MAX ->
  is_int index ->
  returns (vector_at in_availableDatasets numbers
             (clamp_index index (vector_size numbers))).
Proof.
  intros Hd Hn Hi.
  pose proof (clamp_index_range index (vector_size numbers) Hi Hd) as Hr.
  destruct (vector_at_inside in_availableDatasets numbers
              (clamp_index index (vector_size numbers)))
    as (a & _ & Ha); [done | unfold INT_MAX in Hn; lia |].
  rewrite Ha. apply returns_Ok.
Qed.

Lemma few_enough (n : nat) : (n <= 14)%nat -> (n <= 18)%nat.
Proof. lia. Qed.

(** The data set at hand can be shown. *)
Ltac showable_hyp :=
  first
    [ assumption
    | match goal with H : forall number, showable _ |- _ => apply H end ].

(** The precondition of the call in the goal, from what is known of the
    state at this point. *)
Ltac ready_side :=
  norm_goal; simpl;
  first
    [ assumption
    | apply showable_few; showable_hyp
    | apply few_enough, showable_few; showable_hyp
    | apply showable_poses; showable_hyp
    | apply active_covers; first [apply filter_active | assumption]
    | apply clamp_selected; assumption
    | apply selected_zero
    | apply clamp_frame_is_int; apply showable_frames; showable_hyp
    | apply clamp_upper_is_int;
        [lia | apply showable_frames; showable_hyp]
    | apply clamp_index_succ_is_int; [assumption | split; assumption]
    | apply List.length_map
    | lia
    | unfold is_int, INT_MIN, INT_MAX in *; lia ].

Ltac op_returns :=
  try apply returns_when;
  lazymatch goal with
  | |- returns (Ok _) => apply returns_Ok
  | |- returns (vector_at in_availableDatasets _ (clamp_index _ _)) =>
      apply dataset_at_returns; assumption
  | |- returns (hideTrackletPoints _) =>
      apply hideTrackletPoints_returns; ready_side
  | |- returns (hideTrackletBoxes _) =>
      apply hideTrackletBoxes_returns; ready_side
  | |- returns (showTrackletBoxes _) =>
      apply showTrackletBoxes_returns; ready_side
  | |- returns (showTrackletPoints _ _) =>
      apply showTrackletPoints_returns; ready_side
  | |- returns (showTrackletInCenter _) =>
      apply showTrackletInCenter_returns; ready_side
  | |- returns (loadAvailableTracklets _) =>
      rewrite loadAvailableTracklets_eq; apply returns_Ok
  | |- returns (loadTrackletPoints _) =>
      rewrite loadTrackletPoints_exact by facts; apply returns_Ok
  | |- returns (updateDatasetLabel _ _) =>
      apply updateDatasetLabel_returns; ready_side
  | |- returns (updateFrameLabel _) =>
      apply updateFrameLabel_returns; ready_side
  | |- returns (updateTrackletLabel _) =>
      apply updateTrackletLabel_returns; ready_side
  end.

Ltac returns_step :=
  lazymatch goal with
  | |- returns (let s := ?X in @?body s) =>
      let X' := eval state_norm in X in
      lazymatch X' with
      | (if ?b then _ else _) => destruct b
      | _ => let T := eval cbv beta in (body X') in change (returns T)
      end
  | |- returns (mbind ?f ?M) =>
      refine (returns_bind M f _ _);
      [ norm_goal; op_returns
      | let s1 := fresh "s" in let H1 := fresh "H" in
        intros s1 H1; norm_in H1; action_exact H1; cbv beta ]
  | |- returns _ => norm_goal; op_returns
  end.

Lemma newFrameRequested_returns env (value : Z) (s : State) :
  ready env s -> returns (newFrameRequested env value s).
Proof.
  intros [[Hact Hal Hsel Hb Hd] Hshow Hidx Hf Hfew Hp].
  pose proof (selected_is_int _ _ Hsel Hb) as Hint.
  cbv beta delta [newFrameRequested].
  destruct (frame_index s =? value); [apply returns_Ok |].
  rewrite hideTrackletInCenter_eq.
  destruct s as [di fi ti sc f1 f2 f3 f4 ds pc av cr u].
  simpl in Hact, Hal, Hsel, Hb, Hshow, Hidx, Hf, Hfew, Hp, Hint.
  repeat returns_step.
Qed.

Lemma newDatasetRequested_returns env (value : Z) (s : State) :
  vector_size (availableDatasets env) <= INT_MAX ->
  (forall number, showable (new_KittiDataset env number)) ->
  ready env s -> is_int value ->
  returns (newDatasetRequested env value s).
Proof.
  intros Hn Hall [[Hact Hal Hsel Hb Hd] Hshow Hidx Hf Hfew Hp] Hv.
  pose proof (selected_is_int _ _ Hsel Hb) as Hint.
  cbv beta delta [newDatasetRequested].
  destruct (dataset_index s =? value); [apply returns_Ok |].
  rewrite hideTrackletInCenter_eq.
  destruct s as [di fi ti sc f1 f2 f3 f4 ds pc av cr u].
  simpl in Hact, Hal, Hsel, Hb, Hshow, Hidx, Hf, Hfew, Hp, Hint.
  repeat returns_step.
Qed.

Lemma newTrackletRequested_returns env (value : Z) (s : State) :
  ready env s -> is_int value -> returns (newTrackletRequested value s).
Proof.
  intros [[Hact Hal Hsel Hb Hd] Hshow Hidx Hf Hfew Hp] Hv.
  apply active_covers in Hact.
  cbv beta delta [newTrackletRequested].
  destruct (tracklet_index s =? value); [apply returns_Ok |].
  rewrite hideTrackletInCenter_eq.
  destruct s as [di fi ti sc f1 f2 f3 f4 ds pc av cr u].
  simpl in Hact, Hal, Hsel, Hb, Hshow, Hidx, Hf, Hfew, Hp.
  repeat returns_step.
Qed.

Lemma checkBox_returns env (ly : Layer) (value : bool) (s : State) :
  ready env s -> returns (dispatch env (checkBox ly value) s).
Proof.
  intros [[Hact Hal Hsel Hb Hd] Hshow Hidx Hf Hfew Hp].
  apply active_covers in Hact.
  destruct ly; simpl.
  - apply returns_Ok.
  - unfold showTrackletBoundingBoxesToggled. destruct value; simpl.
    + by apply showTrackletBoxes_returns.
    + by apply hideTrackletBoxes_returns.
  - unfold showTrackletPointCloudsToggled. destruct value; simpl.
    + apply showTrackletPoints_returns; [simpl; lia | done].
    + apply hideTrackletPoints_returns. simpl. lia.
  - unfold showTrackletInCenterToggled. destruct value; simpl.
    + by apply showTrackletInCenter_returns.
    + apply returns_Ok.
Qed.

Lemma dispatch_returns env (ev : Event) (s : State) :
  vector_size (availableDatasets env) <= INT_MAX ->
  (forall number, showable (new_KittiDataset env number)) ->
  ready env s -> event_ok ev -> returns (dispatch env ev s).
Proof.
  intros Hn Hall Hr Hev.
  destruct ev as [v | v | v | b | b | b | b | |]; simpl in Hev |- *.
  - by apply newDatasetRequested_returns.
  - by apply newFrameRequested_returns.
  - by eapply newTrackletRequested_returns.
  - by apply (checkBox_returns env RawCloud b).
  - by apply (checkBox_returns env BoundingBoxes b).
  - by apply (checkBox_returns env CroppedTracklets b).
  - by apply (checkBox_returns env CenteredSelection b).
  - unfold loadPreviousFrame. pose proof Hr as [_ Hshow _ Hf _ _].
    apply showable_frames in Hshow.
    rewrite int_value_returns
      by (unfold is_int, INT_MIN, INT_MAX in *; lia).
    simpl. by apply newFrameRequested_returns.
  - unfold loadNextFrame. pose proof Hr as [_ Hshow _ Hf _ _].
    apply showable_frames in Hshow.
    rewrite int_value_returns
      by (unfold is_int, INT_MIN, INT_MAX in *; lia).
    simpl. by apply newFrameRequested_returns.
Qed.

(** ** Start-up that returns *)

Lemma parseCommandLineOptions_start env (cl : CommandLine) :
  help cl = false ->
  parseCommandLineOptions env cl = (0, start_index env cl).
Proof.
  intros Hh. unfold start_index, parseCommandLineOptions. rewrite Hh.
  by destruct (dataset_option cl).
Qed.

Lemma KittiVisualizerQt_returns env (cl : CommandLine) :
  help cl = false ->
  0 <= start_index env cl < vector_size (availableDatasets env) ->
  vector_size (availableDatasets env) <= INT_MAX ->
  (forall number, showable (new_KittiDataset env number)) ->
  returns (KittiVisualizerQt env cl).
Proof.
  intros Hh Hi Hn Hall. cbv beta delta [KittiVisualizerQt].
  rewrite (parseCommandLineOptions_start env cl Hh).
  generalize dependent (start_index env cl). intros index Hi.
  cbv beta iota. change (negb (0 =? 0)) with false. cbv iota.
  destruct (vector_at_inside in_availableDatasets (availableDatasets env)
              index) as (number & _ & Hnumber);
    [done | unfold INT_MAX in Hn; lia |].
  refine (returns_bind _ _ _ _); [rewrite Hnumber; apply returns_Ok |].
  clear number Hnumber. intros number Hnumber. cbv beta.
  repeat returns_step.
Qed.

Lemma KittiVisualizerQt_index env (cl : CommandLine) (s : State) :
  help cl = false -> KittiVisualizerQt env cl = Ok s ->
  dataset_index s = start_index env cl.
Proof.
  intros Hh H. cbv beta delta [KittiVisualizerQt] in H.
  rewrite (parseCommandLineOptions_start env cl Hh) in H.
  generalize dependent (start_index env cl). intros index H.
  cbv beta iota in H. change (negb (0 =? 0)) with false in H.
  cbv iota in H.
  run_slot H. reflexivity.
Qed.

(** ** Windows that stay ready *)

Lemma ready_rebuilt env (s : State) :
  consistent env s -> showable (dataset s) ->
  0 <= dataset_index s < vector_size (availableDatasets env) ->
  0 <= frame_index s < getNumberOfFrames (dataset s) ->
  rebuilt s -> ready env s.
Proof.
  intros Hc Hs Hi Hf (_ & Ha & _). split; try done.
  - rewrite Ha. by apply showable_few.
  - rewrite Ha. by apply showable_poses.
Qed.

Lemma ready_ext env (s s' : State) :
  ready env s -> consistent env s' ->
  dataset_index s' = dataset_index s -> frame_index s' = frame_index s ->
  dataset s' = dataset s ->
  availableTracklets s' = availableTracklets s ->
  ready env s'.
Proof.
  intros [_ Hs Hi Hf Hfew Hp] Hc Hdi Hfi Hd Ha.
  split; [done | | | | |]; by rewrite ?Hdi, ?Hfi, ?Hd, ?Ha.
Qed.

Lemma KittiVisualizerQt_ready env (cl : CommandLine) (s : State) :
  help cl = false ->
  0 <= start_index env cl < vector_size (availableDatasets env) ->
  (forall number, showable (new_KittiDataset env number)) ->
  KittiVisualizerQt env cl = Ok s -> ready env s.
Proof.
  intros Hh Hi Hall H.
  pose proof (KittiVisualizerQt_index env cl s Hh H) as Hdi.
  pose proof (KittiVisualizerQt_consistent env cl s H) as Hc.
  apply KittiVisualizerQt_started in H
    as ((number & _ & Hd) & Hf & _ & _ & _ & _ & _ & Hre).
  apply ready_rebuilt; try done.
  - rewrite Hd. apply Hall.
  - by rewrite Hdi.
  - rewrite Hf, Hd. pose proof (showable_frames _ (Hall number)). lia.
Qed.

Lemma newFrameRequested_ready env (value : Z) (s s' : State) :
  ready env s -> newFrameRequested env value s = Ok s' -> ready env s'.
Proof.
  intros Hr H. destruct (decide (frame_index s = value)) as [<- | Hne].
  { by apply newFrameRequested_same in H as ->. }
  pose proof Hr as [Hc Hs Hi Hf _ _].
  pose proof (newFrameRequested_consistent env value s s' Hc H) as Hc'.
  apply newFrameRequested_changed in H
    as (Hdi & Hd & Hfi & _ & _ & Hre); [| done].
  apply ready_rebuilt; try done.
  - by rewrite Hd.
  - by rewrite Hdi.
  - rewrite Hfi, Hd, clamp_frame.
    pose proof (showable_frames _ Hs). lia.
Qed.

Lemma dispatch_ready env (ev : Event) (s s' : State) :
  (forall number, showable (new_KittiDataset env number)) ->
  ready env s -> event_ok ev -> dispatch env ev s = Ok s' -> ready env s'.
Proof.
  intros Hall Hr Hev H.
  pose proof (dispatch_consistent env ev s s' (ready_consistent _ _ Hr) Hev H)
    as Hc'.
  assert (Htoggle : forall ly b, dispatch env (checkBox ly b) s = Ok s' ->
                                 ready env s').
  { intros ly b Hb.
    apply checkBox_toggled in Hb
      as (_ & _ & (H1 & H2 & H3 & H4 & H5 & H6 & H7 & H8) & _).
    by eapply ready_ext. }
  destruct ev as [v | v | v | b | b | b | b | |]; simpl in H, Hev.
  - destruct (decide (dataset_index s = v)) as [<- | Hne].
    { by apply newDatasetRequested_same in H as ->. }
    pose proof Hr as [[_ _ _ _ Hd] Hs Hi Hf _ _].
    apply newDatasetRequested_changed in H
      as (Hdi & (number & _ & Hds) & Hfi & _ & _ & Hre); [| done].
    apply ready_rebuilt; try done.
    + rewrite Hds. apply Hall.
    + rewrite Hdi. by apply clamp_index_range.
    + rewrite Hfi, Hds. pose proof (showable_frames _ (Hall number)).
      unfold clamp_upper.
      destruct (frame_index s >=? _) eqn:E; lia.
  - by eapply newFrameRequested_ready.
  - destruct (decide (tracklet_index s = v)) as [<- | Hne].
    + by apply newTrackletRequested_same in H as ->.
    + apply newTrackletRequested_changed in H as (scene & u & ->); [| done].
      by eapply ready_ext.
  - by apply (Htoggle RawCloud b).
  - by apply (Htoggle BoundingBoxes b).
  - by apply (Htoggle CroppedTracklets b).
  - by apply (Htoggle CenteredSelection b).
  - unfold loadPreviousFrame in H. apply bind_Ok in H as (v & _ & H).
    by eapply newFrameRequested_ready.
  - unfold loadNextFrame in H. apply bind_Ok in H as (v & _ & H).
    by eapply newFrameRequested_ready.
Qed.

Lemma run_returns env (evs : list Event) :
  vector_size (availableDatasets env) <= INT_MAX ->
  (forall number, showable (new_KittiDataset env number)) ->
  forall s, ready env s -> Forall event_ok evs -> returns (run env evs s).
Proof.
  intros Hn Hall. induction evs as [| ev evs IH]; intros s Hr Hevs; simpl.
  - apply returns_Ok.
  - apply Forall_cons in Hevs as [Hev Hevs].
    apply returns_bind; [by apply dispatch_returns |].
    intros s1 H1. apply IH; [| done]. by eapply dispatch_ready.
Qed.

(** X19.  A session returns.  When the constructor is started without
    [--help] on a position of [availableDatasets], there are at most
    [INT_MAX] data sets, and every data set has a frame, at most 14
    tracklets active at any one frame and tracklets whose pose counts are
    [int]s, then the constructor and every slot after it return, on every
    sequence of events with [int] values: nothing throws, the program does
    not exit and no identifier or [int] expression is undefined. *)
Theorem session_returns env (cl : CommandLine) (evs : list Event) :
  help cl = false ->
  0 <= start_index env cl < vector_size (availableDatasets env) ->
  vector_size (availableDatasets env) <= INT_MAX ->
  (forall number, showable (new_KittiDataset env number)) ->
  Forall event_ok evs ->
  exists s, session env cl evs = Ok s.
Proof.
  intros Hh Hi Hn Hall Hevs. unfold session.
  apply (returns_bind (KittiVisualizerQt env cl)).
  - by apply KittiVisualizerQt_returns.
  - intros s Hs. apply run_returns; [done | done | | done].
    by eapply KittiVisualizerQt_ready.
Qed.

Lemma session_returns_witness :
  help Demo.cl = false /\
  0 <= start_index Demo.env Demo.cl
    < vector_size (availableDatasets Demo.env) /\
  vector_size (availableDatasets Demo.env) <= INT_MAX /\
  (forall number, showable (new_KittiDataset Demo.env number)) /\
  Forall event_ok demo_events /\
  exists s, session Demo.env Demo.cl demo_events = Ok s.
Proof.
  assert (Hh : help Demo.cl = false) by reflexivity.
  assert (Hi : 0 <= start_index Demo.env Demo.cl
               < vector_size (availableDatasets Demo.env))
    by (vm_compute; split; [discriminate | reflexivity]).
  assert (Hn : vector_size (availableDatasets Demo.env) <= INT_MAX)
    by (vm_compute; discriminate).
  assert (Hall : forall number, showable (new_KittiDataset Demo.env number)).
  { intros number. simpl.
    destruct (number =? 1); [| destruct (number =? 2)].
    all: split; [unfold INT_MAX; simpl; lia |].
    all: split; [| repeat constructor; vm_compute; discriminate].
    all: intros frame; simpl;
      repeat match goal with
             | |- context [if ?b then _ else _] => destruct b
             end; simpl; lia. }
  assert (Hevs : Forall event_ok demo_events)
    by (repeat constructor; vm_compute; discriminate).
  split; [exact Hh |]. split; [exact Hi |]. split; [exact Hn |].
  split; [exact Hall |]. split; [exact Hevs |].
  exact (session_returns Demo.env Demo.cl demo_events Hh Hi Hn Hall Hevs).
Defined.
